(** * Directus3D rendering core: a shallow embedding

    The development follows the source files:
    - [Runtime/Math/Vector4.cpp]         (module [Vector4]),
    - the [Light] component               (module [Light]),
    - [Directus3D/Graphics/Renderer.cpp]  (module [Renderer]),
    - [Runtime/RHI/RHI_PipelineState.h]   (module [RHI_PipelineState]),
    - the [World] subsystem               (module [World]),
    - the [ImageImporter]                 (module [ImageImporter]).

    Conventions.  A C++ [float] is the rational number it stands for ([Q]);
    [==] on floats is [Qeq_bool], and the arithmetic operators on floats
    round their exact result to the nearest single-precision number
    ([Float.round]).  Infinities and NaN are not modelled: the embedding
    follows the code as long as no result of a float operation exceeds
    [Float.FLT_MAX] in magnitude.  A pointer that may be null is an
    [option].  Dereferencing a null pointer is a fault: functions that can
    do so return [option], and [None] is the fault.  Classes whose source is
    not among the files (matrices, quaternions, frustums) are interfaces: a
    type class lists the operations the code calls, and every definition is
    parametric in it. *)

From Stdlib Require Import ZArith QArith Qround Qabs Qminmax Qpower.
From Stdlib Require Import List Bool Lia Lqa.
Import ListNotations.

Set Implicit Arguments.

(** ** Floats *)

Module Float.

(** [a < b] on floats. *)
Definition ltb (a b : Q) : bool := negb (Qle_bool b a).

(** [std::max(a, b)]: [(a < b) ? b : a]. *)
Definition max (a b : Q) : Q := if ltb a b then b else a.

(** [abs(a)] on a float. *)
Definition abs (a : Q) : Q := if ltb a 0 then - a else a.

(** [floor(a)], as a float again: the floor of a float is a float. *)
Definition floor (a : Q) : Q := inject_Z (Qfloor a).

(** *** Single precision

    A [float] is an IEEE 754 binary32 number: a whole multiple [m * 2^e] of
    a power of two with [|m| < 2^24] and [-149 <= e <= 104].  Every
    arithmetic operator computes the exact result and rounds it to the
    nearest float, to the one with the even [m] when two are equally near.
    In the code a result beyond [FLT_MAX] and a division by zero give an
    infinity or NaN; here [round] has no largest exponent and [a / 0] is
    [0], and what is proved of rounded results keeps to the inputs for which
    neither happens. *)

Definition pow2 (e : Z) : Q := 2 ^ e.

(** The exponent of a number that is not zero: the [e] with
    [2^e <= |a| < 2^(e+1)]. *)
Definition exponent (a : Q) : Z :=
  let e := (Z.log2 (Z.abs (Qnum a)) - Z.log2 (Zpos (Qden a)))%Z in
  if Qle_bool (pow2 e) (Qabs a) then e else (e - 1)%Z.

(** The smallest exponent of a normal float. *)
Definition emin : Z := (-126)%Z.

(** The distance between the floats around [a]: 24 bits of precision, and
    the spacing of the smallest normal floats for all that is below
    them. *)
Definition scale (a : Q) : Z := Z.max (exponent a) emin.
Definition ulp (a : Q) : Q := pow2 (scale a - 23).

(** The integer nearest to [a]; the even one of the two when [a] is half way
    between them. *)
Definition nearest_even (a : Q) : Z :=
  let n := Qfloor a in
  match Qcompare (a - inject_Z n) (1 # 2) with
  | Lt => n
  | Gt => (n + 1)%Z
  | Eq => if Z.even n then n else (n + 1)%Z
  end.

(** The float nearest to [a], for [0 <= a]. *)
Definition round_magnitude (a : Q) : Q :=
  if Qeq_bool a 0 then 0
  else Qred (inject_Z (nearest_even (a / ulp a)) * ulp a).

(** The float nearest to [a]: the sign of [a] and the rounded magnitude. *)
Definition round (a : Q) : Q :=
  if ltb a 0 then - round_magnitude (- a) else round_magnitude a.

(** The numbers that are floats, but for the largest exponent. *)
Definition representable (a : Q) : Prop :=
  exists m e : Z,
    (Z.abs m <= 2 ^ 24)%Z /\ (-149 <= e)%Z /\ a == inject_Z m * pow2 e.

(** [a + b], [a - b], [a * b] and [a / b] on floats. *)
Definition add (a b : Q) : Q := round (a + b).
Definition sub (a b : Q) : Q := round (a - b).
Definition mul (a b : Q) : Q := round (a * b).
Definition div (a b : Q) : Q := round (a / b).

(** The conversion of an integer to [float]. *)
Definition of_nat (n : nat) : Q := round (inject_Z (Z.of_nat n)).

(** A literal such as [0.76f]: the float nearest to the decimal. *)
Definition lit (a : Q) : Q := round a.



End Float.

Arguments Float.round : simpl never.
Arguments Float.add : simpl never.
Arguments Float.sub : simpl never.
Arguments Float.mul : simpl never.
Arguments Float.div : simpl never.
Arguments Float.of_nat : simpl never.
Arguments Float.lit : simpl never.

(** ** Vector3 and Vector4 *)

Module Vector3.

Record t : Type := mk { x : Q; y : Q; z : Q }.

Definition Zero : t := mk 0 0 0.
Definition Up : t := mk 0 1 0.

(** [Vector3(value)] *)
Definition splat (value : Q) : t := mk value value value.

(** [a + b] and [a - b] work on each component, with the operator of
    [float]. *)
Definition add (a b : t) : t :=
  mk (Float.add (x a) (x b)) (Float.add (y a) (y b)) (Float.add (z a) (z b)).
Definition sub (a b : t) : t :=
  mk (Float.sub (x a) (x b)) (Float.sub (y a) (y b)) (Float.sub (z a) (z b)).

(** [v /= f], [v *= f] and [v.Floor()] work on each component. *)
Definition div_scalar (v : t) (f : Q) : t :=
  mk (Float.div (x v) f) (Float.div (y v) f) (Float.div (z v) f).
Definition mul_scalar (v : t) (f : Q) : t :=
  mk (Float.mul (x v) f) (Float.mul (y v) f) (Float.mul (z v) f).
Definition Floor (v : t) : t :=
  mk (Float.floor (x v)) (Float.floor (y v)) (Float.floor (z v)).

Definition eqb (a b : t) : bool :=
  Qeq_bool (x a) (x b) && Qeq_bool (y a) (y b) && Qeq_bool (z a) (z b).
Definition neqb (a b : t) : bool := negb (eqb a b).

End Vector3.

Module Vector4.

Record t : Type := mk { x : Q; y : Q; z : Q; w : Q }.

(** [Vector4::Vector4()] *)
Definition default : t := mk 0 0 0 0.

(** [Vector4::Zero] *)
Definition Zero : t := mk 0 0 0 0.

(** [Vector4::Vector4(float value)] *)
Definition splat (value : Q) : t := mk value value value value.

(** [Vector4::operator==] *)
Definition eqb (a b : t) : bool :=
  if Qeq_bool (x a) (x b) && Qeq_bool (y a) (y b)
     && Qeq_bool (z a) (z b) && Qeq_bool (w a) (w b)
  then true else false.

(** [Vector4::operator!=]; the source joins the four tests with the
    non-short-circuit [|]. *)
Definition neqb (a b : t) : bool :=
  if negb (Qeq_bool (x a) (x b)) || negb (Qeq_bool (y a) (y b))
     || negb (Qeq_bool (z a) (z b)) || negb (Qeq_bool (w a) (w b))
  then true else false.

End Vector4.

(** ** Interfaces of the classes the source only calls *)

(** [Math::Matrix]. *)
Class MatrixLib : Type := {
  Matrix : Type;
  (** [Matrix()] *)
  Matrix_default : Matrix;
  Matrix_Identity : Matrix;
  (** [operator!=] *)
  Matrix_neqb : Matrix -> Matrix -> bool;
  CreateLookAtLH : Vector3.t -> Vector3.t -> Vector3.t -> Matrix;
  CreateOrthoOffCenterLH : Q -> Q -> Q -> Q -> Q -> Q -> Matrix;
  (** [Vector3 * Matrix] *)
  Vector3_mul_Matrix : Vector3.t -> Matrix -> Vector3.t
}.

(** [Math::Quaternion]. *)
Class QuaternionLib : Type := {
  Quaternion : Type;
  Quaternion_neqb : Quaternion -> Quaternion -> bool;
  ToEulerAngles : Quaternion -> Vector3.t;
  FromEulerAngles : Q -> Q -> Q -> Quaternion;
  (** [Transform::GetForward] of a transform with this rotation *)
  Forward : Quaternion -> Vector3.t
}.

(** [Math::Frustum], as the Light component uses it. *)
Class FrustumLib `{MatrixLib} : Type := {
  Frustum : Type;
  (** [make_shared<Frustum>()] *)
  Frustum_new : Frustum;
  (** [Construct(view, projection, farPlane)] *)
  Frustum_Construct : Frustum -> Matrix -> Matrix -> Q -> Frustum
}.

(** ** The Light component *)

Module Light.

Inductive LightType : Type :=
| LightType_Directional
| LightType_Point
| LightType_Spot.

Definition LightType_eqb (a b : LightType) : bool :=
  match a, b with
  | LightType_Directional, LightType_Directional => true
  | LightType_Point, LightType_Point => true
  | LightType_Spot, LightType_Spot => true
  | _, _ => false
  end.

(** A render texture made by the device.  [rt_stamp] is the number of render
    textures the device had made before this one, so that a texture made
    later is told apart from every texture made earlier. *)
Record RHI_RenderTexture : Type := {
  rt_stamp : nat;
  rt_width : nat;
  rt_height : nat
}.

(** What one call reads from outside the component:
    [Settings::Get().Shadows_GetResolution()] and the Camera component of
    the world's main camera ([None]: a null pointer), with its position and
    far plane. *)
Record Camera : Type := { cam_position : Vector3.t; GetFarPlane : Q }.

Record World : Type := {
  Shadows_GetResolution : nat;
  GetMainCamera : option Camera
}.

Section Component.
Context {ML : MatrixLib} {QL : QuaternionLib} {FL : FrustumLib}.

(** The Transform of the actor that owns the light. *)
Record Transform : Type := {
  GetPosition : Vector3.t;
  GetRotation : Quaternion
}.

Definition SetRotation (q : Quaternion) (tr : Transform) : Transform :=
  {| GetPosition := GetPosition tr; GetRotation := q |}.

(** The members of [Light], then the two objects outside it that its
    methods write: the actor's transform, and the device's count of render
    textures made so far. *)
Record t : Type := mk {
  m_lightType : LightType;
  m_castShadows : bool;
  m_range : Q;
  m_intensity : Q;
  m_angle : Q;
  m_color : Vector4.t;
  m_bias : Q;
  m_isDirty : bool;
  m_shadowMapSplits : list Q;
  m_shadowMapCount : nat;
  m_shadowMapResolution : nat;
  m_shadowMaps : list RHI_RenderTexture;
  m_frustums : list Frustum;
  m_shadowMapsProjectionMatrix : list Matrix;
  m_viewMatrix : Matrix;
  m_lastPosLight : Vector3.t;
  m_lastRotLight : Quaternion;
  m_lastPosCamera : Vector3.t;
  transform : Transform;
  rhi_created : nat
}.

(** Assignments to one member. *)

Definition set_m_lightType (v : LightType) (l : t) : t :=
  mk v (m_castShadows l) (m_range l) (m_intensity l) (m_angle l) (m_color l)
    (m_bias l) (m_isDirty l) (m_shadowMapSplits l) (m_shadowMapCount l)
    (m_shadowMapResolution l) (m_shadowMaps l) (m_frustums l)
    (m_shadowMapsProjectionMatrix l) (m_viewMatrix l) (m_lastPosLight l)
    (m_lastRotLight l) (m_lastPosCamera l) (transform l) (rhi_created l).

Definition set_m_castShadows (v : bool) (l : t) : t :=
  mk (m_lightType l) v (m_range l) (m_intensity l) (m_angle l) (m_color l)
    (m_bias l) (m_isDirty l) (m_shadowMapSplits l) (m_shadowMapCount l)
    (m_shadowMapResolution l) (m_shadowMaps l) (m_frustums l)
    (m_shadowMapsProjectionMatrix l) (m_viewMatrix l) (m_lastPosLight l)
    (m_lastRotLight l) (m_lastPosCamera l) (transform l) (rhi_created l).

Definition set_m_isDirty (v : bool) (l : t) : t :=
  mk (m_lightType l) (m_castShadows l) (m_range l) (m_intensity l) (m_angle l)
    (m_color l) (m_bias l) v (m_shadowMapSplits l) (m_shadowMapCount l)
    (m_shadowMapResolution l) (m_shadowMaps l) (m_frustums l)
    (m_shadowMapsProjectionMatrix l) (m_viewMatrix l) (m_lastPosLight l)
    (m_lastRotLight l) (m_lastPosCamera l) (transform l) (rhi_created l).

Definition set_m_shadowMapCount (v : nat) (l : t) : t :=
  mk (m_lightType l) (m_castShadows l) (m_range l) (m_intensity l) (m_angle l)
    (m_color l) (m_bias l) (m_isDirty l) (m_shadowMapSplits l) v
    (m_shadowMapResolution l) (m_shadowMaps l) (m_frustums l)
    (m_shadowMapsProjectionMatrix l) (m_viewMatrix l) (m_lastPosLight l)
    (m_lastRotLight l) (m_lastPosCamera l) (transform l) (rhi_created l).

Definition set_m_shadowMapResolution (v : nat) (l : t) : t :=
  mk (m_lightType l) (m_castShadows l) (m_range l) (m_intensity l) (m_angle l)
    (m_color l) (m_bias l) (m_isDirty l) (m_shadowMapSplits l)
    (m_shadowMapCount l) v (m_shadowMaps l) (m_frustums l)
    (m_shadowMapsProjectionMatrix l) (m_viewMatrix l) (m_lastPosLight l)
    (m_lastRotLight l) (m_lastPosCamera l) (transform l) (rhi_created l).

Definition set_m_shadowMaps (v : list RHI_RenderTexture) (l : t) : t :=
  mk (m_lightType l) (m_castShadows l) (m_range l) (m_intensity l) (m_angle l)
    (m_color l) (m_bias l) (m_isDirty l) (m_shadowMapSplits l)
    (m_shadowMapCount l) (m_shadowMapResolution l) v (m_frustums l)
    (m_shadowMapsProjectionMatrix l) (m_viewMatrix l) (m_lastPosLight l)
    (m_lastRotLight l) (m_lastPosCamera l) (transform l) (rhi_created l).

Definition set_m_frustums (v : list Frustum) (l : t) : t :=
  mk (m_lightType l) (m_castShadows l) (m_range l) (m_intensity l) (m_angle l)
    (m_color l) (m_bias l) (m_isDirty l) (m_shadowMapSplits l)
    (m_shadowMapCount l) (m_shadowMapResolution l) (m_shadowMaps l) v
    (m_shadowMapsProjectionMatrix l) (m_viewMatrix l) (m_lastPosLight l)
    (m_lastRotLight l) (m_lastPosCamera l) (transform l) (rhi_created l).

Definition set_m_shadowMapsProjectionMatrix (v : list Matrix) (l : t) : t :=
  mk (m_lightType l) (m_castShadows l) (m_range l) (m_intensity l) (m_angle l)
    (m_color l) (m_bias l) (m_isDirty l) (m_shadowMapSplits l)
    (m_shadowMapCount l) (m_shadowMapResolution l) (m_shadowMaps l)
    (m_frustums l) v (m_viewMatrix l) (m_lastPosLight l) (m_lastRotLight l)
    (m_lastPosCamera l) (transform l) (rhi_created l).

Definition set_m_viewMatrix (v : Matrix) (l : t) : t :=
  mk (m_lightType l) (m_castShadows l) (m_range l) (m_intensity l) (m_angle l)
    (m_color l) (m_bias l) (m_isDirty l) (m_shadowMapSplits l)
    (m_shadowMapCount l) (m_shadowMapResolution l) (m_shadowMaps l)
    (m_frustums l) (m_shadowMapsProjectionMatrix l) v (m_lastPosLight l)
    (m_lastRotLight l) (m_lastPosCamera l) (transform l) (rhi_created l).

Definition set_m_lastPosLight (v : Vector3.t) (l : t) : t :=
  mk (m_lightType l) (m_castShadows l) (m_range l) (m_intensity l) (m_angle l)
    (m_color l) (m_bias l) (m_isDirty l) (m_shadowMapSplits l)
    (m_shadowMapCount l) (m_shadowMapResolution l) (m_shadowMaps l)
    (m_frustums l) (m_shadowMapsProjectionMatrix l) (m_viewMatrix l) v
    (m_lastRotLight l) (m_lastPosCamera l) (transform l) (rhi_created l).

Definition set_m_lastRotLight (v : Quaternion) (l : t) : t :=
  mk (m_lightType l) (m_castShadows l) (m_range l) (m_intensity l) (m_angle l)
    (m_color l) (m_bias l) (m_isDirty l) (m_shadowMapSplits l)
    (m_shadowMapCount l) (m_shadowMapResolution l) (m_shadowMaps l)
    (m_frustums l) (m_shadowMapsProjectionMatrix l) (m_viewMatrix l)
    (m_lastPosLight l) v (m_lastPosCamera l) (transform l) (rhi_created l).

Definition set_m_lastPosCamera (v : Vector3.t) (l : t) : t :=
  mk (m_lightType l) (m_castShadows l) (m_range l) (m_intensity l) (m_angle l)
    (m_color l) (m_bias l) (m_isDirty l) (m_shadowMapSplits l)
    (m_shadowMapCount l) (m_shadowMapResolution l) (m_shadowMaps l)
    (m_frustums l) (m_shadowMapsProjectionMatrix l) (m_viewMatrix l)
    (m_lastPosLight l) (m_lastRotLight l) v (transform l) (rhi_created l).

Definition set_transform (v : Transform) (l : t) : t :=
  mk (m_lightType l) (m_castShadows l) (m_range l) (m_intensity l) (m_angle l)
    (m_color l) (m_bias l) (m_isDirty l) (m_shadowMapSplits l)
    (m_shadowMapCount l) (m_shadowMapResolution l) (m_shadowMaps l)
    (m_frustums l) (m_shadowMapsProjectionMatrix l) (m_viewMatrix l)
    (m_lastPosLight l) (m_lastRotLight l) (m_lastPosCamera l) v
    (rhi_created l).

Definition set_rhi_created (v : nat) (l : t) : t :=
  mk (m_lightType l) (m_castShadows l) (m_range l) (m_intensity l) (m_angle l)
    (m_color l) (m_bias l) (m_isDirty l) (m_shadowMapSplits l)
    (m_shadowMapCount l) (m_shadowMapResolution l) (m_shadowMaps l)
    (m_frustums l) (m_shadowMapsProjectionMatrix l) (m_viewMatrix l)
    (m_lastPosLight l) (m_lastRotLight l) (m_lastPosCamera l) (transform l) v.

(** [Light::Light].  The constructor assigns the members from
    [m_lightType] to [m_shadowMapSplits]; the others keep what their
    declarations in the header give them, and the header is not among the
    sources: their first values, the actor's transform and the device's
    count are arguments here. *)
Definition Light (tr : Transform) (created count0 resolution0 : nat)
  (view0 : Matrix) (pos0 : Vector3.t) (rot0 : Quaternion) (cam0 : Vector3.t)
  : t :=
  {| m_lightType := LightType_Point;
     m_castShadows := true;
     m_range := 1;
     m_intensity := 2;
     m_angle := 0.5;
     m_color := Vector4.mk 1 (Float.lit 0.76) (Float.lit 0.57) 1;
     m_bias := Float.lit 0.001;
     m_isDirty := true;
     m_shadowMapSplits := [Float.lit 0.01; Float.lit 0.035];
     m_shadowMapCount := count0;
     m_shadowMapResolution := resolution0;
     m_shadowMaps := [];
     m_frustums := [];
     m_shadowMapsProjectionMatrix := [];
     m_viewMatrix := view0;
     m_lastPosLight := pos0;
     m_lastRotLight := rot0;
     m_lastPosCamera := cam0;
     transform := tr;
     rhi_created := created |}.

(** [Light::ShadowMap_Destroy] *)
Definition ShadowMap_Destroy (l : t) : t :=
  set_m_frustums [] (set_m_shadowMaps [] l).

(** The loop of [ShadowMap_Create]: [n] more rounds, each making one render
    texture of the stored resolution and one frustum. *)
Fixpoint ShadowMap_Create_loop (n : nat) (l : t) : t :=
  match n with
  | O => l
  | S n' =>
      let texture :=
        {| rt_stamp := rhi_created l;
           rt_width := m_shadowMapResolution l;
           rt_height := m_shadowMapResolution l |} in
      let l := set_rhi_created (S (rhi_created l)) l in
      let l := set_m_shadowMaps (m_shadowMaps l ++ [texture]) l in
      let l := set_m_frustums (m_frustums l ++ [Frustum_new]) l in
      ShadowMap_Create_loop n' l
  end.

(** [Light::ShadowMap_Create] *)
Definition ShadowMap_Create (w : World) (force : bool) (l : t) : t :=
  if negb force && negb (match m_shadowMaps l with [] => true | _ => false end)
  then l
  else
    let l := ShadowMap_Destroy l in
    let l :=
      match m_lightType l with
      | LightType_Directional => set_m_shadowMapCount 3 l
      | LightType_Point => set_m_shadowMapCount 6 l
      | LightType_Spot => set_m_shadowMapCount 1 l
      end in
    let l := set_m_shadowMapResolution (Shadows_GetResolution w) l in
    ShadowMap_Create_loop (m_shadowMapCount l) l.

(** [Light::OnInitialize] and [Light::OnStart] *)
Definition OnInitialize (w : World) (l : t) : t := ShadowMap_Create w true l.
Definition OnStart (w : World) (l : t) : t := ShadowMap_Create w false l.

(** [Light::SetLightType] *)
Definition SetLightType (w : World) (type : LightType) (l : t) : t :=
  ShadowMap_Create w true (set_m_isDirty true (set_m_lightType type l)).

(** [Light::SetCastShadows].  The condition of the [if] is the assignment
    [m_castShadows = castShadows]: it stores the argument and tests it. *)
Definition SetCastShadows (w : World) (castShadows : bool) (l : t) : t :=
  let l := set_m_castShadows castShadows l in
  if m_castShadows l then l
  else ShadowMap_Create w true (set_m_castShadows castShadows l).

(** [Light::GetDirection] *)
Definition GetDirection (l : t) : Vector3.t :=
  Forward (GetRotation (transform l)).

(** [Light::ClampRotation].  [rotation] is read once, before either test. *)
Definition ClampRotation (l : t) : t :=
  let rotation := ToEulerAngles (GetRotation (transform l)) in
  let l :=
    if Qle_bool (Vector3.x rotation) 0
    then set_transform
           (SetRotation
              (FromEulerAngles 179 (Vector3.y rotation) (Vector3.z rotation))
              (transform l)) l
    else l in
  if Qle_bool 180 (Vector3.x rotation)
  then set_transform
         (SetRotation
            (FromEulerAngles 1 (Vector3.y rotation) (Vector3.z rotation))
            (transform l)) l
  else l.

(** The pitch one reads from the light's transform:
    [GetTransform()->GetRotation().ToEulerAngles().x]. *)
Definition pitch (l : t) : Q :=
  Vector3.x (ToEulerAngles (GetRotation (transform l))).

(** [Light::ComputeViewMatrix] *)
Definition ComputeViewMatrix (l : t) : t :=
  let lightDirection := GetDirection l in
  let position := lightDirection in
  let lookAt := Vector3.add position lightDirection in
  let up := Vector3.Up in
  set_m_viewMatrix (CreateLookAtLH position lookAt up) l.

(** [Light::ShadowMap_GetProjectionMatrix] *)
Definition ShadowMap_GetProjectionMatrix (index : nat) (l : t) : Matrix :=
  if length (m_shadowMapsProjectionMatrix l) <=? index
  then Matrix_Identity
  else nth index (m_shadowMapsProjectionMatrix l) Matrix_Identity.

(** [Light::ShadowMap_GetRenderTexture] *)
Definition ShadowMap_GetRenderTexture (index : nat) (l : t)
  : option RHI_RenderTexture :=
  if length (m_shadowMaps l) <=? index then None
  else nth_error (m_shadowMaps l) index.

End Component.

(** The first lines of [ShadowMap_ComputeProjectionMatrix]: the half extent
    of a cascade. *)
Definition cascade_extents (index : nat) : Q :=
  let extents := 0 in
  let extents := if index =? 0 then 10 else extents in
  let extents := if index =? 1 then 45 else extents in
  let extents := if index =? 2 then 90 else extents in
  extents.

(** [fWorldUnitsPerTexel]: [(extents * 2.0f) / m_shadowMapResolution], the
    resolution converted to [float] for the division. *)
Definition fWorldUnitsPerTexel (extents : Q) (resolution : nat) : Q :=
  Float.div (Float.mul extents 2) (Float.of_nat resolution).

(** The box around [center] before the shimmering remedy: [(min, max)]. *)
Definition cascade_box (extents : Q) (center : Vector3.t)
  : Vector3.t * Vector3.t :=
  (Vector3.sub center (Vector3.mk extents extents extents),
   Vector3.add center (Vector3.mk extents extents extents)).

(** [v /= f; v.Floor(); v *= f] *)
Definition snap (f : Q) (v : Vector3.t) : Vector3.t :=
  Vector3.mul_scalar (Vector3.Floor (Vector3.div_scalar v f)) f.

(** The box that [ShadowMap_ComputeProjectionMatrix] hands to
    [CreateOrthoOffCenterLH], as [(min, max)]. *)
Definition snapped_box (index resolution : nat) (center : Vector3.t)
  : Vector3.t * Vector3.t :=
  let extents := cascade_extents index in
  let (min, max) := cascade_box extents center in
  let f := fWorldUnitsPerTexel extents resolution in
  (snap f min, snap f max).

(** [v[index] = m] on a [std::vector]; an index past the end is a fault. *)
Fixpoint vector_assign {A : Type} (index : nat) (m : A) (v : list A)
  : option (list A) :=
  match v, index with
  | [], _ => None
  | _ :: v', O => Some (m :: v')
  | a :: v', S index' =>
      match vector_assign index' m v' with
      | Some r => Some (a :: r)
      | None => None
      end
  end.

Section Tick.
Context {ML : MatrixLib} {QL : QuaternionLib} {FL : FrustumLib}.

(** [Light::ShadowMap_ComputeProjectionMatrix] *)
Definition ShadowMap_ComputeProjectionMatrix (index : nat) (l : t)
  : option t :=
  let center := Vector3_mul_Matrix (m_lastPosCamera l) (m_viewMatrix l) in
  let (min, max) := snapped_box index (m_shadowMapResolution l) center in
  let projection :=
    CreateOrthoOffCenterLH (Vector3.x min) (Vector3.x max)
                           (Vector3.y min) (Vector3.y max)
                           (Vector3.z min) (Vector3.z max) in
  match vector_assign index projection (m_shadowMapsProjectionMatrix l) with
  | Some v => Some (set_m_shadowMapsProjectionMatrix v l)
  | None => None
  end.

(** The loop of [OnTick] over the cascades, from index [i], [n] more
    rounds. *)
Fixpoint projection_loop (n i : nat) (l : t) : option t :=
  match n with
  | O => Some l
  | S n' =>
      let l :=
        set_m_shadowMapsProjectionMatrix
          (m_shadowMapsProjectionMatrix l ++ [Matrix_default]) l in
      match ShadowMap_ComputeProjectionMatrix i l with
      | Some l => projection_loop n' (S i) l
      | None => None
      end
  end.

(** The loop of [OnTick] over [m_frustums], from index [index]; [l] is the
    light the projection matrices are read from. *)
Fixpoint frustum_loop (farPlane : Q) (l : t) (index : nat)
  (frustums : list Frustum) : list Frustum :=
  match frustums with
  | [] => []
  | f :: rest =>
      Frustum_Construct f (m_viewMatrix l)
        (ShadowMap_GetProjectionMatrix index l) farPlane
      :: frustum_loop farPlane l (S index) rest
  end.

(** [Light::OnTick].  The main camera is dereferenced without a test right
    after the first dirty check. *)
Definition OnTick (w : World) (l : t) : option t :=
  if negb (LightType_eqb (m_lightType l) LightType_Directional) then Some l
  else
    let l :=
      if Vector3.neqb (m_lastPosLight l) (GetPosition (transform l))
         || Quaternion_neqb (m_lastRotLight l) (GetRotation (transform l))
      then
        let l := set_m_lastPosLight (GetPosition (transform l)) l in
        let l := set_m_lastRotLight (GetRotation (transform l)) l in
        let l := ClampRotation l in
        let l := ComputeViewMatrix l in
        set_m_isDirty true l
      else l in
    match GetMainCamera w with
    | None => None
    | Some camera =>
        let moved :=
          if Vector3.neqb (m_lastPosCamera l) (cam_position camera)
          then
            let l := set_m_lastPosCamera (cam_position camera) l in
            let l := set_m_shadowMapsProjectionMatrix [] l in
            match projection_loop (m_shadowMapCount l) 0 l with
            | Some l => Some (set_m_isDirty true l)
            | None => None
            end
          else Some l in
        match moved with
        | None => None
        | Some l =>
            if negb (m_isDirty l) then Some l
            else
              Some (set_m_frustums
                      (frustum_loop (GetFarPlane camera) l 0 (m_frustums l)) l)
        end
    end.

(** What can happen to a light between its construction and any later
    moment: calls of its own methods, and the scene moving or turning the
    actor. *)
Inductive Op : Type :=
| OpSetLightType (type : LightType)
| OpOnInitialize
| OpOnStart
| OpOnTick
| OpSetCastShadows (castShadows : bool)
| OpMoveActor (tr : Transform).

Definition apply (w : World) (op : Op) (l : t) : option t :=
  match op with
  | OpSetLightType type => Some (SetLightType w type l)
  | OpOnInitialize => Some (OnInitialize w l)
  | OpOnStart => Some (OnStart w l)
  | OpOnTick => OnTick w l
  | OpSetCastShadows castShadows => Some (SetCastShadows w castShadows l)
  | OpMoveActor tr => Some (set_transform tr l)
  end.

(** A run: each operation meets its own world (camera position, shadow
    resolution setting). *)
Fixpoint run (ops : list (World * Op)) (l : t) : option t :=
  match ops with
  | [] => Some l
  | (w, op) :: rest =>
      match apply w op l with
      | Some l' => run rest l'
      | None => None
      end
  end.

Local Open Scope nat_scope.

(** The cascade count of a light type, and the three per-cascade arrays
    all having it. *)
Definition cascade_count (type : LightType) : nat :=
  match type with
  | LightType_Directional => 3
  | LightType_Point => 6
  | LightType_Spot => 1
  end.

Definition arrays_agree (l : t) : Prop :=
  length (m_shadowMapsProjectionMatrix l) = cascade_count (m_lightType l)
  /\ length (m_frustums l) = cascade_count (m_lightType l)
  /\ length (m_shadowMaps l) = cascade_count (m_lightType l).

(** The operations that leave the light with shadow maps: those that call
    [ShadowMap_Create].  [SetCastShadows] calls it only for [false]. *)
Definition creates_shadow_maps (op : Op) : bool :=
  match op with
  | OpSetLightType _ => true
  | OpOnInitialize => true
  | OpOnStart => true
  | OpOnTick => false
  | OpSetCastShadows castShadows => negb castShadows
  | OpMoveActor _ => false
  end.

(** Whether the operation, applied to [l], fills the projection array: an
    [OnTick] of a directional light that finds the main camera away from
    where the light saw it last. *)
Definition fills_projections (w : World) (op : Op) (l : t) : bool :=
  match op with
  | OpOnTick =>
      LightType_eqb (m_lightType l) LightType_Directional
      && match GetMainCamera w with
         | Some camera =>
             Vector3.neqb (m_lastPosCamera l) (cam_position camera)
         | None => false
         end
  | _ => false
  end.

(** Whether some operation of a run from [l] fills the projection array. *)
Fixpoint filled (ops : list (World * Op)) (l : t) : bool :=
  match ops with
  | [] => false
  | (w, op) :: rest =>
      match apply w op l with
      | Some l' => fills_projections w op l || filled rest l'
      | None => false
      end
  end.

(** The invariant of a light.  [made] tells whether shadow maps were ever
    created, [full] whether the projection array was ever filled. *)
Definition created (l : t) : Prop :=
  length (m_shadowMaps l) = cascade_count (m_lightType l)
  /\ m_shadowMapCount l = cascade_count (m_lightType l).

Definition never_created (l : t) : Prop :=
  m_shadowMaps l = [] /\ m_lightType l = LightType_Point.

Definition light_invariant (made full : bool) (l : t) : Prop :=
  length (m_frustums l) = length (m_shadowMaps l)
  /\ (if made then created l else never_created l)
  /\ (if full then length (m_shadowMapsProjectionMatrix l) = 3
      else m_shadowMapsProjectionMatrix l = []).

End Tick.









(** *** The accessors of the cascades and the stream *)

(** What [FileStream] carries.  The class is not among the sources: a stream
    is the sequence of the values written to it, a write appends one value
    and a read takes the oldest one.  A read that finds nothing, or a value
    of another type than the one asked for, is [None]. *)
Inductive StreamItem : Type :=
| Stream_int (z : Z)
| Stream_bool (b : bool)
| Stream_float (q : Q)
| Stream_Vector4 (v : Vector4.t).

Definition FileStream : Type := list StreamItem.

Definition FileStream_Write (item : StreamItem) (stream : FileStream)
  : FileStream := stream ++ [item].

Definition FileStream_ReadInt (stream : FileStream) : option (Z * FileStream) :=
  match stream with
  | Stream_int z :: rest => Some (z, rest)
  | _ => None
  end.

Definition FileStream_ReadBool (stream : FileStream)
  : option (bool * FileStream) :=
  match stream with
  | Stream_bool b :: rest => Some (b, rest)
  | _ => None
  end.

Definition FileStream_ReadFloat (stream : FileStream)
  : option (Q * FileStream) :=
  match stream with
  | Stream_float q :: rest => Some (q, rest)
  | _ => None
  end.

Definition FileStream_ReadVector4 (stream : FileStream)
  : option (Vector4.t * FileStream) :=
  match stream with
  | Stream_Vector4 v :: rest => Some (v, rest)
  | _ => None
  end.

Section Accessors.
Context {ML : MatrixLib} {QL : QuaternionLib} {FL : FrustumLib}.

(** Assignments to the members the serialization and the splits write. *)

Definition set_m_range (v : Q) (l : t) : t :=
  mk (m_lightType l) (m_castShadows l) v (m_intensity l) (m_angle l)
    (m_color l) (m_bias l) (m_isDirty l) (m_shadowMapSplits l)
    (m_shadowMapCount l) (m_shadowMapResolution l) (m_shadowMaps l)
    (m_frustums l) (m_shadowMapsProjectionMatrix l) (m_viewMatrix l)
    (m_lastPosLight l) (m_lastRotLight l) (m_lastPosCamera l) (transform l)
    (rhi_created l).

Definition set_m_intensity (v : Q) (l : t) : t :=
  mk (m_lightType l) (m_castShadows l) (m_range l) v (m_angle l) (m_color l)
    (m_bias l) (m_isDirty l) (m_shadowMapSplits l) (m_shadowMapCount l)
    (m_shadowMapResolution l) (m_shadowMaps l) (m_frustums l)
    (m_shadowMapsProjectionMatrix l) (m_viewMatrix l) (m_lastPosLight l)
    (m_lastRotLight l) (m_lastPosCamera l) (transform l) (rhi_created l).

Definition set_m_angle (v : Q) (l : t) : t :=
  mk (m_lightType l) (m_castShadows l) (m_range l) (m_intensity l) v
    (m_color l) (m_bias l) (m_isDirty l) (m_shadowMapSplits l)
    (m_shadowMapCount l) (m_shadowMapResolution l) (m_shadowMaps l)
    (m_frustums l) (m_shadowMapsProjectionMatrix l) (m_viewMatrix l)
    (m_lastPosLight l) (m_lastRotLight l) (m_lastPosCamera l) (transform l)
    (rhi_created l).

Definition set_m_color (v : Vector4.t) (l : t) : t :=
  mk (m_lightType l) (m_castShadows l) (m_range l) (m_intensity l) (m_angle l)
    v (m_bias l) (m_isDirty l) (m_shadowMapSplits l) (m_shadowMapCount l)
    (m_shadowMapResolution l) (m_shadowMaps l) (m_frustums l)
    (m_shadowMapsProjectionMatrix l) (m_viewMatrix l) (m_lastPosLight l)
    (m_lastRotLight l) (m_lastPosCamera l) (transform l) (rhi_created l).

Definition set_m_bias (v : Q) (l : t) : t :=
  mk (m_lightType l) (m_castShadows l) (m_range l) (m_intensity l) (m_angle l)
    (m_color l) v (m_isDirty l) (m_shadowMapSplits l) (m_shadowMapCount l)
    (m_shadowMapResolution l) (m_shadowMaps l) (m_frustums l)
    (m_shadowMapsProjectionMatrix l) (m_viewMatrix l) (m_lastPosLight l)
    (m_lastRotLight l) (m_lastPosCamera l) (transform l) (rhi_created l).

Definition set_m_shadowMapSplits (v : list Q) (l : t) : t :=
  mk (m_lightType l) (m_castShadows l) (m_range l) (m_intensity l) (m_angle l)
    (m_color l) (m_bias l) (m_isDirty l) v (m_shadowMapCount l)
    (m_shadowMapResolution l) (m_shadowMaps l) (m_frustums l)
    (m_shadowMapsProjectionMatrix l) (m_viewMatrix l) (m_lastPosLight l)
    (m_lastRotLight l) (m_lastPosCamera l) (transform l) (rhi_created l).

(** [Light::ShadowMap_GetSplit] *)
Definition ShadowMap_GetSplit (index : nat) (l : t) : Q :=
  if length (m_shadowMapSplits l) <=? index then 0
  else nth index (m_shadowMapSplits l) 0.

(** [Light::ShadowMap_SetSplit] *)
Definition ShadowMap_SetSplit (split : Q) (index : nat) (l : t) : t :=
  if length (m_shadowMapSplits l) <=? index then l
  else
    match vector_assign index split (m_shadowMapSplits l) with
    | Some v => set_m_shadowMapSplits v l
    | None => l
    end.

(** [Light::ShadowMap_IsInViewFrustrum]: the frustum of a cascade, or a null
    pointer. *)
Definition ShadowMap_IsInViewFrustrum (index : nat) (l : t)
  : option Frustum :=
  if length (m_frustums l) <=? index then None
  else nth_error (m_frustums l) index.

(** The integer of a light type, [int(m_lightType)], is given by [code]: the
    enumeration is declared in the header.  [LightType(n)] is the light type
    with that integer; an integer of no light type is [None]. *)
Definition LightType_of_int (code : LightType -> Z) (n : Z)
  : option LightType :=
  if (n =? code LightType_Directional)%Z then Some LightType_Directional
  else if (n =? code LightType_Point)%Z then Some LightType_Point
  else if (n =? code LightType_Spot)%Z then Some LightType_Spot
  else None.

(** [Light::Serialize] *)
Definition Serialize (code : LightType -> Z) (stream : FileStream) (l : t)
  : FileStream :=
  let stream := FileStream_Write (Stream_int (code (m_lightType l))) stream in
  let stream := FileStream_Write (Stream_bool (m_castShadows l)) stream in
  let stream := FileStream_Write (Stream_Vector4 (m_color l)) stream in
  let stream := FileStream_Write (Stream_float (m_range l)) stream in
  let stream := FileStream_Write (Stream_float (m_intensity l)) stream in
  let stream := FileStream_Write (Stream_float (m_angle l)) stream in
  FileStream_Write (Stream_float (m_bias l)) stream.

(** [Light::Deserialize]: the light and what is left of the stream. *)
Definition Deserialize (w : World) (code : LightType -> Z)
  (stream : FileStream) (l : t) : option (t * FileStream) :=
  match FileStream_ReadInt stream with
  | None => None
  | Some (n, stream) =>
  match LightType_of_int code n with
  | None => None
  | Some type =>
  let l := SetLightType w type l in
  match FileStream_ReadBool stream with
  | None => None
  | Some (castShadows, stream) =>
  let l := set_m_castShadows castShadows l in
  match FileStream_ReadVector4 stream with
  | None => None
  | Some (color, stream) =>
  let l := set_m_color color l in
  match FileStream_ReadFloat stream with
  | None => None
  | Some (range, stream) =>
  let l := set_m_range range l in
  match FileStream_ReadFloat stream with
  | None => None
  | Some (intensity, stream) =>
  let l := set_m_intensity intensity l in
  match FileStream_ReadFloat stream with
  | None => None
  | Some (angle, stream) =>
  let l := set_m_angle angle l in
  match FileStream_ReadFloat stream with
  | None => None
  | Some (bias, stream) => Some (set_m_bias bias l, stream)
  end end end end end end end end.

(** The seven members a stream carries. *)
Definition serialized_members (l : t)
  : LightType * bool * Vector4.t * Q * Q * Q * Q :=
  (m_lightType l, m_castShadows l, m_color l, m_range l, m_intensity l,
   m_angle l, m_bias l).

(** The projection matrix [ShadowMap_ComputeProjectionMatrix] computes for
    the cascade [index] from the members of [l]. *)
Definition cascade_projection (index : nat) (l : t) : Matrix :=
  let center := Vector3_mul_Matrix (m_lastPosCamera l) (m_viewMatrix l) in
  let box := snapped_box index (m_shadowMapResolution l) center in
  CreateOrthoOffCenterLH
    (Vector3.x (fst box)) (Vector3.x (snd box))
    (Vector3.y (fst box)) (Vector3.y (snd box))
    (Vector3.z (fst box)) (Vector3.z (snd box)).

(** The frustum the last loop of [OnTick] leaves at [index], from the
    frustum [f] it finds there and the light [l] whose matrices it reads. *)
Definition constructed (farPlane : Q) (l : t) (index : nat) (f : Frustum)
  : Frustum :=
  Frustum_Construct f (m_viewMatrix l) (ShadowMap_GetProjectionMatrix index l)
                    farPlane.

End Accessors.

(** The sample numbering of the light types. *)
Definition sample_code (type : LightType) : Z :=
  match type with
  | LightType_Directional => 0
  | LightType_Point => 1
  | LightType_Spot => 2
  end.

End Light.

(** ** The Renderer *)

(** [Frustrum], the culling helper of the renderer: the planes it derives
    from a view matrix, a projection matrix and a far plane, and the test
    of a sphere against them. *)
Inductive FrustrumSpace : Type := Outside | Inside | Intersects.

Class FrustrumLib `{MatrixLib} : Type := {
  Planes : Type;
  (** the planes of [new Frustrum()] *)
  Planes_new : Planes;
  (** what [ConstructFrustum(farPlane)] computes from the stored matrices *)
  construct_planes : Matrix -> Matrix -> Q -> Planes;
  (** [CheckSphere(center, radius)] *)
  check_sphere : Planes -> Vector3.t -> Q -> FrustrumSpace
}.

Module Renderer.

(** *** The objects the renderer reads

    A getter the source calls without ever testing its result returns a
    plain value.  A component lookup ([GetComponent<T>()]) and a getter whose
    result the source tests somewhere return an [option]. *)

Inductive ShadowType : Type := No_Shadows | Hard_Shadows | Soft_Shadows.

Inductive CullMode : Type := CullNone | CullFront | CullBack.

Inductive TextureType : Type :=
| Albedo | Roughness | Metallic | Occlusion | Normal | Height | Mask.

Inductive EngineMode : Type := Editor_Idle | Editor_Playing | Build_Stand_Alone.

Definition EngineMode_eqb (a b : EngineMode) : bool :=
  match a, b with
  | Editor_Idle, Editor_Idle => true
  | Editor_Playing, Editor_Playing => true
  | Build_Stand_Alone, Build_Stand_Alone => true
  | _, _ => false
  end.

Definition ShadowType_eqb (a b : ShadowType) : bool :=
  match a, b with
  | No_Shadows, No_Shadows => true
  | Hard_Shadows, Hard_Shadows => true
  | Soft_Shadows, Soft_Shadows => true
  | _, _ => false
  end.

(** A shader resource view; a null view is [None]. *)
Inductive ShaderResourceView : Type :=
| SRV_Material (material : nat) (type : TextureType)
| SRV_DepthMap (cascade : nat)
| SRV_GBuffer (stamp : nat) (index : nat)
| SRV_RenderTexture (stamp : nat)
| SRV_NoiseMap
| SRV_Environment.

(** A render target the renderer owns: the G-buffer, the full-screen quad
    and the two render textures.  [stamp] numbers the objects in the order
    they were made. *)
Record Target : Type := { stamp : nat; width : Z; height : Z }.

Record ShaderVariation : Type := { ShaderVariation_GetID : nat }.

Record Material : Type := {
  Material_GetID : nat;
  Material_GetShader : ShaderVariation;
  Material_GetOpacity : Q;
  Material_GetFaceCullMode : CullMode;
  Material_GetShaderResourceViewByTextureType :
    TextureType -> option ShaderResourceView
}.

Record Mesh : Type := { Mesh_GetIndexCount : nat }.

Record MeshFilter : Type := {
  MeshFilter_GetMesh : option Mesh;
  MeshFilter_GetCenter : Vector3.t;
  MeshFilter_GetBoundingBox : Vector3.t;
  (** what [SetBuffers()] returns *)
  MeshFilter_SetBuffers : bool
}.

Record MeshRenderer : Type := {
  MeshRenderer_GetMaterial : option Material;
  MeshRenderer_GetCastShadows : bool;
  MeshRenderer_GetReceiveShadows : bool
}.

Record Skybox : Type := {
  Skybox_GetEnvironmentTexture : option ShaderResourceView
}.

Record LineRenderer : Type := { LineRenderer_GetVertexCount : nat }.

(** *** Faults

    [x <- c ;; k]: run [c]; a fault ends the computation. *)
Definition bind {A B : Type} (c : option A) (k : A -> option B) : option B :=
  match c with
  | Some a => k a
  | None => None
  end.

Notation "x <- c ;; k" := (bind c (fun x => k))
  (at level 61, c at next level, right associativity).

(** A loop over a container whose body may fault. *)
Fixpoint for_each {A S : Type} (body : A -> S -> option S) (items : list A)
  (s : S) : option S :=
  match items with
  | [] => Some s
  | a :: rest => s' <- body a s ;; for_each body rest s'
  end.

Section Objects.
Context {ML : MatrixLib} {FR : FrustrumLib}.

Record Camera : Type := {
  Camera_GetClearColor : Vector4.t;
  Camera_GetProjectionMatrix : Matrix;
  Camera_GetOrthographicProjectionMatrix : Matrix;
  Camera_GetViewMatrix : Matrix;
  Camera_GetBaseViewMatrix : Matrix;
  Camera_GetNearPlane : Q;
  Camera_GetFarPlane : Q
}.

Record Light : Type := {
  Light_GetShadowType : ShadowType;
  Light_GetCascadeCount : nat;
  Light_GetDepthMap : nat -> option ShaderResourceView;
  Light_GetViewMatrix : Matrix;
  Light_GetOrthographicProjectionMatrix : nat -> Matrix
}.

(** A game object: its transform's world matrix and the components a
    lookup by type can find. *)
Record GameObject : Type := {
  GameObject_GetWorldTransform : Matrix;
  GameObject_Camera : option Camera;
  GameObject_Skybox : option Skybox;
  GameObject_LineRenderer : option LineRenderer;
  GameObject_Light : option Light;
  GameObject_MeshRenderer : option MeshRenderer;
  GameObject_MeshFilter : option MeshFilter
}.

(** The collaborators [Initialize] hands to the renderer, as one frame
    finds them. *)
Record Engine : Type := {
  Scene_GetMainCamera : option GameObject;
  Scene_GetSkybox : option GameObject;
  ShaderPool_GetAllShaders : list ShaderVariation;
  MaterialPool_GetAllMaterials : list Material;
  DeferredShader_IsCompiled : bool;
  PhysicsDebugDraw_IsDirty : bool;
  (** the number of lines [GetLines()] returns *)
  PhysicsDebugDraw_GetLines : nat;
  GET_ENGINE_MODE : EngineMode
}.

(** The [Frustrum] object. *)
Record Frustrum : Type := {
  Frustrum_GetProjectionMatrix : Matrix;
  Frustrum_GetViewMatrix : Matrix;
  Frustrum_planes : Planes
}.

Definition Frustrum_SetProjectionMatrix (m : Matrix) (f : Frustrum) :=
  {| Frustrum_GetProjectionMatrix := m;
     Frustrum_GetViewMatrix := Frustrum_GetViewMatrix f;
     Frustrum_planes := Frustrum_planes f |}.

Definition Frustrum_SetViewMatrix (m : Matrix) (f : Frustrum) :=
  {| Frustrum_GetProjectionMatrix := Frustrum_GetProjectionMatrix f;
     Frustrum_GetViewMatrix := m;
     Frustrum_planes := Frustrum_planes f |}.

Definition Frustrum_ConstructFrustum (farPlane : Q) (f : Frustrum) :=
  {| Frustrum_GetProjectionMatrix := Frustrum_GetProjectionMatrix f;
     Frustrum_GetViewMatrix := Frustrum_GetViewMatrix f;
     Frustrum_planes :=
       construct_planes (Frustrum_GetViewMatrix f)
                        (Frustrum_GetProjectionMatrix f) farPlane |}.

Definition Frustrum_CheckSphere (center : Vector3.t) (radius : Q)
  (f : Frustrum) : FrustrumSpace :=
  check_sphere (Frustrum_planes f) center radius.

(** *** The calls the renderer makes, in the order it makes them *)

Inductive Method : Type :=
| M_AcquirePrerequisites
| M_DirectionalLightDepthPass
| M_GBufferPass
| M_DeferredPass
| M_PostProcessing
| M_Gizmos.

Inductive Signal : Type := SIGNAL_RENDER_START | SIGNAL_RENDER_END.

Inductive PostProcessShader : Type := FXAA | SHARPENING.

Inductive Event : Type :=
(** entry into one of the renderer's own member functions *)
| Call (m : Method)
| EMIT_SIGNAL (s : Signal)
(** [m_graphics] *)
| Graphics_Clear (color : Vector4.t)
| Graphics_Present
| Graphics_EnableZBuffer (enable : bool)
| Graphics_SetCullMode (mode : CullMode)
| Graphics_SetViewport (w h : Z)
| Graphics_ResetRenderTarget
| Graphics_ResetViewport
(** the directional light and the depth shader *)
| Light_SetShadowMapAsRenderTarget (cascadeIndex : nat)
| DepthShader_Render (indexCount : nat) (mWorld mView mProjection : Matrix)
(** the G-buffer *)
| GBuffer_SetRenderTargets (target : nat)
| GBuffer_Clear (target : nat) (color : Vector4.t)
(** shaders, mesh filters and mesh renderers of the geometry pass *)
| ShaderVariation_Set (shader : nat)
| ShaderVariation_SetResources (shader : nat)
    (textures : list (option ShaderResourceView))
| ShaderVariation_SetBuffers (shader : nat) (mWorld mView mProjection : Matrix)
    (material : nat) (receiveShadows : bool)
| MeshFilter_SetBuffers_call
| MeshRenderer_Render (indexCount : nat)
(** the full-screen quad, the render textures and the other shaders *)
| FullScreenQuad_SetBuffers (target : nat)
| RenderTexture_SetAsRenderTarget (target : nat)
| RenderTexture_Clear (target : nat) (color : Vector4.t)
| DeferredShader_Render (textures : list (option ShaderResourceView))
    (environment : option ShaderResourceView)
| PostProcessShader_Render (shader : PostProcessShader)
    (texture : option ShaderResourceView)
| LineRenderer_AddLineList (lines : nat)
| LineRenderer_SetBuffer
| DebugShader_Render (vertexCount : nat)
(** the frustrum *)
| Frustrum_ConstructFrustum_call (farPlane : Q).

(** *** The renderer's members

    The record is a renderer after [Initialize]: the pointers [Initialize]
    assigns are values.  After the members come three things outside the
    object that its methods write: the global resolution setting (read by
    [RESOLUTION_WIDTH] and [RESOLUTION_HEIGHT], written by [SET_RESOLUTION]),
    the number of render targets made so far, and the log of calls. *)

Record t : Type := mk {
  m_GBuffer : Target;
  m_fullScreenQuad : Target;
  m_renderTexPing : Target;
  m_renderTexPong : Target;
  m_renderedMeshesCount : Z;
  m_meshesRendered : Z;
  m_frustrum : Frustrum;
  m_camera : option Camera;
  m_skybox : option Skybox;
  m_lineRenderer : option LineRenderer;
  m_directionalLight : option Light;
  m_renderables : list GameObject;
  m_lightsDirectional : list GameObject;
  m_lightsPoint : list GameObject;
  mProjection : Matrix;
  mOrthographicProjection : Matrix;
  mView : Matrix;
  mBaseView : Matrix;
  m_nearPlane : Q;
  m_farPlane : Q;
  m_textures : list (option ShaderResourceView);
  m_texArrayDeferredPass : list (option ShaderResourceView);
  m_texEnvironment : option ShaderResourceView;
  RESOLUTION : Z * Z;
  created : nat;
  log : list Event
}.

(** Assignments to one member. *)

Definition set_m_GBuffer (v : Target) (r : t) : t :=
  mk v (m_fullScreenQuad r) (m_renderTexPing r) (m_renderTexPong r)
    (m_renderedMeshesCount r) (m_meshesRendered r) (m_frustrum r) (m_camera r)
    (m_skybox r) (m_lineRenderer r) (m_directionalLight r) (m_renderables r)
    (m_lightsDirectional r) (m_lightsPoint r) (mProjection r)
    (mOrthographicProjection r) (mView r) (mBaseView r) (m_nearPlane r)
    (m_farPlane r) (m_textures r) (m_texArrayDeferredPass r)
    (m_texEnvironment r) (RESOLUTION r) (created r) (log r).

Definition set_m_fullScreenQuad (v : Target) (r : t) : t :=
  mk (m_GBuffer r) v (m_renderTexPing r) (m_renderTexPong r)
    (m_renderedMeshesCount r) (m_meshesRendered r) (m_frustrum r) (m_camera r)
    (m_skybox r) (m_lineRenderer r) (m_directionalLight r) (m_renderables r)
    (m_lightsDirectional r) (m_lightsPoint r) (mProjection r)
    (mOrthographicProjection r) (mView r) (mBaseView r) (m_nearPlane r)
    (m_farPlane r) (m_textures r) (m_texArrayDeferredPass r)
    (m_texEnvironment r) (RESOLUTION r) (created r) (log r).

Definition set_m_renderTexPing (v : Target) (r : t) : t :=
  mk (m_GBuffer r) (m_fullScreenQuad r) v (m_renderTexPong r)
    (m_renderedMeshesCount r) (m_meshesRendered r) (m_frustrum r) (m_camera r)
    (m_skybox r) (m_lineRenderer r) (m_directionalLight r) (m_renderables r)
    (m_lightsDirectional r) (m_lightsPoint r) (mProjection r)
    (mOrthographicProjection r) (mView r) (mBaseView r) (m_nearPlane r)
    (m_farPlane r) (m_textures r) (m_texArrayDeferredPass r)
    (m_texEnvironment r) (RESOLUTION r) (created r) (log r).

Definition set_m_renderTexPong (v : Target) (r : t) : t :=
  mk (m_GBuffer r) (m_fullScreenQuad r) (m_renderTexPing r) v
    (m_renderedMeshesCount r) (m_meshesRendered r) (m_frustrum r) (m_camera r)
    (m_skybox r) (m_lineRenderer r) (m_directionalLight r) (m_renderables r)
    (m_lightsDirectional r) (m_lightsPoint r) (mProjection r)
    (mOrthographicProjection r) (mView r) (mBaseView r) (m_nearPlane r)
    (m_farPlane r) (m_textures r) (m_texArrayDeferredPass r)
    (m_texEnvironment r) (RESOLUTION r) (created r) (log r).

Definition set_m_renderedMeshesCount (v : Z) (r : t) : t :=
  mk (m_GBuffer r) (m_fullScreenQuad r) (m_renderTexPing r)
    (m_renderTexPong r) v (m_meshesRendered r) (m_frustrum r) (m_camera r)
    (m_skybox r) (m_lineRenderer r) (m_directionalLight r) (m_renderables r)
    (m_lightsDirectional r) (m_lightsPoint r) (mProjection r)
    (mOrthographicProjection r) (mView r) (mBaseView r) (m_nearPlane r)
    (m_farPlane r) (m_textures r) (m_texArrayDeferredPass r)
    (m_texEnvironment r) (RESOLUTION r) (created r) (log r).

Definition set_m_meshesRendered (v : Z) (r : t) : t :=
  mk (m_GBuffer r) (m_fullScreenQuad r) (m_renderTexPing r)
    (m_renderTexPong r) (m_renderedMeshesCount r) v (m_frustrum r)
    (m_camera r) (m_skybox r) (m_lineRenderer r) (m_directionalLight r)
    (m_renderables r) (m_lightsDirectional r) (m_lightsPoint r)
    (mProjection r) (mOrthographicProjection r) (mView r) (mBaseView r)
    (m_nearPlane r) (m_farPlane r) (m_textures r) (m_texArrayDeferredPass r)
    (m_texEnvironment r) (RESOLUTION r) (created r) (log r).

Definition set_m_frustrum (v : Frustrum) (r : t) : t :=
  mk (m_GBuffer r) (m_fullScreenQuad r) (m_renderTexPing r)
    (m_renderTexPong r) (m_renderedMeshesCount r) (m_meshesRendered r) v
    (m_camera r) (m_skybox r) (m_lineRenderer r) (m_directionalLight r)
    (m_renderables r) (m_lightsDirectional r) (m_lightsPoint r)
    (mProjection r) (mOrthographicProjection r) (mView r) (mBaseView r)
    (m_nearPlane r) (m_farPlane r) (m_textures r) (m_texArrayDeferredPass r)
    (m_texEnvironment r) (RESOLUTION r) (created r) (log r).

Definition set_m_camera (v : option Camera) (r : t) : t :=
  mk (m_GBuffer r) (m_fullScreenQuad r) (m_renderTexPing r)
    (m_renderTexPong r) (m_renderedMeshesCount r) (m_meshesRendered r)
    (m_frustrum r) v (m_skybox r) (m_lineRenderer r) (m_directionalLight r)
    (m_renderables r) (m_lightsDirectional r) (m_lightsPoint r)
    (mProjection r) (mOrthographicProjection r) (mView r) (mBaseView r)
    (m_nearPlane r) (m_farPlane r) (m_textures r) (m_texArrayDeferredPass r)
    (m_texEnvironment r) (RESOLUTION r) (created r) (log r).

Definition set_m_skybox (v : option Skybox) (r : t) : t :=
  mk (m_GBuffer r) (m_fullScreenQuad r) (m_renderTexPing r)
    (m_renderTexPong r) (m_renderedMeshesCount r) (m_meshesRendered r)
    (m_frustrum r) (m_camera r) v (m_lineRenderer r) (m_directionalLight r)
    (m_renderables r) (m_lightsDirectional r) (m_lightsPoint r)
    (mProjection r) (mOrthographicProjection r) (mView r) (mBaseView r)
    (m_nearPlane r) (m_farPlane r) (m_textures r) (m_texArrayDeferredPass r)
    (m_texEnvironment r) (RESOLUTION r) (created r) (log r).

Definition set_m_lineRenderer (v : option LineRenderer) (r : t) : t :=
  mk (m_GBuffer r) (m_fullScreenQuad r) (m_renderTexPing r)
    (m_renderTexPong r) (m_renderedMeshesCount r) (m_meshesRendered r)
    (m_frustrum r) (m_camera r) (m_skybox r) v (m_directionalLight r)
    (m_renderables r) (m_lightsDirectional r) (m_lightsPoint r)
    (mProjection r) (mOrthographicProjection r) (mView r) (mBaseView r)
    (m_nearPlane r) (m_farPlane r) (m_textures r) (m_texArrayDeferredPass r)
    (m_texEnvironment r) (RESOLUTION r) (created r) (log r).

Definition set_m_directionalLight (v : option Light) (r : t) : t :=
  mk (m_GBuffer r) (m_fullScreenQuad r) (m_renderTexPing r)
    (m_renderTexPong r) (m_renderedMeshesCount r) (m_meshesRendered r)
    (m_frustrum r) (m_camera r) (m_skybox r) (m_lineRenderer r) v
    (m_renderables r) (m_lightsDirectional r) (m_lightsPoint r)
    (mProjection r) (mOrthographicProjection r) (mView r) (mBaseView r)
    (m_nearPlane r) (m_farPlane r) (m_textures r) (m_texArrayDeferredPass r)
    (m_texEnvironment r) (RESOLUTION r) (created r) (log r).

Definition set_m_renderables (v : list GameObject) (r : t) : t :=
  mk (m_GBuffer r) (m_fullScreenQuad r) (m_renderTexPing r)
    (m_renderTexPong r) (m_renderedMeshesCount r) (m_meshesRendered r)
    (m_frustrum r) (m_camera r) (m_skybox r) (m_lineRenderer r)
    (m_directionalLight r) v (m_lightsDirectional r) (m_lightsPoint r)
    (mProjection r) (mOrthographicProjection r) (mView r) (mBaseView r)
    (m_nearPlane r) (m_farPlane r) (m_textures r) (m_texArrayDeferredPass r)
    (m_texEnvironment r) (RESOLUTION r) (created r) (log r).

Definition set_m_lightsDirectional (v : list GameObject) (r : t) : t :=
  mk (m_GBuffer r) (m_fullScreenQuad r) (m_renderTexPing r)
    (m_renderTexPong r) (m_renderedMeshesCount r) (m_meshesRendered r)
    (m_frustrum r) (m_camera r) (m_skybox r) (m_lineRenderer r)
    (m_directionalLight r) (m_renderables r) v (m_lightsPoint r)
    (mProjection r) (mOrthographicProjection r) (mView r) (mBaseView r)
    (m_nearPlane r) (m_farPlane r) (m_textures r) (m_texArrayDeferredPass r)
    (m_texEnvironment r) (RESOLUTION r) (created r) (log r).

Definition set_m_lightsPoint (v : list GameObject) (r : t) : t :=
  mk (m_GBuffer r) (m_fullScreenQuad r) (m_renderTexPing r)
    (m_renderTexPong r) (m_renderedMeshesCount r) (m_meshesRendered r)
    (m_frustrum r) (m_camera r) (m_skybox r) (m_lineRenderer r)
    (m_directionalLight r) (m_renderables r) (m_lightsDirectional r) v
    (mProjection r) (mOrthographicProjection r) (mView r) (mBaseView r)
    (m_nearPlane r) (m_farPlane r) (m_textures r) (m_texArrayDeferredPass r)
    (m_texEnvironment r) (RESOLUTION r) (created r) (log r).

Definition set_mProjection (v : Matrix) (r : t) : t :=
  mk (m_GBuffer r) (m_fullScreenQuad r) (m_renderTexPing r)
    (m_renderTexPong r) (m_renderedMeshesCount r) (m_meshesRendered r)
    (m_frustrum r) (m_camera r) (m_skybox r) (m_lineRenderer r)
    (m_directionalLight r) (m_renderables r) (m_lightsDirectional r)
    (m_lightsPoint r) v (mOrthographicProjection r) (mView r) (mBaseView r)
    (m_nearPlane r) (m_farPlane r) (m_textures r) (m_texArrayDeferredPass r)
    (m_texEnvironment r) (RESOLUTION r) (created r) (log r).

Definition set_mOrthographicProjection (v : Matrix) (r : t) : t :=
  mk (m_GBuffer r) (m_fullScreenQuad r) (m_renderTexPing r)
    (m_renderTexPong r) (m_renderedMeshesCount r) (m_meshesRendered r)
    (m_frustrum r) (m_camera r) (m_skybox r) (m_lineRenderer r)
    (m_directionalLight r) (m_renderables r) (m_lightsDirectional r)
    (m_lightsPoint r) (mProjection r) v (mView r) (mBaseView r)
    (m_nearPlane r) (m_farPlane r) (m_textures r) (m_texArrayDeferredPass r)
    (m_texEnvironment r) (RESOLUTION r) (created r) (log r).

Definition set_mView (v : Matrix) (r : t) : t :=
  mk (m_GBuffer r) (m_fullScreenQuad r) (m_renderTexPing r)
    (m_renderTexPong r) (m_renderedMeshesCount r) (m_meshesRendered r)
    (m_frustrum r) (m_camera r) (m_skybox r) (m_lineRenderer r)
    (m_directionalLight r) (m_renderables r) (m_lightsDirectional r)
    (m_lightsPoint r) (mProjection r) (mOrthographicProjection r) v
    (mBaseView r) (m_nearPlane r) (m_farPlane r) (m_textures r)
    (m_texArrayDeferredPass r) (m_texEnvironment r) (RESOLUTION r) (created r)
    (log r).

Definition set_mBaseView (v : Matrix) (r : t) : t :=
  mk (m_GBuffer r) (m_fullScreenQuad r) (m_renderTexPing r)
    (m_renderTexPong r) (m_renderedMeshesCount r) (m_meshesRendered r)
    (m_frustrum r) (m_camera r) (m_skybox r) (m_lineRenderer r)
    (m_directionalLight r) (m_renderables r) (m_lightsDirectional r)
    (m_lightsPoint r) (mProjection r) (mOrthographicProjection r) (mView r) v
    (m_nearPlane r) (m_farPlane r) (m_textures r) (m_texArrayDeferredPass r)
    (m_texEnvironment r) (RESOLUTION r) (created r) (log r).

Definition set_m_nearPlane (v : Q) (r : t) : t :=
  mk (m_GBuffer r) (m_fullScreenQuad r) (m_renderTexPing r)
    (m_renderTexPong r) (m_renderedMeshesCount r) (m_meshesRendered r)
    (m_frustrum r) (m_camera r) (m_skybox r) (m_lineRenderer r)
    (m_directionalLight r) (m_renderables r) (m_lightsDirectional r)
    (m_lightsPoint r) (mProjection r) (mOrthographicProjection r) (mView r)
    (mBaseView r) v (m_farPlane r) (m_textures r) (m_texArrayDeferredPass r)
    (m_texEnvironment r) (RESOLUTION r) (created r) (log r).

Definition set_m_farPlane (v : Q) (r : t) : t :=
  mk (m_GBuffer r) (m_fullScreenQuad r) (m_renderTexPing r)
    (m_renderTexPong r) (m_renderedMeshesCount r) (m_meshesRendered r)
    (m_frustrum r) (m_camera r) (m_skybox r) (m_lineRenderer r)
    (m_directionalLight r) (m_renderables r) (m_lightsDirectional r)
    (m_lightsPoint r) (mProjection r) (mOrthographicProjection r) (mView r)
    (mBaseView r) (m_nearPlane r) v (m_textures r) (m_texArrayDeferredPass r)
    (m_texEnvironment r) (RESOLUTION r) (created r) (log r).

Definition set_m_textures (v : list (option ShaderResourceView)) (r : t) : t :=
  mk (m_GBuffer r) (m_fullScreenQuad r) (m_renderTexPing r)
    (m_renderTexPong r) (m_renderedMeshesCount r) (m_meshesRendered r)
    (m_frustrum r) (m_camera r) (m_skybox r) (m_lineRenderer r)
    (m_directionalLight r) (m_renderables r) (m_lightsDirectional r)
    (m_lightsPoint r) (mProjection r) (mOrthographicProjection r) (mView r)
    (mBaseView r) (m_nearPlane r) (m_farPlane r) v (m_texArrayDeferredPass r)
    (m_texEnvironment r) (RESOLUTION r) (created r) (log r).

Definition set_m_texArrayDeferredPass (v : list (option ShaderResourceView)) (r : t) : t :=
  mk (m_GBuffer r) (m_fullScreenQuad r) (m_renderTexPing r)
    (m_renderTexPong r) (m_renderedMeshesCount r) (m_meshesRendered r)
    (m_frustrum r) (m_camera r) (m_skybox r) (m_lineRenderer r)
    (m_directionalLight r) (m_renderables r) (m_lightsDirectional r)
    (m_lightsPoint r) (mProjection r) (mOrthographicProjection r) (mView r)
    (mBaseView r) (m_nearPlane r) (m_farPlane r) (m_textures r) v
    (m_texEnvironment r) (RESOLUTION r) (created r) (log r).

Definition set_m_texEnvironment (v : option ShaderResourceView) (r : t) : t :=
  mk (m_GBuffer r) (m_fullScreenQuad r) (m_renderTexPing r)
    (m_renderTexPong r) (m_renderedMeshesCount r) (m_meshesRendered r)
    (m_frustrum r) (m_camera r) (m_skybox r) (m_lineRenderer r)
    (m_directionalLight r) (m_renderables r) (m_lightsDirectional r)
    (m_lightsPoint r) (mProjection r) (mOrthographicProjection r) (mView r)
    (mBaseView r) (m_nearPlane r) (m_farPlane r) (m_textures r)
    (m_texArrayDeferredPass r) v (RESOLUTION r) (created r) (log r).

Definition set_RESOLUTION (v : Z * Z) (r : t) : t :=
  mk (m_GBuffer r) (m_fullScreenQuad r) (m_renderTexPing r)
    (m_renderTexPong r) (m_renderedMeshesCount r) (m_meshesRendered r)
    (m_frustrum r) (m_camera r) (m_skybox r) (m_lineRenderer r)
    (m_directionalLight r) (m_renderables r) (m_lightsDirectional r)
    (m_lightsPoint r) (mProjection r) (mOrthographicProjection r) (mView r)
    (mBaseView r) (m_nearPlane r) (m_farPlane r) (m_textures r)
    (m_texArrayDeferredPass r) (m_texEnvironment r) v (created r) (log r).

Definition set_created (v : nat) (r : t) : t :=
  mk (m_GBuffer r) (m_fullScreenQuad r) (m_renderTexPing r)
    (m_renderTexPong r) (m_renderedMeshesCount r) (m_meshesRendered r)
    (m_frustrum r) (m_camera r) (m_skybox r) (m_lineRenderer r)
    (m_directionalLight r) (m_renderables r) (m_lightsDirectional r)
    (m_lightsPoint r) (mProjection r) (mOrthographicProjection r) (mView r)
    (mBaseView r) (m_nearPlane r) (m_farPlane r) (m_textures r)
    (m_texArrayDeferredPass r) (m_texEnvironment r) (RESOLUTION r) v (log r).

Definition set_log (v : list Event) (r : t) : t :=
  mk (m_GBuffer r) (m_fullScreenQuad r) (m_renderTexPing r)
    (m_renderTexPong r) (m_renderedMeshesCount r) (m_meshesRendered r)
    (m_frustrum r) (m_camera r) (m_skybox r) (m_lineRenderer r)
    (m_directionalLight r) (m_renderables r) (m_lightsDirectional r)
    (m_lightsPoint r) (mProjection r) (mOrthographicProjection r) (mView r)
    (mBaseView r) (m_nearPlane r) (m_farPlane r) (m_textures r)
    (m_texArrayDeferredPass r) (m_texEnvironment r) (RESOLUTION r) (created r)
    v.

Definition emit (e : Event) (r : t) : t := set_log (log r ++ [e]) r.

(** *** Statistics *)

(** [Renderer::StartCalculatingStats] *)
Definition StartCalculatingStats (r : t) : t := set_m_meshesRendered 0%Z r.

(** [Renderer::StopCalculatingStats] *)
Definition StopCalculatingStats (r : t) : t :=
  set_m_renderedMeshesCount (m_meshesRendered r) r.

(** [Renderer::GetRenderedMeshesCount] *)
Definition GetRenderedMeshesCount (r : t) : Z := m_renderedMeshesCount r.

(** *** The lists of the frame *)

(** [Renderer::Clear] *)
Definition Clear (r : t) : t :=
  set_m_lightsPoint [] (set_m_lightsDirectional [] (set_m_renderables [] r)).

(** [Renderer::Update] *)
Definition Update (renderables lightsDirectional lightsPoint : list GameObject)
  (r : t) : t :=
  let r := Clear r in
  let r := set_m_renderables renderables r in
  let r := set_m_lightsDirectional lightsDirectional r in
  set_m_lightsPoint lightsPoint r.

(** [Renderer::GetRenderables] *)
Definition GetRenderables (r : t) : list GameObject := m_renderables r.

(** *** Resolution *)

Definition RESOLUTION_WIDTH (r : t) : Z := fst (RESOLUTION r).
Definition RESOLUTION_HEIGHT (r : t) : Z := snd (RESOLUTION r).

(** [new T] followed by [Initialize(RESOLUTION_WIDTH, RESOLUTION_HEIGHT)]:
    the new object and the renderer with one more object made. *)
Definition new_target (r : t) : Target * t :=
  ({| stamp := created r;
      width := RESOLUTION_WIDTH r;
      height := RESOLUTION_HEIGHT r |},
   set_created (S (created r)) r).

(** [Renderer::SetResolution] *)
Definition SetResolution (width height : Z) (r : t) : t :=
  if (width =? 0)%Z || (height =? 0)%Z then r
  else
    let r := set_RESOLUTION (width, height) r in
    let r := emit (Graphics_SetViewport width height) r in
    let (gbuffer, r) := new_target r in
    let r := set_m_GBuffer gbuffer r in
    let (quad, r) := new_target r in
    let r := set_m_fullScreenQuad quad r in
    let (ping, r) := new_target r in
    let r := set_m_renderTexPing ping r in
    let (pong, r) := new_target r in
    set_m_renderTexPong pong r.

(** *** The start of a frame *)

(** [Renderer::AcquirePrerequisites].  With a main camera object, the
    camera component is dereferenced without a test. *)
Definition AcquirePrerequisites (e : Engine) (r : t) : option t :=
  let r := emit (Call M_AcquirePrerequisites) r in
  match Scene_GetMainCamera e with
  | Some camera =>
      let r := set_m_camera (GameObject_Camera camera) r in
      let r :=
        match Scene_GetSkybox e with
        | Some skybox =>
            let r := set_m_skybox (GameObject_Skybox skybox) r in
            set_m_lineRenderer (GameObject_LineRenderer skybox) r
        | None => r
        end in
      let r :=
        match m_lightsDirectional r with
        | first :: _ => set_m_directionalLight (GameObject_Light first) r
        | [] => set_m_directionalLight None r
        end in
      m_camera <- m_camera r ;;
      let r := set_mProjection (Camera_GetProjectionMatrix m_camera) r in
      let r :=
        set_mOrthographicProjection
          (Camera_GetOrthographicProjectionMatrix m_camera) r in
      let r := set_mView (Camera_GetViewMatrix m_camera) r in
      let r := set_mBaseView (Camera_GetBaseViewMatrix m_camera) r in
      let r := set_m_nearPlane (Camera_GetNearPlane m_camera) r in
      Some (set_m_farPlane (Camera_GetFarPlane m_camera) r)
  | None =>
      let r := set_m_camera None r in
      let r := set_m_skybox None r in
      let r := set_m_lineRenderer None r in
      Some (set_m_directionalLight None r)
  end.

(** *** Culling *)

(** The radius [IsInViewFrustrum] computes from the extent. *)
Definition bounding_radius (extent : Vector3.t) : Q :=
  let radius :=
    Float.max (Float.abs (Vector3.x extent)) (Float.abs (Vector3.y extent)) in
  Float.max radius (Float.abs (Vector3.z extent)).

(** The condition of the first [if] of [IsInViewFrustrum]. *)
Definition frustrum_is_stale (r : t) : bool :=
  Matrix_neqb (Frustrum_GetProjectionMatrix (m_frustrum r)) (mProjection r)
  || Matrix_neqb (Frustrum_GetViewMatrix (m_frustrum r)) (mView r).

(** [Renderer::IsInViewFrustrum]: the result and the renderer after the
    call. *)
Definition IsInViewFrustrum (center extent : Vector3.t) (r : t) : bool * t :=
  let r :=
    if frustrum_is_stale r
    then
      let f := Frustrum_SetProjectionMatrix (mProjection r) (m_frustrum r) in
      let f := Frustrum_SetViewMatrix (mView r) f in
      let f := Frustrum_ConstructFrustum (m_farPlane r) f in
      emit (Frustrum_ConstructFrustum_call (m_farPlane r)) (set_m_frustrum f r)
    else r in
  let radius := bounding_radius extent in
  match Frustrum_CheckSphere center radius (m_frustrum r) with
  | Outside => (false, r)
  | _ => (true, r)
  end.

(** *** The shadow-depth pass *)

(** The body of the inner loop of [DirectionalLightDepthPass]. *)
Definition depth_object (light : Light) (cascadeIndex : nat)
  (gameObject : GameObject) (r : t) : option t :=
  let meshRenderer := GameObject_MeshRenderer gameObject in
  meshFilter <- GameObject_MeshFilter gameObject ;;
  match MeshFilter_GetMesh meshFilter with
  | None => Some r
  | Some mesh =>
      match GameObject_Skybox gameObject with
      | Some _ => Some r
      | None =>
          meshRenderer <- meshRenderer ;;
          if negb (MeshRenderer_GetCastShadows meshRenderer) then Some r
          else
            let r := emit MeshFilter_SetBuffers_call r in
            if MeshFilter_SetBuffers meshFilter
            then
              Some (emit (DepthShader_Render
                            (Mesh_GetIndexCount mesh)
                            (GameObject_GetWorldTransform gameObject)
                            (Light_GetViewMatrix light)
                            (Light_GetOrthographicProjectionMatrix
                               light cascadeIndex)) r)
            else Some r
      end
  end.

(** The body of the outer loop. *)
Definition depth_cascade (light : Light) (cascadeIndex : nat) (r : t)
  : option t :=
  let r := emit (Light_SetShadowMapAsRenderTarget cascadeIndex) r in
  for_each (depth_object light cascadeIndex) (m_renderables r) r.

(** [Renderer::DirectionalLightDepthPass] *)
Definition DirectionalLightDepthPass (r : t) : option t :=
  let r := emit (Call M_DirectionalLightDepthPass) r in
  let r := emit (Graphics_SetCullMode CullFront) r in
  light <- m_directionalLight r ;;
  for_each (depth_cascade light) (seq 0 (Light_GetCascadeCount light)) r.

(** *** The geometry pass *)

(** The body of the loop of [GBufferPass] over the renderables.  The mesh
    filter and the mesh renderer are dereferenced before the test that
    skips incomplete objects. *)
Definition gbuffer_object (currentShader : ShaderVariation)
  (currentMaterial : Material) (gameObject : GameObject) (r : t)
  : option t :=
  meshFilter <- GameObject_MeshFilter gameObject ;;
  let mesh := MeshFilter_GetMesh meshFilter in
  meshRenderer <- GameObject_MeshRenderer gameObject ;;
  let material := MeshRenderer_GetMaterial meshRenderer in
  let mWorld := GameObject_GetWorldTransform gameObject in
  match mesh, material with
  | Some mesh, Some material =>
      if negb (Material_GetID currentMaterial =? Material_GetID material)
      then Some r
      else if Float.ltb (Material_GetOpacity material) 1 then Some r
      else
        let (visible, r) :=
          IsInViewFrustrum (MeshFilter_GetCenter meshFilter)
                           (MeshFilter_GetBoundingBox meshFilter) r in
        if negb visible then Some r
        else
          let r :=
            emit (ShaderVariation_SetBuffers
                    (ShaderVariation_GetID currentShader)
                    mWorld (mView r) (mProjection r)
                    (Material_GetID currentMaterial)
                    (MeshRenderer_GetReceiveShadows meshRenderer)) r in
          let r := emit MeshFilter_SetBuffers_call r in
          if MeshFilter_SetBuffers meshFilter
          then
            let r :=
              emit (Graphics_SetCullMode (Material_GetFaceCullMode material))
                   r in
            let r := emit (MeshRenderer_Render (Mesh_GetIndexCount mesh)) r in
            Some (set_m_meshesRendered (m_meshesRendered r + 1)%Z r)
          else Some r
  | _, _ => Some r
  end.

(** The textures [GBufferPass] pushes for one material. *)
Definition material_textures (currentMaterial : Material) (r : t)
  : list (option ShaderResourceView) :=
  map (Material_GetShaderResourceViewByTextureType currentMaterial)
      [Albedo; Roughness; Metallic; Occlusion; Normal; Height; Mask]
  ++ match m_directionalLight r with
     | Some light =>
         map (Light_GetDepthMap light) (seq 0 (Light_GetCascadeCount light))
     | None => [None]
     end.

(** The body of the loop over the materials. *)
Definition gbuffer_material (currentShader : ShaderVariation)
  (currentMaterial : Material) (r : t) : option t :=
  if negb (ShaderVariation_GetID (Material_GetShader currentMaterial)
           =? ShaderVariation_GetID currentShader)
  then Some r
  else
    let r :=
      set_m_textures (m_textures r ++ material_textures currentMaterial r) r in
    let r :=
      emit (ShaderVariation_SetResources
              (ShaderVariation_GetID currentShader) (m_textures r)) r in
    r <- for_each (gbuffer_object currentShader currentMaterial)
                  (m_renderables r) r ;;
    Some (set_m_textures [] r).

(** The body of the loop over the shaders. *)
Definition gbuffer_shader (e : Engine) (currentShader : ShaderVariation)
  (r : t) : option t :=
  let r := emit (ShaderVariation_Set (ShaderVariation_GetID currentShader)) r in
  for_each (gbuffer_material currentShader) (MaterialPool_GetAllMaterials e) r.

(** [Renderer::GBufferPass] *)
Definition GBufferPass (e : Engine) (r : t) : option t :=
  let r := emit (Call M_GBufferPass) r in
  for_each (gbuffer_shader e) (ShaderPool_GetAllShaders e) r.

(** *** The lighting pass, post-processing and gizmos *)

Definition black : Vector4.t := Vector4.mk 0 0 0 1.

(** [Renderer::Ping] *)
Definition Ping (r : t) : t :=
  let clearColor :=
    match m_camera r with
    | Some camera => Camera_GetClearColor camera
    | None => black
    end in
  let r := emit (RenderTexture_SetAsRenderTarget (stamp (m_renderTexPing r))) r in
  emit (RenderTexture_Clear (stamp (m_renderTexPing r)) clearColor) r.

(** [Renderer::Pong] *)
Definition Pong (r : t) : t :=
  let clearColor :=
    match m_camera r with
    | Some camera => Camera_GetClearColor camera
    | None => black
    end in
  let r := emit (RenderTexture_SetAsRenderTarget (stamp (m_renderTexPong r))) r in
  emit (RenderTexture_Clear (stamp (m_renderTexPong r)) clearColor) r.

(** [Renderer::DeferredPass] *)
Definition DeferredPass (e : Engine) (r : t) : t :=
  let r := emit (Call M_DeferredPass) r in
  if negb (DeferredShader_IsCompiled e) then r
  else
    let r := Ping r in
    let r := set_m_texArrayDeferredPass [] r in
    let push v r :=
      set_m_texArrayDeferredPass (m_texArrayDeferredPass r ++ [v]) r in
    let r := push (Some (SRV_GBuffer (stamp (m_GBuffer r)) 0)) r in
    let r := push (Some (SRV_GBuffer (stamp (m_GBuffer r)) 1)) r in
    let r := push (Some (SRV_GBuffer (stamp (m_GBuffer r)) 2)) r in
    let r := push (Some (SRV_GBuffer (stamp (m_GBuffer r)) 3)) r in
    let r := push (Some SRV_NoiseMap) r in
    let r :=
      match m_skybox r with
      | Some skybox =>
          set_m_texEnvironment (Skybox_GetEnvironmentTexture skybox) r
      | None => set_m_texEnvironment None r
      end in
    emit (DeferredShader_Render (m_texArrayDeferredPass r)
                                (m_texEnvironment r)) r.

(** [Renderer::PostProcessing] *)
Definition PostProcessing (r : t) : option t :=
  let r := emit (Call M_PostProcessing) r in
  let r := Pong r in
  let r :=
    emit (PostProcessShader_Render FXAA
            (Some (SRV_RenderTexture (stamp (m_renderTexPing r))))) r in
  let r := emit Graphics_ResetRenderTarget r in
  let r := emit Graphics_ResetViewport r in
  camera <- m_camera r ;;
  let r := emit (Graphics_Clear (Camera_GetClearColor camera)) r in
  Some (emit (PostProcessShader_Render SHARPENING
                (Some (SRV_RenderTexture (stamp (m_renderTexPong r))))) r).

(** [Renderer::Gizmos] *)
Definition Gizmos (e : Engine) (r : t) : option t :=
  let r := emit (Call M_Gizmos) r in
  match m_lineRenderer r with
  | None => Some r
  | Some lineRenderer =>
      if negb (PhysicsDebugDraw_IsDirty e) then Some r
      else
        let r := emit (LineRenderer_AddLineList (PhysicsDebugDraw_GetLines e)) r in
        let r := emit LineRenderer_SetBuffer r in
        camera <- m_camera r ;;
        Some (emit (DebugShader_Render
                      (LineRenderer_GetVertexCount lineRenderer)) r)
  end.

(** *** One frame *)

(** [Renderer::Render] *)
Definition Render (e : Engine) (r : t) : option t :=
  let r := emit (EMIT_SIGNAL SIGNAL_RENDER_START) r in
  let r := StartCalculatingStats r in
  r <- AcquirePrerequisites e r ;;
  match m_camera r with
  | None =>
      let r := emit (Graphics_Clear black) r in
      Some (emit Graphics_Present r)
  | Some camera =>
      match m_renderables r with
      | [] =>
          let r := emit (Graphics_Clear (Camera_GetClearColor camera)) r in
          Some (emit Graphics_Present r)
      | _ :: _ =>
          let r := emit (Graphics_EnableZBuffer true) r in
          r <- match m_directionalLight r with
               | Some light =>
                   if negb (ShadowType_eqb (Light_GetShadowType light)
                                           No_Shadows)
                   then DirectionalLightDepthPass r
                   else Some r
               | None => Some r
               end ;;
          let r := emit (GBuffer_SetRenderTargets (stamp (m_GBuffer r))) r in
          let r :=
            emit (GBuffer_Clear (stamp (m_GBuffer r))
                                (Camera_GetClearColor camera)) r in
          r <- GBufferPass e r ;;
          let r := emit (Graphics_EnableZBuffer false) r in
          let r :=
            emit (FullScreenQuad_SetBuffers (stamp (m_fullScreenQuad r))) r in
          let r := DeferredPass e r in
          r <- PostProcessing r ;;
          r <- (if EngineMode_eqb (GET_ENGINE_MODE e) Editor_Idle
                then Gizmos e r
                else Some r) ;;
          let r := emit Graphics_Present r in
          let r := StopCalculatingStats r in
          Some (emit (EMIT_SIGNAL SIGNAL_RENDER_END) r)
      end
  end.

(** *** Reading a log *)

(** The steps of a frame a log shows: the entries into the renderer's own
    passes and the presentation of the frame. *)
Inductive Step : Type :=
| StepAcquirePrerequisites
| StepShadowDepthPass
| StepGeometryPass
| StepDeferredLightingPass
| StepPostProcessPass
| StepDebugPass
| StepPresent.

Definition step_of (ev : Event) : list Step :=
  match ev with
  | Call M_AcquirePrerequisites => [StepAcquirePrerequisites]
  | Call M_DirectionalLightDepthPass => [StepShadowDepthPass]
  | Call M_GBufferPass => [StepGeometryPass]
  | Call M_DeferredPass => [StepDeferredLightingPass]
  | Call M_PostProcessing => [StepPostProcessPass]
  | Call M_Gizmos => [StepDebugPass]
  | Graphics_Present => [StepPresent]
  | _ => []
  end.

Definition steps (evs : list Event) : list Step := flat_map step_of evs.

(** The draws a log shows. *)
Definition is_draw (ev : Event) : bool :=
  match ev with
  | DepthShader_Render _ _ _ _ => true
  | MeshRenderer_Render _ => true
  | _ => false
  end.

Definition draws (evs : list Event) : list Event := filter is_draw evs.

(** The components an object needs for the passes to look at it without a
    fault. *)
Definition has_render_components (gameObject : GameObject) : bool :=
  match GameObject_MeshFilter gameObject, GameObject_MeshRenderer gameObject
  with
  | Some _, Some _ => true
  | _, _ => false
  end.

(** [logged ss r r']: from [r] to [r'] the camera and the renderables of the
    frame stay as they are, and the log grows by events that show the steps
    [ss]. *)
Definition logged (ss : list Step) (r r' : t) : Prop :=
  m_camera r' = m_camera r
  /\ m_renderables r' = m_renderables r
  /\ exists evs, log r' = log r ++ evs /\ steps evs = ss.

(** Every renderable of the frame has the components the passes
    dereference. *)
Definition ready (r : t) : Prop :=
  Forall (fun gameObject => has_render_components gameObject = true)
         (m_renderables r).

(** The main camera object, if there is one, has a Camera component. *)
Definition main_camera_has_component (e : Engine) : bool :=
  match Scene_GetMainCamera e with
  | Some cameraObject =>
      match GameObject_Camera cameraObject with
      | Some _ => true
      | None => false
      end
  | None => true
  end.

(** The directional light a frame acquires. *)
Definition acquired_light (r : t) : option Light :=
  match m_lightsDirectional r with
  | first :: _ => GameObject_Light first
  | [] => None
  end.

(** *** Counting in a log *)

Definition count_events (p : Event -> bool) (evs : list Event) : nat :=
  length (filter p evs).

Definition is_mesh_draw (ev : Event) : bool :=
  match ev with
  | MeshRenderer_Render _ => true
  | _ => false
  end.

Definition is_depth_draw (ev : Event) : bool :=
  match ev with
  | DepthShader_Render _ _ _ _ => true
  | _ => false
  end.

(** The textures of the [SetResources] calls of a log. *)
Definition resources_of (ev : Event)
  : list (list (option ShaderResourceView)) :=
  match ev with
  | ShaderVariation_SetResources _ textures => [textures]
  | _ => []
  end.

Definition resources (evs : list Event)
  : list (list (option ShaderResourceView)) :=
  flat_map resources_of evs.

(** The objects the shadow-depth pass draws: those it does not pass over and
    whose mesh filter sets its buffers. *)
Definition casts_shadow (gameObject : GameObject) : bool :=
  match GameObject_MeshFilter gameObject with
  | None => false
  | Some meshFilter =>
      match MeshFilter_GetMesh meshFilter, GameObject_Skybox gameObject,
            GameObject_MeshRenderer gameObject with
      | Some _, None, Some meshRenderer =>
          MeshRenderer_GetCastShadows meshRenderer
          && MeshFilter_SetBuffers meshFilter
      | _, _, _ => false
      end
  end.

(** The number of texture slots the geometry pass fills for a material:
    seven textures of the material, then the depth maps of the cascades, or
    one null slot without a directional light. *)
Definition texture_slots (r : t) : nat :=
  7 + match m_directionalLight r with
      | Some light => Light_GetCascadeCount light
      | None => 1
      end.

(** *** What a pass leaves alone

    [kept r r']: the render targets, the resolution, the lists of the frame,
    the pointers [AcquirePrerequisites] sets and the published count are in
    [r'] as in [r]. *)
Definition kept (r r' : t) : Prop :=
  m_GBuffer r' = m_GBuffer r
  /\ m_fullScreenQuad r' = m_fullScreenQuad r
  /\ m_renderTexPing r' = m_renderTexPing r
  /\ m_renderTexPong r' = m_renderTexPong r
  /\ RESOLUTION r' = RESOLUTION r
  /\ created r' = created r
  /\ m_renderables r' = m_renderables r
  /\ m_lightsDirectional r' = m_lightsDirectional r
  /\ m_lightsPoint r' = m_lightsPoint r
  /\ m_camera r' = m_camera r
  /\ m_directionalLight r' = m_directionalLight r
  /\ m_renderedMeshesCount r' = m_renderedMeshesCount r
  /\ m_skybox r' = m_skybox r
  /\ m_lineRenderer r' = m_lineRenderer r.

(** [counted P r r']: [kept], and the log grows by events of which as many
    are mesh draws as the running count of meshes grows, and whose
    [SetResources] calls all carry texture lists that satisfy [P r]. *)
Definition counted (P : t -> list (option ShaderResourceView) -> Prop)
  (r r' : t) : Prop :=
  kept r r'
  /\ exists evs,
       log r' = log r ++ evs
       /\ m_meshesRendered r'
          = (m_meshesRendered r + Z.of_nat (count_events is_mesh_draw evs))%Z
       /\ Forall (P r) (resources evs).

(** No condition on the texture lists, and none on the renderer. *)
Definition any_textures (r : t) (textures : list (option ShaderResourceView))
  : Prop := True.

Definition any_renderer (r : t) : Prop := True.

(** The texture list fills the slots of the frame. *)
Definition fills_slots (r : t) (textures : list (option ShaderResourceView))
  : Prop :=
  length textures = texture_slots r.

(** The four render targets have the size of the resolution setting, which
    has no zero in it. *)
Definition sized (r : t) (target : Target) : Prop :=
  width target = RESOLUTION_WIDTH r /\ height target = RESOLUTION_HEIGHT r.

Definition targets_fit (r : t) : Prop :=
  RESOLUTION_WIDTH r <> 0%Z /\ RESOLUTION_HEIGHT r <> 0%Z
  /\ sized r (m_GBuffer r) /\ sized r (m_fullScreenQuad r)
  /\ sized r (m_renderTexPing r) /\ sized r (m_renderTexPong r).

(** What the host does with a renderer between frames. *)
Inductive HostCall : Type :=
| CallSetResolution (width height : Z)
| CallUpdate (renderables lightsDirectional lightsPoint : list GameObject)
| CallRender (e : Engine).

Definition host_call (c : HostCall) (r : t) : option t :=
  match c with
  | CallSetResolution width height => Some (SetResolution width height r)
  | CallUpdate renderables lightsDirectional lightsPoint =>
      Some (Update renderables lightsDirectional lightsPoint r)
  | CallRender e => Render e r
  end.

Definition host_calls (cs : list HostCall) (r : t) : option t :=
  for_each host_call cs r.

End Objects.

End Renderer.

(** ** The pipeline state cache

    [RHI_PipelineState.h] declares the members and the setters; the bodies
    of the setters and of [Bind] are in a file that is not part of this
    development.  The categories below are the dirty flags of the header;
    the setters and [Bind] follow the specification. *)

Module RHI_PipelineState.

(** One constructor for each [m_..Dirty] member of the header, in the order
    in which [Bind] visits them. *)
Inductive Category : Type :=
| primitiveTopology
| inputLayout
| cullMode
| fillMode
| samplers
| textures
| indexBuffer
| vertexBuffer
| constantBuffer
| vertexShader
| pixelShader
| renderTargets
| viewport.

Definition Category_eq_dec (a b : Category) : {a = b} + {a <> b}.
Proof. decide equality. Defined.

(** What a category caches: a mode or a viewport as a code, a resource as a
    handle, a set of resources as the list of their handles.  A null pointer
    and an empty set are [[]]. *)
Definition Value : Type := list nat.

Definition Value_eq_dec (a b : Value) : {a = b} + {a <> b} :=
  list_eq_dec Nat.eq_dec a b.

(** The order of [Bind]: topology, input layout, rasterizer state, samplers,
    textures, buffers, constant buffers, shaders, render targets,
    viewport. *)
Definition bind_order : list Category :=
  [primitiveTopology; inputLayout; cullMode; fillMode; samplers; textures;
   indexBuffer; vertexBuffer; constantBuffer; vertexShader; pixelShader;
   renderTargets; viewport].

(** The setters the header declares with a [bool] result validate their
    argument; those it declares [void] take any value. *)
Definition validates (c : Category) : bool :=
  match c with
  | primitiveTopology | cullMode | fillMode | viewport => false
  | _ => true
  end.

(** The cached value and the dirty flag of every category, and the commits
    the device has received, oldest first. *)
Record t : Type := mk {
  cached : Category -> Value;
  dirty : Category -> bool;
  committed : list (Category * Value)
}.

Definition update {A : Type} (f : Category -> A) (c : Category) (a : A)
  : Category -> A :=
  fun c' => if Category_eq_dec c c' then a else f c'.

(** Modelled from the spec: the body of a setter, which the header only
    declares.  An argument that fails validation is rejected and the state
    is as before; a value identical to the cached one is a no-op; any other
    value is cached and dirties its category. *)
Definition Set_ (c : Category) (v : Value) (s : t) : bool * t :=
  if validates c && match v with [] => true | _ => false end
  then (false, s)
  else if Value_eq_dec (cached s c) v then (true, s)
  else (true, mk (update (cached s) c v) (update (dirty s) c true)
                 (committed s)).

(** The setters of the header. *)
Definition SetVertexShader := Set_ vertexShader.
Definition SetPixelShader := Set_ pixelShader.
Definition SetTexture := Set_ textures.
Definition SetRenderTargets := Set_ renderTargets.
Definition SetConstantBuffer := Set_ constantBuffer.
Definition SetIndexBuffer := Set_ indexBuffer.
Definition SetVertexBuffer := Set_ vertexBuffer.
Definition SetSampler := Set_ samplers.
Definition SetPrimitiveTopology := Set_ primitiveTopology.
Definition SetInputLayout := Set_ inputLayout.
Definition SetCullMode := Set_ cullMode.
Definition SetFillMode := Set_ fillMode.
Definition SetViewport := Set_ viewport.

(** Modelled from the spec: one step of [Bind], which the header only
    declares.  A dirty category is committed to the device; its flag is
    cleared when the device accepts the commit. *)
Definition bind_category (device : Category -> Value -> bool)
  (acc : bool * t) (c : Category) : bool * t :=
  let (ok, s) := acc in
  if dirty s c
  then
    let accepted := device c (cached s c) in
    (ok && accepted,
     mk (cached s)
        (if accepted then update (dirty s) c false else dirty s)
        (committed s ++ [(c, cached s c)]))
  else (ok, s).

(** Modelled from the spec: [Bind], which the header only declares.  It
    goes through the categories in the fixed order and fails if a commit
    fails. *)
Definition Bind (device : Category -> Value -> bool) (s : t) : bool * t :=
  fold_left (bind_category device) bind_order (true, s).

(** [n] calls in a row of the setter of [c] with the value [v]. *)
Fixpoint set_repeatedly (n : nat) (c : Category) (v : Value) (s : t) : t :=
  match n with
  | O => s
  | S n' => set_repeatedly n' c v (snd (Set_ c v s))
  end.

(** How often a category occurs in a list of commits. *)
Definition commits_of (c : Category) (l : list (Category * Value)) : nat :=
  length (filter (fun p => if Category_eq_dec c (fst p) then true else false)
                 l).

(** The commits a call of [Bind] sends. *)
Definition sent (device : Category -> Value -> bool) (s : t)
  : list (Category * Value) :=
  skipn (length (committed s)) (committed (snd (Bind device s))).

End RHI_PipelineState.

(** * World.cpp *)

Module World.

(** [Scene_State] *)
Inductive Scene_State : Type :=
| Scene_Idle | Scene_Ticking | Scene_Saving | Scene_Loading.

(** What the world reads of an [Actor]: its ID, whether
    [GetComponent<T>()] finds a camera, a skybox, a renderable or a light,
    and whether its transform is a root.  The functions below only read
    actors, so an actor stands for the pointer to it. *)
Record Actor : Type := {
  Actor_GetID : N;
  Actor_Camera : bool;
  Actor_Skybox : bool;
  Actor_Renderable : bool;
  Actor_Light : bool;
  Actor_IsRoot : bool
}.

(** The calls the world makes on its actors and the events it fires, in the
    order it makes them.  What the actors and the subscribers do in turn is
    not part of this file; the profiler's [TIME_BLOCK] macros are left
    out. *)
Inductive Event : Type :=
| EVENT_SCENE_RESOLVE_END (renderables : list Actor)
| EVENT_SCENE_UNLOAD
| Actor_Start (actor : Actor)
| Actor_Stop (actor : Actor)
| Actor_Tick (actor : Actor).

(** The members of [World].  A [weak_ptr<Actor>] is the actor it was taken
    from, or [None] when empty. *)
Record t : Type := mk {
  m_actors : list Actor;
  m_renderables : list Actor;
  m_mainCamera : option Actor;
  m_skybox : option Actor;
  m_ambientLight : Vector3.t;
  m_state : Scene_State;
  m_isDirty : bool;
  m_wasInEditorMode : bool;
  log : list Event
}.

Definition set_m_actors (v : list Actor) (w : t) : t :=
  mk v (m_renderables w) (m_mainCamera w) (m_skybox w) (m_ambientLight w)
    (m_state w) (m_isDirty w) (m_wasInEditorMode w) (log w).

Definition set_m_renderables (v : list Actor) (w : t) : t :=
  mk (m_actors w) v (m_mainCamera w) (m_skybox w) (m_ambientLight w)
    (m_state w) (m_isDirty w) (m_wasInEditorMode w) (log w).

Definition set_m_mainCamera (v : option Actor) (w : t) : t :=
  mk (m_actors w) (m_renderables w) v (m_skybox w) (m_ambientLight w)
    (m_state w) (m_isDirty w) (m_wasInEditorMode w) (log w).

Definition set_m_skybox (v : option Actor) (w : t) : t :=
  mk (m_actors w) (m_renderables w) (m_mainCamera w) v (m_ambientLight w)
    (m_state w) (m_isDirty w) (m_wasInEditorMode w) (log w).

Definition set_m_ambientLight (v : Vector3.t) (w : t) : t :=
  mk (m_actors w) (m_renderables w) (m_mainCamera w) (m_skybox w) v
    (m_state w) (m_isDirty w) (m_wasInEditorMode w) (log w).

Definition set_m_state (v : Scene_State) (w : t) : t :=
  mk (m_actors w) (m_renderables w) (m_mainCamera w) (m_skybox w)
    (m_ambientLight w) v (m_isDirty w) (m_wasInEditorMode w) (log w).

Definition set_m_isDirty (v : bool) (w : t) : t :=
  mk (m_actors w) (m_renderables w) (m_mainCamera w) (m_skybox w)
    (m_ambientLight w) (m_state w) v (m_wasInEditorMode w) (log w).

Definition set_m_wasInEditorMode (v : bool) (w : t) : t :=
  mk (m_actors w) (m_renderables w) (m_mainCamera w) (m_skybox w)
    (m_ambientLight w) (m_state w) (m_isDirty w) v (log w).

Definition set_log (v : list Event) (w : t) : t :=
  mk (m_actors w) (m_renderables w) (m_mainCamera w) (m_skybox w)
    (m_ambientLight w) (m_state w) (m_isDirty w) (m_wasInEditorMode w) v.

Definition emit (ev : Event) (w : t) : t := set_log (log w ++ [ev]) w.

(** A range-based [for] over the actors that calls each one. *)
Fixpoint call_each (call : Actor -> Event) (actors : list Actor) (w : t) : t :=
  match actors with
  | [] => w
  | actor :: rest => call_each call rest (emit (call actor) w)
  end.

(** ** Scene resolution *)

(** The body of the loop of [World::Resolve] for one actor. *)
Definition resolve_actor (actor : Actor) (w : t) : t :=
  let camera := Actor_Camera actor in
  let skybox := Actor_Skybox actor in
  let renderable := Actor_Renderable actor in
  let light := Actor_Light actor in
  let w := if camera then set_m_mainCamera (Some actor) w else w in
  let w := if skybox then set_m_skybox (Some actor) w else w in
  if camera || skybox || renderable || light
  then set_m_renderables (m_renderables w ++ [actor]) w
  else w.

Fixpoint resolve_loop (actors : list Actor) (w : t) : t :=
  match actors with
  | [] => w
  | actor :: rest => resolve_loop rest (resolve_actor actor w)
  end.

(** [World::Resolve] *)
Definition Resolve (w : t) : t :=
  let w := set_m_renderables [] w in
  let w := resolve_loop (m_actors w) w in
  emit (EVENT_SCENE_RESOLVE_END (m_renderables w)) w.

(** ** The tick *)

(** [World::Tick]; [game] is [Engine::EngineMode_IsSet(Engine_Game)]. *)
Definition Tick (game : bool) (w : t) : t :=
  match m_state w with
  | Scene_Idle =>
      let w := set_m_state Scene_Ticking w in
      let w :=
        if m_isDirty w then set_m_isDirty false (Resolve w) else w in
      let started := game && m_wasInEditorMode w in
      let stopped := negb game && negb (m_wasInEditorMode w) in
      let w := set_m_wasInEditorMode (negb game) w in
      let w := if started then call_each Actor_Start (m_actors w) w else w in
      let w := if stopped then call_each Actor_Stop (m_actors w) w else w in
      let w := call_each Actor_Tick (m_actors w) w in
      set_m_state Scene_Idle w
  | _ => w
  end.

(** [World::Unload].  [m_actors] holds the [shared_ptr]s that own the actors
    and [m_actors.clear()] destroys them, so the weak pointers [m_mainCamera]
    and [m_skybox], which [Unload] does not assign, expire with it. *)
Definition Unload (w : t) : t :=
  let w := emit EVENT_SCENE_UNLOAD w in
  let w := set_m_actors [] w in
  let w := set_m_mainCamera None (set_m_skybox None w) in
  set_m_renderables [] w.

(** ** Actors *)

(** [World::Actor_Add]; a null pointer is [None]. *)
Definition Actor_Add (actor : option Actor) (w : t) : t :=
  match actor with
  | None => w
  | Some actor => set_m_actors (m_actors w ++ [actor]) w
  end.

(** [World::GetActorByID]; an empty [weak_ptr] is [None]. *)
Fixpoint find_by_ID (ID : N) (actors : list Actor) : option Actor :=
  match actors with
  | [] => None
  | actor :: rest =>
      if (Actor_GetID actor =? ID)%N then Some actor else find_by_ID ID rest
  end.

Definition GetActorByID (ID : N) (w : t) : option Actor :=
  find_by_ID ID (m_actors w).

(** [World::Actor_Exists]; an expired pointer is [None]. *)
Definition Actor_Exists (actor : option Actor) (w : t) : bool :=
  match actor with
  | None => false
  | Some actor =>
      match GetActorByID (Actor_GetID actor) w with
      | Some _ => true
      | None => false
      end
  end.

(** [World::GetRootActors] *)
Fixpoint GetRootActors_loop (actors rootactors : list Actor) : list Actor :=
  match actors with
  | [] => rootactors
  | actor :: rest =>
      GetRootActors_loop rest
        (if Actor_IsRoot actor then rootactors ++ [actor] else rootactors)
  end.

Definition GetRootActors (w : t) : list Actor :=
  GetRootActors_loop (m_actors w) [].

(** [World::SetAmbientLight], [World::GetAmbientLight] *)
Definition SetAmbientLight (x y z : Q) (w : t) : t :=
  set_m_ambientLight (Vector3.mk x y z) w.

Definition GetAmbientLight (w : t) : Vector3.t := m_ambientLight w.

(** ** Reading the world *)

(** The actors [Resolve] keeps. *)
Definition rendering_related (actor : Actor) : bool :=
  Actor_Camera actor || Actor_Skybox actor || Actor_Renderable actor
  || Actor_Light actor.

(** The last of the actors that satisfies [p], or [fallback]. *)
Definition last_such (p : Actor -> bool) (actors : list Actor)
  (fallback : option Actor) : option Actor :=
  match rev (filter p actors) with
  | actor :: _ => Some actor
  | [] => fallback
  end.

(** A run of ticks, one engine mode for each. *)
Definition Ticks (modes : list bool) (w : t) : t :=
  fold_left (fun w game => Tick game w) modes w.

(** The calls of one tick in mode [game] that follows a tick in mode [prev]:
    a start on entering the game, a stop on leaving it, then the tick. *)
Definition round (actors : list Actor) (prev game : bool) : list Event :=
  (if game && negb prev then map Actor_Start actors else [])
  ++ (if negb game && prev then map Actor_Stop actors else [])
  ++ map Actor_Tick actors.

Fixpoint rounds (actors : list Actor) (prev : bool) (modes : list bool)
  : list Event :=
  match modes with
  | [] => []
  | game :: rest => round actors prev game ++ rounds actors game rest
  end.

(** Sample actors. *)
Definition sample_actor (ID : N) (camera skybox renderable light : bool)
  : Actor :=
  {| Actor_GetID := ID;
     Actor_Camera := camera;
     Actor_Skybox := skybox;
     Actor_Renderable := renderable;
     Actor_Light := light;
     Actor_IsRoot := true |}.

Definition sample_world (actors : list Actor) : t :=
  {| m_actors := actors;
     m_renderables := [];
     m_mainCamera := None;
     m_skybox := None;
     m_ambientLight := Vector3.mk 0 0 0;
     m_state := Scene_Idle;
     m_isDirty := true;
     m_wasInEditorMode := true;
     log := [] |}.

End World.

(** * ImageImporter.cpp *)

(** FreeImage, the file system and the texture class are not part of the
    file: of FreeImage the model keeps what the importer reads of a bitmap
    and takes the functions that make bitmaps as parameters.  Those
    functions always make a bitmap here, except [FreeImage_Load].  The log
    messages are left out. *)

(** A [std::byte]. *)
Definition byte : Type := Z.

(** A bitmap as the importer reads it: the answers of [FreeImage_GetWidth],
    [GetHeight], [GetBPP], [GetLine], [GetImageType], [IsTransparent], and
    the bytes of each scan line ([FreeImage_GetScanLine(bitmap, y)]). *)
Record FIBITMAP_data : Type := {
  FreeImage_GetWidth : nat;
  FreeImage_GetHeight : nat;
  FreeImage_GetBPP : nat;
  FreeImage_GetLine : nat;
  FreeImage_GetImageType : Z;
  FreeImage_IsTransparent : bool;
  scanlines : list (list byte)
}.

Class FreeImageLib : Type := {
  (** file paths, with the tests [empty()] and [== NOT_ASSIGNED] *)
  Path : Type;
  Path_empty : Path -> bool;
  Path_is_NOT_ASSIGNED : Path -> bool;
  FileSystem_FileExists : Path -> bool;
  FreeImage_GetFileType : Path -> Z;
  FreeImage_GetFIFFromFilename : Path -> Z;
  FreeImage_FIFSupportsReading : Z -> bool;
  (** the bitmap [FreeImage_Load] makes of a file, if it makes one *)
  FreeImage_Load : Z -> Path -> option FIBITMAP_data;
  (** what [FreeImage_FlipVertical] turns a bitmap into *)
  FreeImage_FlipVertical : FIBITMAP_data -> FIBITMAP_data;
  (** the bitmaps [FreeImage_Rescale], [FreeImage_ConvertTo32Bits] and
      [FreeImage_ConvertFromRawBits] make *)
  FreeImage_Rescale : FIBITMAP_data -> Z -> Z -> FIBITMAP_data;
  FreeImage_ConvertTo32Bits : FIBITMAP_data -> FIBITMAP_data;
  FreeImage_ConvertFromRawBits :
    list byte -> nat -> nat -> Z -> FIBITMAP_data;
  (** the byte offsets of the channels in a pixel *)
  FI_RGBA_RED : nat;
  FI_RGBA_GREEN : nat;
  FI_RGBA_BLUE : nat;
  FI_RGBA_ALPHA : nat
}.

Module ImageImporter.

Local Notation "x <- c ;; k" := (Renderer.bind c (fun x => k))
  (at level 61, c at next level, right associativity).

(** [FIF_UNKNOWN], [FIT_BITMAP] *)
Definition FIF_UNKNOWN : Z := (-1)%Z.
Definition FIT_BITMAP : Z := 1%Z.

(** *** Integers

    [int] arithmetic faults where it overflows; [unsigned int] arithmetic
    wraps; an [unsigned int] turned into an [int] wraps as well. *)
Definition INT_MIN : Z := (- 2147483648)%Z.
Definition INT_MAX : Z := 2147483647%Z.
Definition UINT_MAX : Z := 4294967295%Z.

Definition int (z : Z) : option Z :=
  if ((INT_MIN <=? z) && (z <=? INT_MAX))%Z then Some z else None.

Definition unsigned (z : Z) : Z := (z mod (UINT_MAX + 1))%Z.

Definition int_of_unsigned (n : nat) : Z :=
  let z := Z.of_nat n in
  if (z <=? INT_MAX)%Z then z else (z - (UINT_MAX + 1))%Z.

(** *** The bitmaps that are allocated

    A [FIBITMAP*] is a number; the heap lists the bitmaps that have been
    made and not unloaded.  A null pointer is [None]. *)
Record Heap : Type := {
  bitmaps : list (nat * FIBITMAP_data);
  next : nat
}.

Definition alloc (b : FIBITMAP_data) (h : Heap) : nat * Heap :=
  (next h, {| bitmaps := bitmaps h ++ [(next h, b)]; next := S (next h) |}).

Fixpoint lookup (p : nat) (l : list (nat * FIBITMAP_data))
  : option FIBITMAP_data :=
  match l with
  | [] => None
  | (q, b) :: rest => if (q =? p)%nat then Some b else lookup p rest
  end.

(** Reading through a pointer; a pointer to no live bitmap faults. *)
Definition deref (p : nat) (h : Heap) : option FIBITMAP_data :=
  lookup p (bitmaps h).

Definition is_live (p : nat) (h : Heap) : bool :=
  existsb (fun e => (fst e =? p)%nat) (bitmaps h).

(** [FreeImage_Unload]; unloading what is not live faults. *)
Definition FreeImage_Unload (p : nat) (h : Heap) : option Heap :=
  if is_live p h
  then Some {| bitmaps :=
                 filter (fun e => negb (fst e =? p)%nat) (bitmaps h);
               next := next h |}
  else None.

(** A bitmap changed in place. *)
Definition update (p : nat) (f : FIBITMAP_data -> FIBITMAP_data) (h : Heap)
  : option Heap :=
  if is_live p h
  then Some {| bitmaps :=
                 map (fun e => if (fst e =? p)%nat then (fst e, f (snd e))
                               else e) (bitmaps h);
               next := next h |}
  else None.

(** The pointers to the live bitmaps. *)
Definition live (h : Heap) : list nat := map fst (bitmaps h).

(** *** The texture *)

(** The members of [RHI_Texture] the importer gets and sets. *)
Record RHI_Texture : Type := {
  m_width : nat;
  m_height : nat;
  m_bpp : nat;
  m_channels : nat;
  m_transparency : bool;
  m_grayscale : bool;
  m_mipmaps : bool;
  m_data : list (list byte)
}.

Definition SetBPP (v : nat) (t : RHI_Texture) : RHI_Texture :=
  {| m_width := m_width t; m_height := m_height t; m_bpp := v;
     m_channels := m_channels t; m_transparency := m_transparency t;
     m_grayscale := m_grayscale t; m_mipmaps := m_mipmaps t;
     m_data := m_data t |}.

Definition SetTransparency (v : bool) (t : RHI_Texture) : RHI_Texture :=
  {| m_width := m_width t; m_height := m_height t; m_bpp := m_bpp t;
     m_channels := m_channels t; m_transparency := v;
     m_grayscale := m_grayscale t; m_mipmaps := m_mipmaps t;
     m_data := m_data t |}.

Definition SetWidth (v : nat) (t : RHI_Texture) : RHI_Texture :=
  {| m_width := v; m_height := m_height t; m_bpp := m_bpp t;
     m_channels := m_channels t; m_transparency := m_transparency t;
     m_grayscale := m_grayscale t; m_mipmaps := m_mipmaps t;
     m_data := m_data t |}.

Definition SetHeight (v : nat) (t : RHI_Texture) : RHI_Texture :=
  {| m_width := m_width t; m_height := v; m_bpp := m_bpp t;
     m_channels := m_channels t; m_transparency := m_transparency t;
     m_grayscale := m_grayscale t; m_mipmaps := m_mipmaps t;
     m_data := m_data t |}.

Definition SetChannels (v : nat) (t : RHI_Texture) : RHI_Texture :=
  {| m_width := m_width t; m_height := m_height t; m_bpp := m_bpp t;
     m_channels := v; m_transparency := m_transparency t;
     m_grayscale := m_grayscale t; m_mipmaps := m_mipmaps t;
     m_data := m_data t |}.

Definition SetGrayscale (v : bool) (t : RHI_Texture) : RHI_Texture :=
  {| m_width := m_width t; m_height := m_height t; m_bpp := m_bpp t;
     m_channels := m_channels t; m_transparency := m_transparency t;
     m_grayscale := v; m_mipmaps := m_mipmaps t;
     m_data := m_data t |}.

(** A write through [GetData()]. *)
Definition SetData (v : list (list byte)) (t : RHI_Texture) : RHI_Texture :=
  {| m_width := m_width t; m_height := m_height t; m_bpp := m_bpp t;
     m_channels := m_channels t; m_transparency := m_transparency t;
     m_grayscale := m_grayscale t; m_mipmaps := m_mipmaps t;
     m_data := v |}.

(** [vector[index] = v]: a write past the end faults. *)
Definition assign {A : Type} (index : nat) (v : A) (l : list A)
  : option (list A) :=
  if (index <? length l)%nat
  then Some (firstn index l ++ v :: skipn (S index) l)
  else None.

Section Importer.
Context {FI : FreeImageLib}.

(** [ImageImporter::ComputeChannelCount] *)
Definition ComputeChannelCount (bitmap : FIBITMAP_data) (bpp : nat) : nat :=
  let imageType := FreeImage_GetImageType bitmap in
  if negb (imageType =? FIT_BITMAP)%Z then 0%nat
  else if (bpp =? 8)%nat then 1%nat
  else if (bpp =? 24)%nat then 3%nat
  else if (bpp =? 32)%nat then 4%nat
  else 0%nat.

(** *** Reading the bits *)

(** The body of the inner loop of [GetBitsFromFIBITMAP]: [bytes] is the
    scan line, [offset] how far the pointer into it has been moved.  A read
    past the end of the scan line faults. *)
Definition GetBits_pixel (bytes : list byte) (bytesPerPixel : nat)
  (x : nat) (s : nat * list byte) : option (nat * list byte) :=
  let (offset, data) := s in
  red <- nth_error bytes (offset + FI_RGBA_RED)%nat ;;
  let data := data ++ [red] in
  green <- nth_error bytes (offset + FI_RGBA_GREEN)%nat ;;
  let data := data ++ [green] in
  blue <- nth_error bytes (offset + FI_RGBA_BLUE)%nat ;;
  let data := data ++ [blue] in
  alpha <- nth_error bytes (offset + FI_RGBA_ALPHA)%nat ;;
  let data := data ++ [alpha] in
  Some ((offset + bytesPerPixel)%nat, data).

(** The body of the outer loop. *)
Definition GetBits_line (bitmap : FIBITMAP_data) (width bytesPerPixel : nat)
  (y : nat) (data : list byte) : option (list byte) :=
  bytes <- nth_error (scanlines bitmap) y ;;
  s <- Renderer.for_each (GetBits_pixel bytes bytesPerPixel) (seq 0 width)
         (0%nat, data) ;;
  Some (snd s).

(** [ImageImporter::GetBitsFromFIBITMAP]: the result and the vector. *)
Definition GetBitsFromFIBITMAP (data : list byte) (bitmap : FIBITMAP_data)
  : option (bool * list byte) :=
  let width := FreeImage_GetWidth bitmap in
  let height := FreeImage_GetHeight bitmap in
  if (width =? 0)%nat || (height =? 0)%nat then Some (false, data)
  else
    let bytesPerPixel := (FreeImage_GetLine bitmap / width)%nat in
    data <- Renderer.for_each (GetBits_line bitmap width bytesPerPixel)
              (seq 0 height) data ;;
    Some (true, data).

(** [ImageImporter::GetRescaledBitsFromBitmap]: the result, the vector and
    the heap. *)
Definition GetRescaledBitsFromBitmap (dataOut : list byte) (width height : Z)
  (bitmap : option nat) (h : Heap) : option (bool * list byte * Heap) :=
  match bitmap with
  | None => Some (false, dataOut, h)
  | Some bitmap =>
      if (width =? 0)%Z || (height =? 0)%Z then Some (false, dataOut, h)
      else
        let dataOut := [] in
        source <- deref bitmap h ;;
        let (bitmapScaled, h) :=
          alloc (FreeImage_Rescale source width height) h in
        scaled <- deref bitmapScaled h ;;
        r <- GetBitsFromFIBITMAP dataOut scaled ;;
        let (result, dataOut) := r in
        h <- FreeImage_Unload bitmapScaled h ;;
        Some (result, dataOut, h)
  end.

(** [ImageImporter::RescaleBits] *)
Definition RescaleBits (rgba : list byte)
  (fromWidth fromHeight toWidth toHeight : nat) (h : Heap)
  : option (bool * list byte * Heap) :=
  match rgba with
  | [] => Some (false, rgba, h)
  | _ :: _ =>
      let pitch := unsigned (Z.of_nat fromWidth * 4) in
      let (bitmap, h) :=
        alloc (FreeImage_ConvertFromRawBits rgba fromWidth fromHeight pitch)
              h in
      GetRescaledBitsFromBitmap rgba (int_of_unsigned toWidth)
        (int_of_unsigned toHeight) (Some bitmap) h
  end.

(** *** Mip levels *)

Record RescaleJob : Type := {
  width : nat;
  height : nat;
  complete : bool;
  data : list byte
}.

(** The [while] loop that adds a job for each mip level; it ends with
    [None] when the fuel does. *)
Fixpoint add_jobs (fuel : nat) (width height : nat)
  (rescaleJobs : list RescaleJob) : option (list RescaleJob) :=
  if (1 <? width)%nat && (1 <? height)%nat
  then
    match fuel with
    | O => None
    | S fuel =>
        let width := Nat.max (width / 2) 1 in
        let height := Nat.max (height / 2) 1 in
        add_jobs fuel width height
          (rescaleJobs
           ++ [{| width := width; height := height; complete := false;
                  data := [] |}])
    end
  else Some rescaleJobs.

(** The task of one job. *)
Definition rescale_task (bitmap : nat) (job : RescaleJob)
  (s : list RescaleJob * Heap) : option (list RescaleJob * Heap) :=
  let (done, h) := s in
  r <- GetRescaledBitsFromBitmap (data job) (int_of_unsigned (width job))
         (int_of_unsigned (height job)) (Some bitmap) h ;;
  let '(_, job_data, h) := r in
  Some (done ++ [{| width := width job; height := height job;
                    complete := true; data := job_data |}], h).

(** [ImageImporter::GenerateMipmapsFromFIBITMAP].  The tasks touch nothing
    but their own job and a bitmap of their own: they are run here one after
    the other.  The loop that waits for them returns once every job is
    complete. *)
Definition GenerateMipmapsFromFIBITMAP (bitmap : nat)
  (texture : option RHI_Texture) (h : Heap)
  : option (option RHI_Texture * Heap) :=
  match texture with
  | None => Some (None, h)
  | Some texture =>
      let width := m_width texture in
      let height := m_height texture in
      rescaleJobs <- add_jobs width width height [] ;;
      s <- Renderer.for_each (rescale_task bitmap) rescaleJobs ([], h) ;;
      let (rescaleJobs, h) := s in
      if forallb complete rescaleJobs
      then
        Some (Some (SetData (m_data texture ++ map data rescaleJobs) texture),
              h)
      else None
  end.

(** *** Grayscale *)

(** [data[(i * width + j) * channels + c]] *)
Definition channel (data : list byte) (i width j channels c : Z)
  : option byte :=
  index <- int (i * width) ;;
  index <- int (index + j) ;;
  index <- int (index * channels) ;;
  index <- int (index + c) ;;
  nth_error data (Z.to_nat index).

(** The body of the inner loop of [GrayscaleCheck]. *)
Definition GrayscaleCheck_pixel (data : list byte) (width channels i : Z)
  (j : nat) (grayPixels : Z) : option Z :=
  let j := Z.of_nat j in
  red <- channel data i width j channels 0 ;;
  green <- channel data i width j channels 1 ;;
  blue <- channel data i width j channels 2 ;;
  if (red =? green)%Z && (red =? blue)%Z then int (grayPixels + 1)
  else Some grayPixels.

(** The body of the outer loop. *)
Definition GrayscaleCheck_line (data : list byte) (width channels : Z)
  (i : nat) (grayPixels : Z) : option Z :=
  Renderer.for_each (GrayscaleCheck_pixel data width channels (Z.of_nat i))
    (seq 0 (Z.to_nat width)) grayPixels.

(** [ImageImporter::GrayscaleCheck] *)
Definition GrayscaleCheck (data : list byte) (width height : Z)
  : option bool :=
  match data with
  | [] => Some false
  | _ :: _ =>
      let grayPixels := 0%Z in
      totalPixels <- int (width * height) ;;
      let channels := 4%Z in
      grayPixels <- Renderer.for_each (GrayscaleCheck_line data width channels)
                      (seq 0 (Z.to_nat height)) grayPixels ;;
      Some (grayPixels =? totalPixels)%Z
  end.

(** *** Loading *)

(** [ImageImporter::Load]: the result, the texture and the heap.  A file
    that [FreeImage_Load] makes no bitmap of is not modelled. *)
Definition Load (filePath : Path) (texture : option RHI_Texture) (h : Heap)
  : option (bool * option RHI_Texture * Heap) :=
  match texture with
  | None => Some (false, None, h)
  | Some texture =>
      if Path_empty filePath || Path_is_NOT_ASSIGNED filePath
      then Some (false, Some texture, h)
      else if negb (FileSystem_FileExists filePath)
      then Some (false, Some texture, h)
      else
        let format := FreeImage_GetFileType filePath in
        let detected :=
          if (format =? FIF_UNKNOWN)%Z
          then
            let format := FreeImage_GetFIFFromFilename filePath in
            if negb (FreeImage_FIFSupportsReading format) then None
            else Some format
          else Some format in
        match detected with
        | None => Some (false, Some texture, h)
        | Some format =>
            if (format =? -1)%Z || (format =? FIF_UNKNOWN)%Z
            then Some (false, Some texture, h)
            else
              loaded <- FreeImage_Load format filePath ;;
              let (bitmapOriginal, h) := alloc loaded h in
              h <- update bitmapOriginal FreeImage_FlipVertical h ;;
              original <- deref bitmapOriginal h ;;
              let userDefineDimensions :=
                negb (m_width texture =? 0)%nat
                && negb (m_height texture =? 0)%nat in
              let dimensionMismatch :=
                negb (FreeImage_GetWidth original =? m_width texture)%nat
                && negb (FreeImage_GetHeight original =? m_height texture)%nat
              in
              let scale := userDefineDimensions && dimensionMismatch in
              let (bitmapScaled, h) :=
                if scale
                then alloc (FreeImage_Rescale original
                              (int_of_unsigned (m_width texture))
                              (int_of_unsigned (m_height texture))) h
                else (bitmapOriginal, h) in
              scaled <- deref bitmapScaled h ;;
              let (bitmap32, h) :=
                if negb (FreeImage_GetBPP original =? 32)%nat
                then alloc (FreeImage_ConvertTo32Bits scaled) h
                else (bitmapScaled, h) in
              let texture := SetBPP 32 texture in
              converted <- deref bitmap32 h ;;
              let texture :=
                SetTransparency (FreeImage_IsTransparent converted) texture in
              let texture := SetWidth (FreeImage_GetWidth converted) texture in
              let texture :=
                SetHeight (FreeImage_GetHeight converted) texture in
              let texture :=
                SetChannels (ComputeChannelCount converted (m_bpp texture))
                  texture in
              let texture := SetData (m_data texture ++ [[]]) texture in
              first <- nth_error (m_data texture) 0 ;;
              r <- GetBitsFromFIBITMAP first converted ;;
              data <- assign 0 (snd r) (m_data texture) ;;
              let texture := SetData data texture in
              first <- nth_error (m_data texture) 0 ;;
              gray <- GrayscaleCheck first
                        (int_of_unsigned (m_width texture))
                        (int_of_unsigned (m_height texture)) ;;
              let texture := SetGrayscale gray texture in
              s <- (if m_mipmaps texture
                    then GenerateMipmapsFromFIBITMAP bitmap32 (Some texture) h
                    else Some (Some texture, h)) ;;
              let (texture, h) := s in
              texture <- texture ;;
              h <- FreeImage_Unload bitmap32 h ;;
              h <- (if negb (m_bpp texture =? 32)%nat
                    then FreeImage_Unload bitmapScaled h
                    else Some h) ;;
              h <- (if scale then FreeImage_Unload bitmapOriginal h
                    else Some h) ;;
              Some (true, Some texture, h)
        end
  end.

(** *** Reading bitmaps and vectors *)

(** The four bytes the importer stores for the pixel at [offset] of a
    scan line. *)
Definition rgba_at (bytes : list byte) (offset : nat) : list byte :=
  [nth (offset + FI_RGBA_RED) bytes 0%Z;
   nth (offset + FI_RGBA_GREEN) bytes 0%Z;
   nth (offset + FI_RGBA_BLUE) bytes 0%Z;
   nth (offset + FI_RGBA_ALPHA) bytes 0%Z].

(** The bytes it stores for a scan line of [width] pixels. *)
Definition rgba_line (bytesPerPixel width : nat) (bytes : list byte)
  : list byte :=
  flat_map (fun x => rgba_at bytes (x * bytesPerPixel)) (seq 0 width).

(** The job of mip level [k] of a texture of the given size. *)
Definition mip_level (width height k : nat) : RescaleJob :=
  {| width := width / 2 ^ k; height := height / 2 ^ k; complete := false;
     data := [] |}.

(** Whether the pixel [p] of an RGBA vector has equal red, green and
    blue. *)
Definition grayb (data : list byte) (p : nat) : bool :=
  (nth (4 * p) data 0 =? nth (4 * p + 1) data 0)%Z
  && (nth (4 * p) data 0 =? nth (4 * p + 2) data 0)%Z.

(** The number of such pixels among the [n] pixels from [a] on. *)
Definition gray_pixels (data : list byte) (a n : nat) : Z :=
  Z.of_nat (length (filter (grayb data) (seq a n))).

(** A bitmap of 32 bits a pixel whose scan lines are all there. *)
Definition well_formed_32 (bitmap : FIBITMAP_data) : Prop :=
  FreeImage_GetLine bitmap = (4 * FreeImage_GetWidth bitmap)%nat
  /\ length (scanlines bitmap) = FreeImage_GetHeight bitmap
  /\ Forall (fun bytes => length bytes = FreeImage_GetLine bitmap)
            (scanlines bitmap).

(** The channel offsets are those of a pixel of four bytes. *)
Definition channels_in_pixel : Prop :=
  (FI_RGBA_RED < 4 /\ FI_RGBA_GREEN < 4 /\ FI_RGBA_BLUE < 4
   /\ FI_RGBA_ALPHA < 4)%nat.

(** Whether [Load] rescales the bitmap of a file to the size of the
    texture. *)
Definition rescales (texture : RHI_Texture) (original : FIBITMAP_data)
  : bool :=
  negb (m_width texture =? 0)%nat && negb (m_height texture =? 0)%nat
  && (negb (FreeImage_GetWidth original =? m_width texture)%nat
      && negb (FreeImage_GetHeight original =? m_height texture)%nat).

(** Every pointer of the heap is below the next one to be given out. *)
Definition heap_ok (h : Heap) : Prop :=
  Forall (fun p => (p < next h)%nat) (live h).

End Importer.

(** *** Samples *)

(** A FreeImage with an RGBA layout of blue, green, red, alpha, that
    rescales to a black bitmap of the size asked for and converts by
    padding every pixel with a fourth byte. *)
Definition blank (width height : nat) : FIBITMAP_data :=
  {| FreeImage_GetWidth := width;
     FreeImage_GetHeight := height;
     FreeImage_GetBPP := 32;
     FreeImage_GetLine := 4 * width;
     FreeImage_GetImageType := FIT_BITMAP;
     FreeImage_IsTransparent := false;
     scanlines := repeat (repeat 0%Z (4 * width)) height |}.

Fixpoint pad_pixels (n : nat) (bytes : list byte) : list byte :=
  match n, bytes with
  | S n, b :: g :: r :: rest => b :: g :: r :: 255%Z :: pad_pixels n rest
  | _, _ => []
  end.

Definition sample_image : FIBITMAP_data :=
  {| FreeImage_GetWidth := 2;
     FreeImage_GetHeight := 2;
     FreeImage_GetBPP := 24;
     FreeImage_GetLine := 6;
     FreeImage_GetImageType := FIT_BITMAP;
     FreeImage_IsTransparent := false;
     scanlines := [[10; 20; 30; 40; 40; 40]; [7; 7; 7; 1; 2; 3]]%Z |}.

Definition SampleFreeImage : FreeImageLib :=
  {| Path := nat;
     Path_empty := fun p => (p =? 0)%nat;
     Path_is_NOT_ASSIGNED := fun p => (p =? 1)%nat;
     FileSystem_FileExists := fun p => (2 <=? p)%nat;
     FreeImage_GetFileType := fun p => if (p =? 2)%nat then FIF_UNKNOWN else 13%Z;
     FreeImage_GetFIFFromFilename := fun p => 13%Z;
     FreeImage_FIFSupportsReading := fun format => (format =? 13)%Z;
     FreeImage_Load := fun format p => Some sample_image;
     FreeImage_FlipVertical := fun b =>
       {| FreeImage_GetWidth := FreeImage_GetWidth b;
          FreeImage_GetHeight := FreeImage_GetHeight b;
          FreeImage_GetBPP := FreeImage_GetBPP b;
          FreeImage_GetLine := FreeImage_GetLine b;
          FreeImage_GetImageType := FreeImage_GetImageType b;
          FreeImage_IsTransparent := FreeImage_IsTransparent b;
          scanlines := rev (scanlines b) |};
     FreeImage_Rescale := fun b width height =>
       blank (Z.to_nat width) (Z.to_nat height);
     FreeImage_ConvertTo32Bits := fun b =>
       {| FreeImage_GetWidth := FreeImage_GetWidth b;
          FreeImage_GetHeight := FreeImage_GetHeight b;
          FreeImage_GetBPP := 32;
          FreeImage_GetLine := 4 * FreeImage_GetWidth b;
          FreeImage_GetImageType := FreeImage_GetImageType b;
          FreeImage_IsTransparent := FreeImage_IsTransparent b;
          scanlines := map (pad_pixels (FreeImage_GetWidth b)) (scanlines b) |};
     FreeImage_ConvertFromRawBits := fun bits width height pitch =>
       blank width height;
     FI_RGBA_RED := 2;
     FI_RGBA_GREEN := 1;
     FI_RGBA_BLUE := 0;
     FI_RGBA_ALPHA := 3 |}.

Definition empty_heap : Heap := {| bitmaps := []; next := 0 |}.

Definition new_texture (width height : nat) (mipmaps : bool) : RHI_Texture :=
  {| m_width := width; m_height := height; m_bpp := 0; m_channels := 0;
     m_transparency := false; m_grayscale := false; m_mipmaps := mipmaps;
     m_data := [] |}.

End ImageImporter.

(** ** Instances to run the code on concrete inputs

    There are two stand-ins for the quaternions.  In [EulerQuaternion] a
    rotation is kept as the Euler angles it was made from, so that reading
    the angles back returns them.  In [FoldedQuaternion] a rotation is kept
    as the one triple of angles that names it with the pitch within
    [-90, 90], as a class does that stores the rotation itself and reads the
    pitch with an arcsine.  The forward vector of a rotation is not
    computed.  A matrix is a label: two matrices differ when their labels
    do.  The frustum of the Light component carries no data; the frustrum of
    the renderer keeps only the far plane. *)

Module Sample.

#[export] Instance EulerQuaternion : QuaternionLib := {
  Quaternion := Vector3.t;
  Quaternion_neqb := Vector3.neqb;
  ToEulerAngles := fun q => q;
  FromEulerAngles := Vector3.mk;
  Forward := fun _ => Vector3.mk 0 0 1
}.

(** An angle in degrees, brought into (-180, 180] by whole turns, the range
    of an arctangent. *)
Definition wrap (a : Q) : Q := a + 360 * Float.floor ((180 - a) / 360).

(** The angles of a rotation with the pitch within [-90, 90]: a pitch beyond
    a right angle is the same rotation as the pitch mirrored at the right
    angle with yaw and roll half a turn further. *)
Definition fold (pitch yaw roll : Q) : Vector3.t :=
  let pitch := wrap pitch in
  if Float.ltb 90 pitch
  then Vector3.mk (180 - pitch) (wrap (yaw + 180)) (wrap (roll + 180))
  else if Float.ltb pitch (-90)
  then Vector3.mk (- 180 - pitch) (wrap (yaw + 180)) (wrap (roll + 180))
  else Vector3.mk pitch (wrap yaw) (wrap roll).

Definition FoldedQuaternion : QuaternionLib := {|
  Quaternion := Vector3.t;
  Quaternion_neqb := Vector3.neqb;
  ToEulerAngles := fun q => q;
  FromEulerAngles := fold;
  Forward := fun _ => Vector3.mk 0 0 1
|}.

#[export] Instance LabelMatrix : MatrixLib := {
  Matrix := Z;
  Matrix_default := 0%Z;
  Matrix_Identity := 1%Z;
  Matrix_neqb := fun a b => negb (a =? b)%Z;
  CreateLookAtLH := fun _ _ _ => 2%Z;
  CreateOrthoOffCenterLH := fun _ _ _ _ _ _ => 3%Z;
  Vector3_mul_Matrix := fun v _ => v
}.

#[export] Instance UnitFrustum : FrustumLib := {
  Frustum := unit;
  Frustum_new := tt;
  Frustum_Construct := fun _ _ _ _ => tt
}.

(** A light whose actor is pitched by -10 degrees, just constructed. *)
Definition tilted : Light.Transform :=
  {| Light.GetPosition := Vector3.mk 0 10 0;
     Light.GetRotation := Vector3.mk (-10) 0 0 |}.

Definition fresh_light : Light.t :=
  Light.Light tilted 0 0 0 0%Z Vector3.Zero Vector3.Zero Vector3.Zero.

(** The same light with the folded rotations. *)
Definition folded_tilted : @Light.Transform FoldedQuaternion :=
  {| Light.GetPosition := Vector3.mk 0 10 0;
     Light.GetRotation := @FromEulerAngles FoldedQuaternion (-10) 0 0 |}.

Definition folded_light : @Light.t LabelMatrix FoldedQuaternion UnitFrustum :=
  @Light.Light LabelMatrix FoldedQuaternion UnitFrustum folded_tilted
    0 0 0 0%Z Vector3.Zero Vector3.Zero Vector3.Zero.

(** A world with shadow maps of 2048 texels and the main camera at
    (0, 1, -5). *)
Definition world : Light.World :=
  {| Light.Shadows_GetResolution := 2048;
     Light.GetMainCamera :=
       Some {| Light.cam_position := Vector3.mk 0 1 (-5);
               Light.GetFarPlane := 1000 |} |}.

#[export] Instance FarPlaneFrustrum : FrustrumLib := {
  Planes := Q;
  Planes_new := 0;
  construct_planes := fun _ _ farPlane => farPlane;
  check_sphere := fun farPlane center radius =>
    if Float.ltb farPlane (Vector3.z center - radius) then Outside
    else if Float.ltb farPlane (Vector3.z center + radius) then Intersects
    else Inside
}.

(** A scene: a camera, a cube with a mesh and a material, and the same cube
    without its material, without its mesh, and without its mesh filter. *)
Definition camera : Renderer.Camera :=
  {| Renderer.Camera_GetClearColor := Vector4.mk 0.5 0.5 0.5 1;
     Renderer.Camera_GetProjectionMatrix := 10%Z;
     Renderer.Camera_GetOrthographicProjectionMatrix := 11%Z;
     Renderer.Camera_GetViewMatrix := 12%Z;
     Renderer.Camera_GetBaseViewMatrix := 13%Z;
     Renderer.Camera_GetNearPlane := 0.3;
     Renderer.Camera_GetFarPlane := 100 |}.

Definition bare : Renderer.GameObject :=
  {| Renderer.GameObject_GetWorldTransform := 1%Z;
     Renderer.GameObject_Camera := None;
     Renderer.GameObject_Skybox := None;
     Renderer.GameObject_LineRenderer := None;
     Renderer.GameObject_Light := None;
     Renderer.GameObject_MeshRenderer := None;
     Renderer.GameObject_MeshFilter := None |}.

Definition with_components (o : Renderer.GameObject)
  (meshFilter : option Renderer.MeshFilter)
  (meshRenderer : option Renderer.MeshRenderer) : Renderer.GameObject :=
  {| Renderer.GameObject_GetWorldTransform :=
       Renderer.GameObject_GetWorldTransform o;
     Renderer.GameObject_Camera := Renderer.GameObject_Camera o;
     Renderer.GameObject_Skybox := Renderer.GameObject_Skybox o;
     Renderer.GameObject_LineRenderer := Renderer.GameObject_LineRenderer o;
     Renderer.GameObject_Light := Renderer.GameObject_Light o;
     Renderer.GameObject_MeshRenderer := meshRenderer;
     Renderer.GameObject_MeshFilter := meshFilter |}.

Definition cameraObject : Renderer.GameObject :=
  {| Renderer.GameObject_GetWorldTransform := 1%Z;
     Renderer.GameObject_Camera := Some camera;
     Renderer.GameObject_Skybox := None;
     Renderer.GameObject_LineRenderer := None;
     Renderer.GameObject_Light := None;
     Renderer.GameObject_MeshRenderer := None;
     Renderer.GameObject_MeshFilter := None |}.

Definition sun : Renderer.Light :=
  {| Renderer.Light_GetShadowType := Renderer.Hard_Shadows;
     Renderer.Light_GetCascadeCount := 1;
     Renderer.Light_GetDepthMap := fun i => Some (Renderer.SRV_DepthMap i);
     Renderer.Light_GetViewMatrix := 20%Z;
     Renderer.Light_GetOrthographicProjectionMatrix :=
       fun i => (21 + Z.of_nat i)%Z |}.

Definition sunObject : Renderer.GameObject :=
  {| Renderer.GameObject_GetWorldTransform := 1%Z;
     Renderer.GameObject_Camera := None;
     Renderer.GameObject_Skybox := None;
     Renderer.GameObject_LineRenderer := None;
     Renderer.GameObject_Light := Some sun;
     Renderer.GameObject_MeshRenderer := None;
     Renderer.GameObject_MeshFilter := None |}.

Definition shader : Renderer.ShaderVariation :=
  {| Renderer.ShaderVariation_GetID := 7 |}.

Definition material : Renderer.Material :=
  {| Renderer.Material_GetID := 1;
     Renderer.Material_GetShader := shader;
     Renderer.Material_GetOpacity := 1;
     Renderer.Material_GetFaceCullMode := Renderer.CullBack;
     Renderer.Material_GetShaderResourceViewByTextureType :=
       fun type => Some (Renderer.SRV_Material 1 type) |}.

Definition cubeFilter (mesh : option Renderer.Mesh) : Renderer.MeshFilter :=
  {| Renderer.MeshFilter_GetMesh := mesh;
     Renderer.MeshFilter_GetCenter := Vector3.mk 0 0 50;
     Renderer.MeshFilter_GetBoundingBox := Vector3.mk 1 1 1;
     Renderer.MeshFilter_SetBuffers := true |}.

Definition cubeRenderer (m : option Renderer.Material)
  : Renderer.MeshRenderer :=
  {| Renderer.MeshRenderer_GetMaterial := m;
     Renderer.MeshRenderer_GetCastShadows := true;
     Renderer.MeshRenderer_GetReceiveShadows := true |}.

Definition cubeMesh : Renderer.Mesh := {| Renderer.Mesh_GetIndexCount := 36 |}.

Definition cube : Renderer.GameObject :=
  with_components bare (Some (cubeFilter (Some cubeMesh)))
                  (Some (cubeRenderer (Some material))).

Definition cube_without_material : Renderer.GameObject :=
  with_components bare (Some (cubeFilter (Some cubeMesh)))
                  (Some (cubeRenderer None)).

Definition cube_without_mesh : Renderer.GameObject :=
  with_components bare (Some (cubeFilter None))
                  (Some (cubeRenderer (Some material))).

Definition cube_without_mesh_filter : Renderer.GameObject :=
  with_components bare None (Some (cubeRenderer (Some material))).

Definition engine : Renderer.Engine :=
  {| Renderer.Scene_GetMainCamera := Some cameraObject;
     Renderer.Scene_GetSkybox := None;
     Renderer.ShaderPool_GetAllShaders := [shader];
     Renderer.MaterialPool_GetAllMaterials := [material];
     Renderer.DeferredShader_IsCompiled := true;
     Renderer.PhysicsDebugDraw_IsDirty := false;
     Renderer.PhysicsDebugDraw_GetLines := 0;
     Renderer.GET_ENGINE_MODE := Renderer.Editor_Idle |}.

(** The same engine after the scene lost its main camera. *)
Definition engine_without_camera : Renderer.Engine :=
  {| Renderer.Scene_GetMainCamera := None;
     Renderer.Scene_GetSkybox := None;
     Renderer.ShaderPool_GetAllShaders := [shader];
     Renderer.MaterialPool_GetAllMaterials := [material];
     Renderer.DeferredShader_IsCompiled := true;
     Renderer.PhysicsDebugDraw_IsDirty := false;
     Renderer.PhysicsDebugDraw_GetLines := 0;
     Renderer.GET_ENGINE_MODE := Renderer.Editor_Idle |}.

(** A renderer right after [Initialize] at 1920 x 1080. *)
Definition target (n : nat) : Renderer.Target :=
  {| Renderer.stamp := n; Renderer.width := 1920; Renderer.height := 1080 |}.

Definition renderer : Renderer.t :=
  {| Renderer.m_GBuffer := target 0;
     Renderer.m_fullScreenQuad := target 1;
     Renderer.m_renderTexPing := target 2;
     Renderer.m_renderTexPong := target 3;
     Renderer.m_renderedMeshesCount := 0;
     Renderer.m_meshesRendered := 0;
     Renderer.m_frustrum :=
       {| Renderer.Frustrum_GetProjectionMatrix := 0%Z;
          Renderer.Frustrum_GetViewMatrix := 0%Z;
          Renderer.Frustrum_planes := Planes_new |};
     Renderer.m_camera := None;
     Renderer.m_skybox := None;
     Renderer.m_lineRenderer := None;
     Renderer.m_directionalLight := None;
     Renderer.m_renderables := [];
     Renderer.m_lightsDirectional := [];
     Renderer.m_lightsPoint := [];
     Renderer.mProjection := 0%Z;
     Renderer.mOrthographicProjection := 0%Z;
     Renderer.mView := 0%Z;
     Renderer.mBaseView := 0%Z;
     Renderer.m_nearPlane := 0;
     Renderer.m_farPlane := 0;
     Renderer.m_textures := [];
     Renderer.m_texArrayDeferredPass := [];
     Renderer.m_texEnvironment := None;
     Renderer.RESOLUTION := (1920, 1080)%Z;
     Renderer.created := 4;
     Renderer.log := [] |}.

End Sample.

(** * Single-precision rounding *)

Module FloatSpec.
Import Float.

Lemma pow2_pos (e : Z) : 0 < pow2 e.
Proof. unfold pow2. apply Qpower_0_lt. reflexivity. Qed.

Lemma pow2_le (a b : Z) : (a <= b)%Z -> pow2 a <= pow2 b.
Proof.
  intros H. unfold pow2. apply Qpower_le_compat_l; [exact H |].
  discriminate.
Qed.

Lemma pow2_lt (a b : Z) : (a < b)%Z -> pow2 a < pow2 b.
Proof.
  intros H. unfold pow2. apply Qpower_lt_compat_l; [exact H |].
  reflexivity.
Qed.

Lemma pow2_add (a b : Z) : pow2 (a + b) == pow2 a * pow2 b.
Proof. unfold pow2. apply Qpower_plus. discriminate. Qed.

Lemma pow2_Z (n : Z) : (0 <= n)%Z -> pow2 n == inject_Z (2 ^ n).
Proof.
  intros H. unfold pow2. rewrite Zpower_Qpower by exact H. reflexivity.
Qed.

(** The exponent brackets the magnitude. *)
Lemma exponent_spec (a : Q) :
  0 < a -> pow2 (exponent a) <= a < pow2 (exponent a + 1).
Proof.
  intros Ha. destruct a as [n d]. unfold exponent.
  assert (Hn : (0 < n)%Z) by (unfold Qlt in Ha; cbn in Ha; lia).
  cbn [Qnum Qden]. rewrite (Z.abs_eq n) by lia.
  rewrite (Qabs_pos (n # d)) by (apply Qlt_le_weak; exact Ha).
  destruct (Z.log2_spec n Hn) as [N1 N2].
  destruct (Z.log2_spec (Zpos d) (Pos2Z.is_pos d)) as [D1 D2].
  pose proof (Z.log2_nonneg n) as Ln.
  pose proof (Z.log2_nonneg (Zpos d)) as Ld.
  set (ln := Z.log2 n) in *. set (ld := Z.log2 (Zpos d)) in *.
  assert (Qd : 0 < inject_Z (Zpos d)) by reflexivity.
  assert (E : n # d == inject_Z n / inject_Z (Zpos d)).
  { rewrite Qmake_Qdiv. reflexivity. }
  (* 2^(ln - ld - 1) < n / d < 2^(ln - ld + 1) *)
  assert (Up : n # d < pow2 (ln - ld + 1)).
  { rewrite E. apply Qlt_shift_div_r; [exact Qd |].
    replace (ln - ld + 1)%Z with ((ln + 1) + - ld)%Z by lia.
    rewrite pow2_add.
    apply Qlt_le_trans with (pow2 (ln + 1)).
    - rewrite pow2_Z by lia. rewrite <- Zlt_Qlt. exact N2.
    - rewrite <- (Qmult_1_r (pow2 (ln + 1))) at 1.
      rewrite <- Qmult_assoc. apply Qmult_le_l; [apply pow2_pos |].
      apply Qle_trans with (pow2 (- ld) * pow2 ld).
      + rewrite <- pow2_add. replace (- ld + ld)%Z with 0%Z by lia.
        apply Qle_refl.
      + apply Qmult_le_l; [apply pow2_pos |].
        rewrite pow2_Z by lia. rewrite <- Zle_Qle. exact D1. }
  assert (Lo : pow2 (ln - ld - 1) <= n # d).
  { rewrite E. apply Qle_shift_div_l; [exact Qd |].
    apply Qle_trans with (pow2 ln).
    - replace (ln - ld - 1)%Z with (ln + - (ld + 1))%Z by lia.
      rewrite pow2_add. rewrite <- (Qmult_1_r (pow2 ln)) at 2.
      rewrite <- Qmult_assoc. apply Qmult_le_l; [apply pow2_pos |].
      apply Qle_trans with (pow2 (- (ld + 1)) * pow2 (ld + 1)).
      + apply Qmult_le_l; [apply pow2_pos |].
        rewrite pow2_Z by lia. rewrite <- Zle_Qle. lia.
      + rewrite <- pow2_add. replace (- (ld + 1) + (ld + 1))%Z with 0%Z by lia.
        apply Qle_refl.
    - rewrite pow2_Z by lia. rewrite <- Zle_Qle. exact N1. }
  destruct (Qle_bool (pow2 (ln - ld)) (n # d)) eqn:T.
  - apply Qle_bool_iff in T. split; [exact T | exact Up].
  - split; [exact Lo |].
    replace (ln - ld - 1 + 1)%Z with (ln - ld)%Z by lia.
    apply Qnot_le_lt. intros C. apply Qle_bool_iff in C. congruence.
Qed.

(** *** The nearest integer *)

Lemma nearest_even_between (a : Q) :
  (Qfloor a <= nearest_even a <= Qfloor a + 1)%Z.
Proof.
  unfold nearest_even. destruct (_ ?= _); [destruct (Z.even _) | |]; lia.
Qed.

Lemma nearest_even_error (a : Q) :
  inject_Z (nearest_even a) - (1 # 2) <= a
  /\ a <= inject_Z (nearest_even a) + (1 # 2).
Proof.
  pose proof (Qfloor_le a) as L. pose proof (Qlt_floor a) as U.
  rewrite inject_Z_plus in U. change (inject_Z 1) with 1 in U.
  unfold nearest_even.
  destruct (Qcompare_spec (a - inject_Z (Qfloor a)) (1 # 2)) as [E|E|E].
  - destruct (Z.even _); rewrite ?inject_Z_plus;
      change (inject_Z 1) with 1; split; lra.
  - split; lra.
  - rewrite inject_Z_plus. change (inject_Z 1) with 1. split; lra.
Qed.

Lemma nearest_even_Z (k : Z) : nearest_even (inject_Z k) = k.
Proof.
  unfold nearest_even. rewrite Qfloor_Z.
  destruct (Qcompare_spec (inject_Z k - inject_Z k) (1 # 2)) as [E|E|E].
  - exfalso. lra.
  - reflexivity.
  - exfalso. lra.
Qed.

Lemma nearest_even_mono (a b : Q) :
  a <= b -> (nearest_even a <= nearest_even b)%Z.
Proof.
  intros H. pose proof (Qfloor_resp_le _ _ H) as F.
  destruct (Z.eq_dec (Qfloor a) (Qfloor b)) as [E|E].
  - unfold nearest_even. rewrite <- E.
    destruct (Qcompare_spec (a - inject_Z (Qfloor a)) (1 # 2)) as [A|A|A];
      destruct (Qcompare_spec (b - inject_Z (Qfloor a)) (1 # 2)) as [B|B|B];
      try (destruct (Z.even _)); try lia; exfalso; lra.
  - pose proof (nearest_even_between a). pose proof (nearest_even_between b).
    lia.
Qed.

(** *** Rounding a magnitude *)

Lemma ulp_pos (a : Q) : 0 < ulp a.
Proof. apply pow2_pos. Qed.

Lemma round_magnitude_eq (a : Q) :
  0 < a ->
  round_magnitude a == inject_Z (nearest_even (a / ulp a)) * ulp a.
Proof.
  intros H. unfold round_magnitude.
  destruct (Qeq_bool a 0) eqn:E.
  - apply Qeq_bool_iff in E. exfalso. lra.
  - apply Qred_correct.
Qed.

Lemma round_magnitude_0 (a : Q) : a == 0 -> round_magnitude a = 0.
Proof.
  intros H. unfold round_magnitude. apply Qeq_bool_iff in H.
  rewrite H. reflexivity.
Qed.

Lemma ulp_scale (a : Q) : ulp a = pow2 (scale a - 23).
Proof. reflexivity. Qed.

Lemma scale_upper (a : Q) : 0 < a -> a < pow2 (scale a + 1).
Proof.
  intros H. destruct (exponent_spec H) as [_ U].
  apply Qlt_le_trans with (1 := U). apply pow2_le. unfold scale. lia.
Qed.

Lemma scale_lower (a : Q) :
  0 < a -> (emin < scale a)%Z -> pow2 (scale a) <= a.
Proof.
  intros H N. destruct (exponent_spec H) as [L _].
  replace (scale a) with (exponent a) by (unfold scale in *; lia).
  exact L.
Qed.

Lemma scale_mono (a b : Q) : 0 < a -> a <= b -> (scale a <= scale b)%Z.
Proof.
  intros Ha Hab.
  destruct (Z_le_gt_dec (scale a) (scale b)) as [L|G]; [exact L | exfalso].
  assert (Hb : 0 < b) by lra.
  assert (N : (emin < scale a)%Z) by (unfold scale in *; lia).
  pose proof (scale_lower Ha N) as La.
  pose proof (scale_upper Hb) as Ub.
  assert (pow2 (scale b + 1) <= pow2 (scale a)) by (apply pow2_le; lia).
  lra.
Qed.

Lemma Qlt_of_le_neq (a : Q) : 0 <= a -> ~ a == 0 -> 0 < a.
Proof.
  intros H E. apply Qle_lteq in H. destruct H as [H | H]; [exact H |].
  exfalso. apply E. symmetry. exact H.
Qed.

(** Multiplying and dividing by the spacing. *)
Lemma div_ulp_le (a c : Q) (e : Z) :
  a <= c * pow2 e -> a / pow2 e <= c.
Proof. intros H. apply Qle_shift_div_r; [apply pow2_pos | exact H]. Qed.

Lemma le_div_ulp (a c : Q) (e : Z) :
  c * pow2 e <= a -> c <= a / pow2 e.
Proof. intros H. apply Qle_shift_div_l; [apply pow2_pos | exact H]. Qed.

Lemma round_magnitude_nonneg (a : Q) : 0 <= a -> 0 <= round_magnitude a.
Proof.
  intros H. destruct (Qeq_dec a 0) as [E|E].
  - rewrite (round_magnitude_0 E). apply Qle_refl.
  - assert (Ha : 0 < a) by (apply Qlt_of_le_neq; assumption).
    rewrite (round_magnitude_eq Ha).
    apply Qmult_le_0_compat; [| apply Qlt_le_weak, ulp_pos].
    change 0 with (inject_Z 0). rewrite <- Zle_Qle.
    rewrite <- (nearest_even_Z 0). apply nearest_even_mono.
    change (inject_Z 0) with 0.
    apply Qle_shift_div_l; [apply ulp_pos |]. lra.
Qed.

(** A magnitude does not round past the power of two above it, nor below
    the one under it. *)
Lemma round_magnitude_upper (a : Q) :
  0 < a -> round_magnitude a <= pow2 (scale a + 1).
Proof.
  intros Ha. rewrite (round_magnitude_eq Ha), ulp_scale.
  replace (scale a + 1)%Z with (24 + (scale a - 23))%Z by lia.
  rewrite pow2_add. apply Qmult_le_compat_r; [| apply Qlt_le_weak, pow2_pos].
  rewrite (pow2_Z (n := 24)) by lia. rewrite <- Zle_Qle.
  rewrite <- (nearest_even_Z (2 ^ 24)). apply nearest_even_mono.
  apply div_ulp_le. rewrite <- (pow2_Z (n := 24)) by lia.
  rewrite <- pow2_add.
  replace (24 + (scale a - 23))%Z with (scale a + 1)%Z by lia.
  apply Qlt_le_weak, scale_upper, Ha.
Qed.

Lemma round_magnitude_lower (a : Q) :
  0 < a -> (emin < scale a)%Z -> pow2 (scale a) <= round_magnitude a.
Proof.
  intros Ha N. rewrite (round_magnitude_eq Ha), ulp_scale.
  replace (scale a) with (23 + (scale a - 23))%Z at 1 by lia.
  rewrite pow2_add. apply Qmult_le_compat_r; [| apply Qlt_le_weak, pow2_pos].
  rewrite (pow2_Z (n := 23)) by lia. rewrite <- Zle_Qle.
  rewrite <- (nearest_even_Z (2 ^ 23)) at 1. apply nearest_even_mono.
  apply le_div_ulp. rewrite <- (pow2_Z (n := 23)) by lia.
  rewrite <- pow2_add. replace (23 + (scale a - 23))%Z with (scale a) by lia.
  apply scale_lower; assumption.
Qed.

Lemma round_magnitude_mono (a b : Q) :
  0 <= a -> a <= b -> round_magnitude a <= round_magnitude b.
Proof.
  intros Ha Hab. destruct (Qeq_dec a 0) as [E|E].
  - rewrite (round_magnitude_0 E). apply round_magnitude_nonneg. lra.
  - assert (Pa : 0 < a) by (apply Qlt_of_le_neq; assumption).
    assert (Pb : 0 < b) by lra.
    pose proof (scale_mono Pa Hab) as S.
    destruct (Z.eq_dec (scale a) (scale b)) as [Es|Ns].
    + rewrite (round_magnitude_eq Pa), (round_magnitude_eq Pb), !ulp_scale.
      rewrite <- Es. apply Qmult_le_compat_r; [| apply Qlt_le_weak, pow2_pos].
      rewrite <- Zle_Qle. apply nearest_even_mono.
      apply Qmult_le_compat_r; [exact Hab |].
      apply Qlt_le_weak, Qinv_lt_0_compat, pow2_pos.
    + apply Qle_trans with (pow2 (scale a + 1));
        [apply round_magnitude_upper, Pa |].
      apply Qle_trans with (pow2 (scale b)); [apply pow2_le; lia |].
      apply round_magnitude_lower; [exact Pb |].
      assert ((emin <= scale a)%Z) by (unfold scale; lia). lia.
Qed.


(** *** Rounding *)

Lemma round_cases (a : Q) :
  (a < 0 /\ round a = - round_magnitude (- a))
  \/ (0 <= a /\ round a = round_magnitude a).
Proof.
  unfold round, ltb. destruct (Qle_bool 0 a) eqn:E; cbn [negb].
  - right. apply Qle_bool_iff in E. auto.
  - left. split; [| reflexivity].
    apply Qnot_le_lt. intros C. apply Qle_bool_iff in C. congruence.
Qed.

(** *** The rounded number is a float, and no float is nearer *)

Lemma nearest_even_nearest (t : Q) (k : Z) :
  Qabs (inject_Z (nearest_even t) - t) <= Qabs (inject_Z k - t).
Proof.
  destruct (nearest_even_error t) as [L U].
  destruct (Z.eq_dec k (nearest_even t)) as [-> | N]; [apply Qle_refl |].
  apply Qle_trans with (1 # 2).
  - apply Qabs_Qle_condition. split; lra.
  - destruct (Z_lt_le_dec k (nearest_even t)) as [Lt | Ge].
    + assert (H : inject_Z (k + 1) <= inject_Z (nearest_even t))
        by (rewrite <- Zle_Qle; lia).
      rewrite inject_Z_plus in H. change (inject_Z 1) with 1 in H.
      rewrite <- Qabs_opp. apply Qle_trans with (2 := Qle_Qabs _). lra.
    + assert (H : inject_Z (nearest_even t + 1) <= inject_Z k)
        by (rewrite <- Zle_Qle; lia).
      rewrite inject_Z_plus in H. change (inject_Z 1) with 1 in H.
      apply Qle_trans with (2 := Qle_Qabs _). lra.
Qed.

(** No multiple of the spacing is nearer. *)
Lemma round_magnitude_nearest_multiple (a : Q) (k : Z) :
  0 < a ->
  Qabs (round_magnitude a - a) <= Qabs (inject_Z k * ulp a - a).
Proof.
  intros Ha. rewrite (round_magnitude_eq Ha).
  pose proof (ulp_pos a) as Pu.
  assert (Ea : a == (a / ulp a) * ulp a).
  { field. intros C. rewrite C in Pu. revert Pu. apply Qlt_irrefl. }
  pose proof (nearest_even_nearest (a / ulp a) k) as N.
  set (n := inject_Z (nearest_even (a / ulp a))) in *.
  set (t := a / ulp a) in *. set (u := ulp a) in *.
  assert (F : forall c : Q, Qabs (c * u - a) == Qabs (c - t) * u).
  { intros c. rewrite <- (Qabs_pos u) at 2 by lra.
    rewrite <- Qabs_Qmult. apply Qabs_wd. rewrite Ea at 1. ring. }
  rewrite !F. apply Qmult_le_compat_r; [exact N | lra].
Qed.

Lemma round_magnitude_representable (a : Q) :
  0 <= a -> representable (round_magnitude a).
Proof.
  intros H. destruct (Qeq_dec a 0) as [E|E].
  - rewrite (round_magnitude_0 E). exists 0%Z, 0%Z.
    split; [discriminate |]. split; [discriminate | reflexivity].
  - assert (Ha : 0 < a) by (apply Qlt_of_le_neq; assumption).
    exists (nearest_even (a / ulp a)), (scale a - 23)%Z.
    split; [| split].
    + assert (0 <= nearest_even (a / ulp a))%Z.
      { rewrite <- (nearest_even_Z 0). apply nearest_even_mono.
        change (inject_Z 0) with 0.
        apply Qle_shift_div_l; [apply ulp_pos |]. lra. }
      assert (nearest_even (a / ulp a) <= 2 ^ 24)%Z.
      { rewrite <- (nearest_even_Z (2 ^ 24)). apply nearest_even_mono.
        rewrite ulp_scale. apply div_ulp_le.
        rewrite <- (pow2_Z (n := 24)) by lia. rewrite <- pow2_add.
        replace (24 + (scale a - 23))%Z with (scale a + 1)%Z by lia.
        apply Qlt_le_weak, scale_upper, Ha. }
      lia.
    + unfold scale, emin. lia.
    + rewrite (round_magnitude_eq Ha). reflexivity.
Qed.

Lemma round_magnitude_nearest (a g : Q) :
  0 < a -> representable g ->
  Qabs (round_magnitude a - a) <= Qabs (g - a).
Proof.
  intros Ha (m & e & Hm & He & Hg).
  destruct (Z_le_gt_dec (scale a - 23) e) as [Le | Gt].
  - (* [g] is a multiple of the spacing *)
    assert (Eg : g == inject_Z (m * 2 ^ (e - (scale a - 23))) * ulp a).
    { rewrite Hg, ulp_scale, inject_Z_mult, <- pow2_Z by lia.
      rewrite <- Qmult_assoc, <- pow2_add.
      replace (e - (scale a - 23) + (scale a - 23))%Z with e by lia.
      reflexivity. }
    rewrite Eg. apply round_magnitude_nearest_multiple, Ha.
  - (* [g] is below the power of two under [a] *)
    assert (N : (emin < scale a)%Z) by (unfold emin; lia).
    pose proof (scale_lower Ha N) as La.
    assert (G : g <= pow2 (scale a)).
    { rewrite Hg. apply Qle_trans with (inject_Z (2 ^ 24) * pow2 e).
      - apply Qmult_le_compat_r; [| apply Qlt_le_weak, pow2_pos].
        rewrite <- Zle_Qle. lia.
      - rewrite <- pow2_Z by lia. rewrite <- pow2_add.
        apply pow2_le. lia. }
    apply Qle_trans with (Qabs (inject_Z (2 ^ 23) * ulp a - a)).
    + apply round_magnitude_nearest_multiple, Ha.
    + assert (E : inject_Z (2 ^ 23) * ulp a == pow2 (scale a)).
      { rewrite ulp_scale, <- pow2_Z by lia. rewrite <- pow2_add.
        replace (23 + (scale a - 23))%Z with (scale a) by lia.
        reflexivity. }
      rewrite E. rewrite <- (Qabs_opp (pow2 (scale a) - a)).
      rewrite <- (Qabs_opp (g - a)).
      rewrite (Qabs_pos (- (pow2 (scale a) - a))) by lra.
      rewrite (Qabs_pos (- (g - a))) by lra. lra.
Qed.

Lemma representable_opp (g : Q) : representable g -> representable (- g).
Proof.
  intros (m & e & Hm & He & Hg). exists (- m)%Z, e.
  split; [lia |]. split; [exact He |].
  rewrite Hg, inject_Z_opp. ring.
Qed.

(** [round a] is a float. *)
Lemma round_representable (a : Q) : representable (round a).
Proof.
  destruct (round_cases a) as [[Sa ->] | [Sa ->]].
  - apply representable_opp, round_magnitude_representable. lra.
  - apply round_magnitude_representable, Sa.
Qed.

(** No float is nearer to [a] than [round a]. *)
Lemma round_nearest (a g : Q) :
  representable g -> Qabs (round a - a) <= Qabs (g - a).
Proof.
  intros Hg. destruct (round_cases a) as [[Sa ->] | [Sa ->]].
  - setoid_replace (- round_magnitude (- a) - a)
      with (- (round_magnitude (- a) - - a)) by ring.
    setoid_replace (g - a) with (- (- g - - a)) by ring.
    rewrite !Qabs_opp. apply round_magnitude_nearest; [lra |].
    apply representable_opp, Hg.
  - destruct (Qeq_dec a 0) as [E|E].
    + rewrite (round_magnitude_0 E).
      setoid_replace (0 - a) with 0 by lra. apply Qabs_nonneg.
    + apply round_magnitude_nearest; [| exact Hg].
      apply Qlt_of_le_neq; assumption.
Qed.

(** Rounding keeps the order. *)
Lemma round_mono (a b : Q) : a <= b -> round a <= round b.
Proof.
  intros H.
  destruct (round_cases a) as [[Sa ->] | [Sa ->]];
    destruct (round_cases b) as [[Sb ->] | [Sb ->]].
  - apply Qopp_le_compat. apply round_magnitude_mono; lra.
  - apply Qle_trans with 0.
    + pose proof (@round_magnitude_nonneg (- a)). lra.
    + apply round_magnitude_nonneg, Sb.
  - exfalso. lra.
  - apply round_magnitude_mono; assumption.
Qed.


(** The rounding on some numbers whose single-precision value is known:
    0.1 and 1/3, the first integers that are not floats (the ties go to the
    even neighbour), and the smallest floats. *)
Lemma round_examples :
  round (1 # 10) = 13421773 # 134217728
  /\ round (1 # 3) = 11184811 # 33554432
  /\ round (16777217 # 1) = 16777216 # 1
  /\ round (16777219 # 1) = 16777220 # 1
  /\ round (- (16777219 # 1)) = - (16777220 # 1)
  /\ round (pow2 (-149)) = pow2 (-149)
  /\ round (pow2 (-150)) = 0
  /\ round (3 * pow2 (-150)) = pow2 (-148).
Proof. vm_compute. repeat split. Qed.

Lemma round_nonneg (a : Q) : 0 <= a -> 0 <= round a.
Proof.
  intros H. change 0 with (round 0) at 1. apply round_mono, H.
Qed.

End FloatSpec.

(** * Properties of the Light component *)

Module LightSpec.
Import Light.

(** ** Texel snapping *)










(** ** Shadow maps and the per-cascade arrays *)

Section Arrays.
Context {ML : MatrixLib} {QL : QuaternionLib} {FL : FrustumLib}.
Local Open Scope nat_scope.

(** What a run of the creation loop leaves behind. *)
Lemma ShadowMap_Create_loop_spec (n : nat) : forall l : t,
  let l' := ShadowMap_Create_loop n l in
  length (m_shadowMaps l') = length (m_shadowMaps l) + n
  /\ length (m_frustums l') = length (m_frustums l) + n
  /\ rhi_created l' = rhi_created l + n
  /\ m_lightType l' = m_lightType l
  /\ m_castShadows l' = m_castShadows l
  /\ m_shadowMapCount l' = m_shadowMapCount l
  /\ m_shadowMapsProjectionMatrix l' = m_shadowMapsProjectionMatrix l
  /\ (forall bound, bound <= rhi_created l ->
      Forall (fun t => bound <= rt_stamp t) (m_shadowMaps l) ->
      Forall (fun t => bound <= rt_stamp t) (m_shadowMaps l')).
Proof.
  induction n as [|n IH]; intros l; cbn [ShadowMap_Create_loop].
  - repeat apply conj; auto.
  - match goal with |- context [ShadowMap_Create_loop n ?x] =>
      specialize (IH x); set (l1 := x) in * end.
    cbv zeta in IH.
    destruct IH as (Hm & Hf & Hc & Ht & Hs & Hk & Hp & Hall).
    subst l1; cbn in Hm, Hf, Hc, Ht, Hs, Hk, Hp, Hall.
    rewrite length_app in Hm, Hf. cbn in Hm, Hf.
    cbn. repeat apply conj; try lia; try assumption.
    intros bound Hb Hold. apply Hall; [lia |].
    apply Forall_app. split; [exact Hold |].
    constructor; [cbn; lia | constructor].
Qed.

(** A forced creation: the arrays of render textures and frustums get the
    cascade count of the light type, and every render texture is new. *)
Lemma ShadowMap_Create_force (w : World) (l : t) :
  let l' := ShadowMap_Create w true l in
  length (m_shadowMaps l') = cascade_count (m_lightType l)
  /\ length (m_frustums l') = cascade_count (m_lightType l)
  /\ m_shadowMapCount l' = cascade_count (m_lightType l)
  /\ rhi_created l' = rhi_created l + cascade_count (m_lightType l)
  /\ m_lightType l' = m_lightType l
  /\ m_castShadows l' = m_castShadows l
  /\ m_shadowMapsProjectionMatrix l' = m_shadowMapsProjectionMatrix l
  /\ Forall (fun t => rhi_created l <= rt_stamp t) (m_shadowMaps l').
Proof.
  unfold ShadowMap_Create. cbn [negb andb]. cbv zeta.
  set (l1 := set_m_shadowMapResolution _ _).
  pose proof (ShadowMap_Create_loop_spec (m_shadowMapCount l1) l1) as H.
  cbv zeta in H. destruct H as (Hm & Hf & Hc & Ht & Hs & Hk & Hp & Hall).
  assert (E : m_shadowMapCount l1 = cascade_count (m_lightType l)).
  { unfold l1. cbn. destruct (m_lightType l) eqn:Ety; cbn; congruence. }
  assert (Et : m_lightType l1 = m_lightType l).
  { unfold l1. cbn. destruct (m_lightType l) eqn:Ety; cbn; congruence. }
  assert (Em : m_shadowMaps l1 = []).
  { unfold l1. cbn. destruct (m_lightType l) eqn:Ety; cbn; congruence. }
  assert (Ef : m_frustums l1 = []).
  { unfold l1. cbn. destruct (m_lightType l) eqn:Ety; cbn; congruence. }
  assert (Ec : rhi_created l1 = rhi_created l).
  { unfold l1. cbn. destruct (m_lightType l) eqn:Ety; cbn; congruence. }
  assert (Es : m_castShadows l1 = m_castShadows l).
  { unfold l1. cbn. destruct (m_lightType l) eqn:Ety; cbn; congruence. }
  assert (Ep : m_shadowMapsProjectionMatrix l1
               = m_shadowMapsProjectionMatrix l).
  { unfold l1. cbn. destruct (m_lightType l) eqn:Ety; cbn; congruence. }
  cbv zeta. rewrite Em, Ec in *. rewrite Ef in Hf. cbn [length] in Hm, Hf.
  repeat apply conj; try congruence; try lia.
  apply Hall; [lia | constructor].
Qed.

(** C10: [SetCastShadows(v)] leaves the flag equal to [v].  With [true] it
    changes nothing else: the shadow maps, the frustums and the device's
    count of render textures are as before, whatever the flag was.  With
    [false] the shadow maps are destroyed and made again: the device has
    made as many new render textures as the light type has cascades, and
    every shadow map of the light is one of the new ones. *)
Theorem SetCastShadows_recreates_only_on_false
  (w : World) (v : bool) (l : t) :
  m_castShadows (SetCastShadows w v l) = v
  /\ SetCastShadows w true l = set_m_castShadows true l
  /\ m_shadowMaps (SetCastShadows w true l) = m_shadowMaps l
  /\ m_frustums (SetCastShadows w true l) = m_frustums l
  /\ rhi_created (SetCastShadows w true l) = rhi_created l
  /\ SetCastShadows w false l
     = ShadowMap_Create w true (set_m_castShadows false l)
  /\ rhi_created (SetCastShadows w false l)
     = rhi_created l + cascade_count (m_lightType l)
  /\ length (m_shadowMaps (SetCastShadows w false l))
     = cascade_count (m_lightType l)
  /\ Forall (fun t => rhi_created l <= rt_stamp t)
       (m_shadowMaps (SetCastShadows w false l)).
Proof.
  assert (Hfalse : SetCastShadows w false l
                   = ShadowMap_Create w true (set_m_castShadows false l))
    by reflexivity.
  pose proof (ShadowMap_Create_force w (set_m_castShadows false l)) as H.
  cbv zeta in H. destruct H as (Hm & _ & _ & Hc & _ & Hs & _ & Hall).
  split.
  { destruct v; [reflexivity |]. rewrite Hfalse. exact Hs. }
  rewrite Hfalse. repeat split; assumption.
Qed.

(** The projection loop appends one matrix per round and touches no other
    per-cascade array. *)
Lemma vector_assign_length {A : Type} (m : A) : forall (v : list A) i v',
  vector_assign i m v = Some v' -> length v' = length v.
Proof.
  induction v as [|a v IH]; intros i v' H; destruct i as [|i]; cbn in H;
    try discriminate.
  - injection H as <-. reflexivity.
  - destruct (vector_assign i m v) as [r|] eqn:E; [| discriminate].
    injection H as <-. cbn. f_equal. eapply IH, E.
Qed.

Lemma ShadowMap_ComputeProjectionMatrix_spec (i : nat) (l l' : t) :
  ShadowMap_ComputeProjectionMatrix i l = Some l' ->
  length (m_shadowMapsProjectionMatrix l')
  = length (m_shadowMapsProjectionMatrix l)
  /\ m_lightType l' = m_lightType l
  /\ m_shadowMaps l' = m_shadowMaps l
  /\ m_frustums l' = m_frustums l
  /\ m_shadowMapCount l' = m_shadowMapCount l.
Proof.
  unfold ShadowMap_ComputeProjectionMatrix.
  destruct (snapped_box _ _ _) as [mn mx].
  destruct (vector_assign _ _ _) as [v|] eqn:E; [| discriminate].
  intros H. injection H as <-. cbn.
  apply vector_assign_length in E. auto.
Qed.

Lemma projection_loop_spec (n : nat) : forall (i : nat) (l l' : t),
  projection_loop n i l = Some l' ->
  length (m_shadowMapsProjectionMatrix l')
  = length (m_shadowMapsProjectionMatrix l) + n
  /\ m_lightType l' = m_lightType l
  /\ m_shadowMaps l' = m_shadowMaps l
  /\ m_frustums l' = m_frustums l
  /\ m_shadowMapCount l' = m_shadowMapCount l.
Proof.
  induction n as [|n IH]; intros i l l' H; cbn [projection_loop] in H.
  - injection H as <-. repeat split; lia.
  - destruct (ShadowMap_ComputeProjectionMatrix _ _) as [l1|] eqn:E;
      [| discriminate].
    apply ShadowMap_ComputeProjectionMatrix_spec in E.
    apply IH in H. cbn in E. rewrite length_app in E. cbn in E.
    destruct E as (E1 & E2 & E3 & E4 & E5).
    destruct H as (H1 & H2 & H3 & H4 & H5).
    repeat split; try congruence; lia.
Qed.

Lemma frustum_loop_length (farPlane : Q) (l : t) :
  forall (frustums : list Frustum) (index : nat),
  length (frustum_loop farPlane l index frustums) = length frustums.
Proof.
  induction frustums as [|f rest IH]; intros index; cbn; [reflexivity |].
  f_equal. apply IH.
Qed.

(** What [OnTick] leaves alone, and when it fills the projection array. *)
Lemma OnTick_spec (w : World) (l l' : t) :
  (m_lightType l = LightType_Directional -> m_shadowMapCount l = 3) ->
  OnTick w l = Some l' ->
  m_lightType l' = m_lightType l
  /\ m_shadowMaps l' = m_shadowMaps l
  /\ length (m_frustums l') = length (m_frustums l)
  /\ m_shadowMapCount l' = m_shadowMapCount l
  /\ (if fills_projections w OpOnTick l
      then length (m_shadowMapsProjectionMatrix l') = 3
      else m_shadowMapsProjectionMatrix l' = m_shadowMapsProjectionMatrix l).
Proof.
  intros Hk H. unfold OnTick in H. cbn [fills_projections].
  destruct (LightType_eqb (m_lightType l) LightType_Directional) eqn:Ety;
    cbn [negb andb] in H |- *.
  2:{ injection H as <-. repeat split; reflexivity. }
  assert (Et : m_lightType l = LightType_Directional)
    by (destruct (m_lightType l); try discriminate; reflexivity).
  specialize (Hk Et).
  destruct (GetMainCamera w) as [camera|]; [| discriminate].
  match type of H with
  | (match ?moved with _ => _ end) = _ =>
      destruct moved as [l2|] eqn:Emoved; [| discriminate]
  end.
  (* the light after the first dirty check *)
  match type of Emoved with
  | context [Vector3.neqb (m_lastPosCamera ?x) _] => set (l1 := x) in *
  end.
  assert (H1 : m_lightType l1 = m_lightType l
               /\ m_shadowMaps l1 = m_shadowMaps l
               /\ m_frustums l1 = m_frustums l
               /\ m_shadowMapCount l1 = m_shadowMapCount l
               /\ m_shadowMapsProjectionMatrix l1
                  = m_shadowMapsProjectionMatrix l
               /\ m_lastPosCamera l1 = m_lastPosCamera l).
  { subst l1. destruct (_ || _); [| repeat split; reflexivity].
    unfold ComputeViewMatrix, ClampRotation.
    repeat match goal with |- context [if ?c then _ else _] =>
      destruct c end; cbn; repeat split; reflexivity. }
  destruct H1 as (T1 & M1 & F1 & K1 & P1 & C1).
  rewrite C1 in Emoved.
  assert (H2 : m_lightType l2 = m_lightType l
               /\ m_shadowMaps l2 = m_shadowMaps l
               /\ m_frustums l2 = m_frustums l
               /\ m_shadowMapCount l2 = m_shadowMapCount l
               /\ (if Vector3.neqb (m_lastPosCamera l) (cam_position camera)
                   then length (m_shadowMapsProjectionMatrix l2) = 3
                   else m_shadowMapsProjectionMatrix l2
                        = m_shadowMapsProjectionMatrix l)).
  { destruct (Vector3.neqb (m_lastPosCamera l) (cam_position camera)).
    - destruct (projection_loop _ _ _) as [l3|] eqn:E3; [| discriminate].
      injection Emoved as <-.
      apply projection_loop_spec in E3. cbn in E3.
      destruct E3 as (E1 & E2 & E3 & E4 & E5).
      cbn. rewrite E1, E2, E3, E4, E5, K1, Hk. repeat split; auto.
    - injection Emoved as <-. rewrite T1, M1, F1, K1, P1.
      repeat split; reflexivity. }
  destruct H2 as (T2 & M2 & F2 & K2 & P2).
  destruct (m_isDirty l2); cbn [negb] in H; injection H as <-; cbn;
    rewrite ?frustum_loop_length, ?F2; repeat split; assumption.
Qed.

Lemma invariant_after_force (w : World) (made full : bool) (l : t) :
  (if full then length (m_shadowMapsProjectionMatrix l) = 3
   else m_shadowMapsProjectionMatrix l = []) ->
  light_invariant true full (ShadowMap_Create w true l).
Proof.
  intros Hp.
  pose proof (ShadowMap_Create_force w l) as H. cbv zeta in H.
  destruct H as (Hm & Hf & Hk & _ & Ht & _ & Hpj & _).
  unfold light_invariant, created. rewrite Hpj, Ht.
  split; [congruence |]. split; [split; assumption | exact Hp].
Qed.

(** One operation: shadow maps exist after it if they did before or if it
    creates them, and the projection array is full after it if it was
    before or if the operation fills it. *)
Lemma invariant_apply (w : World) (op : Op) (made full : bool) (l l' : t) :
  light_invariant made full l -> apply w op l = Some l' ->
  light_invariant (made || creates_shadow_maps op)
                  (full || fills_projections w op l) l'.
Proof.
  intros Hinv H. destruct op; cbn [apply creates_shadow_maps] in H |- *;
    cbn [fills_projections]; rewrite ?orb_true_r, ?orb_false_r.
  - injection H as <-. apply (invariant_after_force w made). apply Hinv.
  - injection H as <-. apply (invariant_after_force w made). apply Hinv.
  - injection H as <-. unfold OnStart, ShadowMap_Create.
    cbn [negb andb].
    destruct (m_shadowMaps l) eqn:E; cbn [negb].
    + pose proof (@invariant_after_force w made full l) as G.
      unfold ShadowMap_Create in G. cbn [negb andb] in G.
      apply G, Hinv.
    + destruct Hinv as (A & B & C).
      destruct made; [repeat split; try assumption; apply B |].
      destruct B as [B _]. congruence.
  - destruct Hinv as (A & B & C).
    assert (Hk : m_lightType l = LightType_Directional ->
                 m_shadowMapCount l = 3).
    { intros Et. destruct made.
      - destruct B as [_ B]. rewrite B, Et. reflexivity.
      - destruct B as [_ B]. congruence. }
    destruct (OnTick_spec w l Hk H) as (T & M & F & K & P).
    cbn [fills_projections] in P.
    unfold light_invariant, created, never_created in *.
    rewrite T, M, F, K. split; [exact A |]. split; [exact B |].
    destruct (_ && _).
    + rewrite orb_true_r. exact P.
    + rewrite orb_false_r, P. exact C.
  - injection H as <-. destruct castShadows; cbn [negb].
    + rewrite orb_false_r. destruct Hinv as (A & B & C).
      repeat split; assumption.
    + rewrite orb_true_r.
      apply (invariant_after_force w made). apply Hinv.
  - injection H as <-. destruct Hinv as (A & B & C).
    repeat split; assumption.
Qed.

Lemma invariant_run : forall (ops : list (World * Op)) (made full : bool)
  (l l' : t),
  light_invariant made full l -> run ops l = Some l' ->
  light_invariant (made || existsb creates_shadow_maps (map snd ops))
                  (full || filled ops l) l'.
Proof.
  induction ops as [|[w op] ops IH]; intros made full l l' Hinv H;
    cbn [run filled map existsb snd] in H |- *.
  - injection H as <-. rewrite !orb_false_r. exact Hinv.
  - destruct (apply w op l) as [l1|] eqn:E; [| discriminate].
    rewrite !orb_assoc. eapply IH; [| exact H].
    eapply invariant_apply; eassumption.
Qed.

(** C5, as the code has it: after any run of operations on a newly
    constructed light, the frustum array and the shadow-map array have equal
    length.  Both are empty if no operation of the run creates shadow maps;
    if one does (a light-type assignment, [OnInitialize], [OnStart] or
    [SetCastShadows(false)]) they hold the cascade count of the light type
    (3 for directional, 6 for point, 1 for spot), which is also the stored
    count.  The array of projection matrices is not kept at that length: it
    is empty unless some [OnTick] of the run met a directional light and a
    main camera away from its last position, and has 3 entries if one
    did. *)
Theorem per_cascade_arrays (tr : Transform) (n count0 resolution0 : nat)
  (view0 : Matrix) (pos0 : Vector3.t) (rot0 : Quaternion) (cam0 : Vector3.t)
  (ops : list (World * Op)) (l : t) :
  run ops (Light tr n count0 resolution0 view0 pos0 rot0 cam0) = Some l ->
  length (m_frustums l) = length (m_shadowMaps l)
  /\ (if existsb creates_shadow_maps (map snd ops)
      then length (m_shadowMaps l) = cascade_count (m_lightType l)
           /\ m_shadowMapCount l = cascade_count (m_lightType l)
      else m_shadowMaps l = [])
  /\ (if filled ops (Light tr n count0 resolution0 view0 pos0 rot0 cam0)
      then length (m_shadowMapsProjectionMatrix l) = 3
      else m_shadowMapsProjectionMatrix l = []).
Proof.
  intros H.
  assert (I0 : light_invariant false false
                 (Light tr n count0 resolution0 view0 pos0 rot0 cam0)).
  { unfold light_invariant, never_created. cbn. auto. }
  destruct (invariant_run ops I0 H) as (A & B & C).
  cbn [orb] in B, C.
  split; [exact A |]. split; [| exact C].
  destruct (existsb _ _); [exact B | apply B].
Qed.

End Arrays.

(** The theorem on a run that makes the light directional and ticks it once
    with the camera away from the origin: three shadow maps, three frustums
    and three projection matrices. *)
Lemma per_cascade_arrays_witness :
  exists l : t,
    run [(Sample.world, OpSetLightType LightType_Directional);
         (Sample.world, OpOnTick)] Sample.fresh_light = Some l
    /\ length (m_frustums l) = length (m_shadowMaps l)
    /\ (length (m_shadowMaps l) = cascade_count (m_lightType l)
        /\ m_shadowMapCount l = cascade_count (m_lightType l))
    /\ length (m_shadowMapsProjectionMatrix l) = 3%nat.
Proof.
  eexists. split; [vm_compute; reflexivity |].
  apply (@per_cascade_arrays Sample.LabelMatrix Sample.EulerQuaternion
           Sample.UnitFrustum Sample.tilted 0%nat 0%nat 0%nat 0%Z
           Vector3.Zero Vector3.Zero Vector3.Zero
           [(Sample.world, OpSetLightType LightType_Directional);
            (Sample.world, OpOnTick)]).
  vm_compute. reflexivity.
Defined.

(** C5 as stated fails: a light that has just been made directional has
    three shadow maps and three frustums and no projection matrix. *)
Lemma arrays_disagree_after_SetLightType :
  let l := SetLightType Sample.world LightType_Directional Sample.fresh_light
  in
  length (m_shadowMaps l) = 3%nat
  /\ length (m_frustums l) = 3%nat
  /\ length (m_shadowMapsProjectionMatrix l) = 0%nat
  /\ ~ arrays_agree l.
Proof.
  cbv zeta. repeat apply conj; try reflexivity.
  unfold arrays_agree. intros (H & _). vm_compute in H. discriminate.
Qed.

(** ** Clamping the pitch *)

Section Clamp.
Context {ML : MatrixLib} {QL : QuaternionLib} {FL : FrustumLib}.

Lemma Qle_bool_false (a b : Q) : Qle_bool a b = false -> b < a.
Proof.
  intros H. apply Qnot_le_lt. intros C.
  apply Qle_bool_iff in C. congruence.
Qed.

(** The three cases of [ClampRotation]. *)
Lemma ClampRotation_cases (l : t) :
  let rotation := ToEulerAngles (GetRotation (transform l)) in
  let low :=
    FromEulerAngles 179 (Vector3.y rotation) (Vector3.z rotation) in
  let high :=
    FromEulerAngles 1 (Vector3.y rotation) (Vector3.z rotation) in
  (pitch l <= 0 /\
   ClampRotation l = set_transform (SetRotation low (transform l)) l)
  \/ (180 <= pitch l /\
      ClampRotation l = set_transform (SetRotation high (transform l)) l)
  \/ (0 < pitch l < 180 /\ ClampRotation l = l).
Proof.
  unfold ClampRotation, pitch. cbv zeta.
  set (r := ToEulerAngles (GetRotation (transform l))).
  destruct (Qle_bool (Vector3.x r) 0) eqn:E1;
    destruct (Qle_bool 180 (Vector3.x r)) eqn:E2.
  - apply Qle_bool_iff in E1, E2. exfalso. lra.
  - apply Qle_bool_iff in E1. left. split; [exact E1 | reflexivity].
  - apply Qle_bool_iff in E2. right. left. split; [exact E2 | reflexivity].
  - apply Qle_bool_false in E1, E2. right. right.
    split; [split; assumption | reflexivity].
Qed.


End Clamp.



End LightSpec.

(** * More properties of the Light component *)

Module LightExtra.
Import Light.

(** Reads members through assignments. *)
Ltac members :=
  cbn [
       m_lightType m_castShadows m_range m_intensity m_angle m_color m_bias
       m_isDirty m_shadowMapSplits m_shadowMapCount m_shadowMapResolution
       m_shadowMaps m_frustums m_shadowMapsProjectionMatrix m_viewMatrix
       m_lastPosLight m_lastRotLight m_lastPosCamera transform rhi_created
       set_m_lightType set_m_castShadows set_m_isDirty set_m_shadowMapCount
       set_m_shadowMapResolution set_m_shadowMaps set_m_frustums
       set_m_shadowMapsProjectionMatrix set_m_viewMatrix set_m_lastPosLight
       set_m_lastRotLight set_m_lastPosCamera set_transform set_rhi_created
       set_m_range set_m_intensity set_m_angle set_m_color set_m_bias
       set_m_shadowMapSplits].

Ltac members_in H :=
  cbn [
       m_lightType m_castShadows m_range m_intensity m_angle m_color m_bias
       m_isDirty m_shadowMapSplits m_shadowMapCount m_shadowMapResolution
       m_shadowMaps m_frustums m_shadowMapsProjectionMatrix m_viewMatrix
       m_lastPosLight m_lastRotLight m_lastPosCamera transform rhi_created
       set_m_lightType set_m_castShadows set_m_isDirty set_m_shadowMapCount
       set_m_shadowMapResolution set_m_shadowMaps set_m_frustums
       set_m_shadowMapsProjectionMatrix set_m_viewMatrix set_m_lastPosLight
       set_m_lastRotLight set_m_lastPosCamera set_transform set_rhi_created
       set_m_range set_m_intensity set_m_angle set_m_color set_m_bias
       set_m_shadowMapSplits] in H.

Section Splits.
Context {ML : MatrixLib} {QL : QuaternionLib} {FL : FrustumLib}.
Local Open Scope nat_scope.

Lemma vector_assign_some {A : Type} (m : A) : forall (v : list A) i,
  i < length v -> exists v', vector_assign i m v = Some v'.
Proof.
  induction v as [|a v IH]; intros i H; cbn in H; [lia |].
  destruct i as [|i]; cbn.
  - eexists. reflexivity.
  - destruct (IH i) as (v' & E); [lia |]. rewrite E. eexists. reflexivity.
Qed.

Lemma vector_assign_nth {A : Type} (m d : A) : forall (v : list A) i v',
  vector_assign i m v = Some v' ->
  nth i v' d = m /\ forall j, j <> i -> nth j v' d = nth j v d.
Proof.
  induction v as [|a v IH]; intros i v' H; destruct i as [|i]; cbn in H;
    try discriminate.
  - injection H as <-. split; [reflexivity |].
    intros [|j] Hj; [contradiction | reflexivity].
  - destruct (vector_assign i m v) as [r|] eqn:E; [| discriminate].
    injection H as <-. destruct (IH i r E) as (H1 & H2).
    split; [exact H1 |].
    intros [|j] Hj; [reflexivity |]. cbn. apply H2. lia.
Qed.

(** X1: Writing a split and reading it back.  An index within the table is
    written and read back, and the other splits are as before; an index past
    the end writes nothing and reads 0.  The table keeps its length. *)
Theorem ShadowMap_split_roundtrip (split : Q) (index : nat) (l : t) :
  length (m_shadowMapSplits (ShadowMap_SetSplit split index l))
  = length (m_shadowMapSplits l)
  /\ (if index <? length (m_shadowMapSplits l)
      then ShadowMap_GetSplit index (ShadowMap_SetSplit split index l) = split
      else ShadowMap_SetSplit split index l = l
           /\ ShadowMap_GetSplit index l = 0%Q)
  /\ forall j, j <> index ->
       ShadowMap_GetSplit j (ShadowMap_SetSplit split index l)
       = ShadowMap_GetSplit j l.
Proof.
  unfold ShadowMap_SetSplit, ShadowMap_GetSplit.
  destruct (length (m_shadowMapSplits l) <=? index) eqn:E.
  - apply Nat.leb_le in E.
    assert (F : (index <? length (m_shadowMapSplits l)) = false)
      by (apply Nat.ltb_ge; exact E).
    rewrite F. repeat split.
  - apply Nat.leb_gt in E.
    assert (F : (index <? length (m_shadowMapSplits l)) = true)
      by (apply Nat.ltb_lt; exact E).
    rewrite F.
    destruct (vector_assign_some split _ E) as (v & Ev). rewrite Ev.
    pose proof (LightSpec.vector_assign_length _ _ _ Ev) as Hlen.
    destruct (vector_assign_nth split 0%Q _ _ Ev) as (Hn & Ho).
    cbn [m_shadowMapSplits set_m_shadowMapSplits]. rewrite Hlen.
    split; [reflexivity |]. split.
    + assert (G : (length (m_shadowMapSplits l) <=? index) = false)
        by (apply Nat.leb_gt; exact E).
      rewrite G. exact Hn.
    + intros j Hj. destruct (length (m_shadowMapSplits l) <=? j);
        [reflexivity | apply Ho, Hj].
Qed.

End Splits.

(** ** Ticks *)

Section Ticks.
Context {ML : MatrixLib} {QL : QuaternionLib} {FL : FrustumLib}.
Local Open Scope nat_scope.

Lemma vector_assign_last {A : Type} (m d : A) : forall v : list A,
  vector_assign (length v) m (v ++ [d]) = Some (v ++ [m]).
Proof.
  induction v as [|a v IH]; cbn; [reflexivity |]. rewrite IH. reflexivity.
Qed.

(** One round of the projection loop, and the whole loop: the matrices of
    the cascades are appended in order, nothing else changes, and no write
    is out of bounds. *)
Lemma projection_round (i : nat) (l : t) :
  length (m_shadowMapsProjectionMatrix l) = i ->
  ShadowMap_ComputeProjectionMatrix i
    (set_m_shadowMapsProjectionMatrix
       (m_shadowMapsProjectionMatrix l ++ [Matrix_default]) l)
  = Some (set_m_shadowMapsProjectionMatrix
            (m_shadowMapsProjectionMatrix l ++ [cascade_projection i l]) l).
Proof.
  intros <-. unfold ShadowMap_ComputeProjectionMatrix, cascade_projection.
  cbn [m_lastPosCamera m_viewMatrix m_shadowMapResolution
       m_shadowMapsProjectionMatrix set_m_shadowMapsProjectionMatrix].
  destruct (snapped_box _ _ _) as [mn mx]. cbn [fst snd].
  rewrite vector_assign_last. reflexivity.
Qed.

Lemma projection_loop_result (n : nat) : forall (i : nat) (l : t),
  length (m_shadowMapsProjectionMatrix l) = i ->
  projection_loop n i l
  = Some (set_m_shadowMapsProjectionMatrix
            (m_shadowMapsProjectionMatrix l
             ++ map (fun k => cascade_projection k l) (seq i n)) l).
Proof.
  induction n as [|n IH]; intros i l Hi; cbn [projection_loop seq map].
  - rewrite app_nil_r. destruct l. reflexivity.
  - rewrite (projection_round l Hi).
    rewrite IH by (cbn; rewrite length_app; cbn; lia).
    cbn [m_shadowMapsProjectionMatrix set_m_shadowMapsProjectionMatrix].
    rewrite <- app_assoc. reflexivity.
Qed.

(** X2: [OnTick] faults in one case only: the light is directional and the world
    has no main camera with a Camera component.  In particular the loop
    that rebuilds the projection matrices never writes out of bounds. *)
Theorem OnTick_faults_only_without_camera (w : World) (l : t) :
  OnTick w l = None
  <-> m_lightType l = LightType_Directional /\ GetMainCamera w = None.
Proof.
  unfold OnTick.
  destruct (LightType_eqb (m_lightType l) LightType_Directional) eqn:Ety;
    cbn [negb].
  2:{ split; [discriminate |]. intros (H & _). rewrite H in Ety.
      discriminate. }
  assert (Et : m_lightType l = LightType_Directional)
    by (destruct (m_lightType l); try discriminate; reflexivity).
  destruct (GetMainCamera w) as [camera|].
  2:{ split; auto. }
  split; [| intros (_ & H); discriminate].
  match goal with
  | |- context [Vector3.neqb (m_lastPosCamera ?x) _] => set (l1 := x)
  end.
  destruct (Vector3.neqb (m_lastPosCamera l1) (cam_position camera)).
  - rewrite projection_loop_result by reflexivity.
    destruct (negb _); discriminate.
  - destruct (negb _); discriminate.
Qed.

(** The light after the first dirty check of [OnTick]. *)
Lemma after_dirty_check (l : t) :
  let l1 :=
    if Vector3.neqb (m_lastPosLight l) (GetPosition (transform l))
       || Quaternion_neqb (m_lastRotLight l) (GetRotation (transform l))
    then
      set_m_isDirty true
        (ComputeViewMatrix
           (ClampRotation
              (set_m_lastRotLight (GetRotation (transform l))
                 (set_m_lastPosLight (GetPosition (transform l)) l))))
    else l in
  m_lastPosCamera l1 = m_lastPosCamera l
  /\ m_shadowMapCount l1 = m_shadowMapCount l
  /\ m_frustums l1 = m_frustums l
  /\ (m_isDirty l = true -> m_isDirty l1 = true).
Proof.
  cbv zeta. destruct (_ || _); [| auto].
  unfold ComputeViewMatrix, ClampRotation.
  repeat match goal with |- context [if ?c then _ else _] =>
    destruct c end; cbn; auto.
Qed.

(** Names the light after the first dirty check [l1] and recalls what the
    check keeps. *)
Ltac name_checked l l1 K :=
  match goal with
  | H : context [Vector3.neqb (m_lastPosCamera ?x) _] |- _ =>
      set (l1 := x) in *
  | |- context [Vector3.neqb (m_lastPosCamera ?x) _] => set (l1 := x) in *
  end;
  assert (K : m_lastPosCamera l1 = m_lastPosCamera l
              /\ m_shadowMapCount l1 = m_shadowMapCount l
              /\ m_frustums l1 = m_frustums l
              /\ (m_isDirty l = true -> m_isDirty l1 = true))
    by exact (after_dirty_check l).

(** X3: After a tick that saw the camera move, the light remembers the camera
    position, has one projection matrix for each cascade, and the matrix of
    a cascade is the off-center orthographic projection of its texel-snapped
    box; an index past the cascades reads the identity. *)
Theorem OnTick_projections (w : World) (camera : Camera) (l l' : t) :
  m_lightType l = LightType_Directional ->
  GetMainCamera w = Some camera ->
  Vector3.neqb (m_lastPosCamera l) (cam_position camera) = true ->
  OnTick w l = Some l' ->
  m_lastPosCamera l' = cam_position camera
  /\ length (m_shadowMapsProjectionMatrix l') = m_shadowMapCount l
  /\ forall index,
       ShadowMap_GetProjectionMatrix index l'
       = if index <? m_shadowMapCount l
         then cascade_projection index l'
         else Matrix_Identity.
Proof.
  intros Et Ec Hmoved H. unfold OnTick in H. rewrite Et, Ec in H.
  cbn [LightType_eqb negb] in H.
  name_checked l l1 K.
  destruct K as (K1 & K2 & _ & _).
  rewrite K1, Hmoved in H.
  rewrite projection_loop_result in H by reflexivity.
  members_in H. cbn [negb] in H. rewrite K2 in H. injection H as <-. members.
  split; [reflexivity |]. split; [rewrite length_map, length_seq; reflexivity |].
  intros index. unfold ShadowMap_GetProjectionMatrix. members.
  rewrite length_map, length_seq.
  destruct (m_shadowMapCount l <=? index) eqn:E.
  - apply Nat.leb_le in E.
    assert (F : (index <? m_shadowMapCount l) = false)
      by (apply Nat.ltb_ge; exact E).
    rewrite F. reflexivity.
  - apply Nat.leb_gt in E.
    assert (F : (index <? m_shadowMapCount l) = true)
      by (apply Nat.ltb_lt; exact E).
    rewrite F.
    rewrite (nth_indep _ Matrix_Identity
               (cascade_projection 0
                  (set_m_shadowMapsProjectionMatrix []
                     (set_m_lastPosCamera (cam_position camera) l1))))
      by (rewrite length_map, length_seq; exact E).
    rewrite (map_nth (fun k => cascade_projection k _) (seq 0 _) 0 index).
    rewrite seq_nth by exact E. reflexivity.
Qed.

Lemma frustum_loop_nth (farPlane : Q) (l : t) :
  forall (frustums : list Frustum) (k i : nat),
  nth_error (frustum_loop farPlane l k frustums) i
  = option_map (constructed farPlane l (k + i)) (nth_error frustums i).
Proof.
  induction frustums as [|f rest IH]; intros k i; cbn [frustum_loop].
  - destruct i; reflexivity.
  - destruct i as [|i]; cbn [nth_error option_map].
    + rewrite Nat.add_0_r. reflexivity.
    + rewrite IH. replace (S k + i) with (k + S i) by lia. reflexivity.
Qed.

Lemma ShadowMap_Create_loop_dirty (n : nat) : forall l : t,
  m_isDirty (ShadowMap_Create_loop n l) = m_isDirty l.
Proof.
  induction n as [|n IH]; intros l; cbn [ShadowMap_Create_loop];
    [reflexivity |].
  rewrite IH. reflexivity.
Qed.

Lemma ShadowMap_Create_dirty (w : World) (force : bool) (l : t) :
  m_isDirty (ShadowMap_Create w force l) = m_isDirty l.
Proof.
  unfold ShadowMap_Create. destruct (negb force && _); [reflexivity |].
  cbv zeta. rewrite ShadowMap_Create_loop_dirty.
  destruct (m_lightType (ShadowMap_Destroy l)); reflexivity.
Qed.

Lemma OnTick_dirty (w : World) (l l' : t) :
  m_isDirty l = true -> OnTick w l = Some l' -> m_isDirty l' = true.
Proof.
  intros Hd H. unfold OnTick in H.
  destruct (negb _); [injection H as <-; exact Hd |].
  destruct (GetMainCamera w) as [camera|]; [| discriminate].
  name_checked l l1 K.
  destruct K as (_ & _ & _ & K). specialize (K Hd).
  destruct (Vector3.neqb (m_lastPosCamera l1) (cam_position camera)).
  - rewrite projection_loop_result in H by reflexivity.
    members_in H. cbn [negb] in H. injection H as <-. reflexivity.
  - rewrite K in H. cbn [negb] in H. injection H as <-. exact K.
Qed.

Lemma run_dirty : forall (ops : list (World * Op)) (l l' : t),
  m_isDirty l = true -> run ops l = Some l' -> m_isDirty l' = true.
Proof.
  induction ops as [|[w op] ops IH]; intros l l' Hd H; cbn [run] in H.
  - injection H as <-. exact Hd.
  - destruct (apply w op l) as [l1|] eqn:E; [| discriminate].
    apply (IH l1 l'); [| exact H].
    destruct op; cbn [apply] in E.
    + injection E as <-. unfold SetLightType.
      rewrite ShadowMap_Create_dirty. reflexivity.
    + injection E as <-. unfold OnInitialize.
      rewrite ShadowMap_Create_dirty. exact Hd.
    + injection E as <-. unfold OnStart.
      rewrite ShadowMap_Create_dirty. exact Hd.
    + eapply OnTick_dirty; eassumption.
    + injection E as <-. unfold SetCastShadows. cbv zeta.
      destruct (m_castShadows _); [exact Hd |].
      rewrite ShadowMap_Create_dirty. exact Hd.
    + injection E as <-. exact Hd.
Qed.

(** X4: None of the operations clears the dirty flag, which the constructor
    sets: after any run it is set.  So every tick of a directional light
    that finds a camera constructs every frustum again, from the view matrix
    and the projection matrices the tick leaves, whether or not the light or
    the camera has moved. *)
Theorem every_tick_constructs_the_frustums
  (tr : Transform) (n count0 resolution0 : nat) (view0 : Matrix)
  (pos0 : Vector3.t) (rot0 : Quaternion) (cam0 : Vector3.t)
  (ops : list (World * Op)) (l : t) (w : World) (camera : Camera) :
  run ops (Light tr n count0 resolution0 view0 pos0 rot0 cam0) = Some l ->
  m_lightType l = LightType_Directional ->
  GetMainCamera w = Some camera ->
  m_isDirty l = true
  /\ exists l',
       OnTick w l = Some l'
       /\ forall i,
            nth_error (m_frustums l') i
            = option_map (constructed (GetFarPlane camera) l' i)
                         (nth_error (m_frustums l) i).
Proof.
  intros Hrun Et Ec.
  assert (Hd : m_isDirty l = true)
    by (eapply run_dirty; [| exact Hrun]; reflexivity).
  split; [exact Hd |].
  unfold OnTick. rewrite Et, Ec. cbn [LightType_eqb negb].
  name_checked l l1 K.
  destruct K as (_ & _ & Kf & K). specialize (K Hd).
  destruct (Vector3.neqb (m_lastPosCamera l1) (cam_position camera)).
  - rewrite projection_loop_result by reflexivity.
    members. cbn [negb].
    eexists. split; [reflexivity |]. intros i.
    members. rewrite frustum_loop_nth, Kf. reflexivity.
  - rewrite K. cbn [negb].
    eexists. split; [reflexivity |]. intros i.
    members. rewrite frustum_loop_nth, Kf. reflexivity.
Qed.

End Ticks.

(** ** Start after initialization *)

Section Lifecycle.
Context {ML : MatrixLib} {QL : QuaternionLib} {FL : FrustumLib}.

(** X5: Once the shadow maps exist, [OnStart] keeps them: after [OnInitialize],
    or after an assignment of the light type, [OnStart] changes nothing,
    whatever the resolution setting has become in the meantime. *)
Theorem OnStart_keeps_the_shadow_maps
  (w w' : World) (type : LightType) (l : t) :
  OnStart w' (OnInitialize w l) = OnInitialize w l
  /\ OnStart w' (SetLightType w type l) = SetLightType w type l.
Proof.
  assert (G : forall l0, OnStart w' (ShadowMap_Create w true l0)
                         = ShadowMap_Create w true l0).
  { intros l0.
    pose proof (LightSpec.ShadowMap_Create_force w l0) as H. cbv zeta in H.
    destruct H as (Hm & _).
    unfold OnStart. unfold ShadowMap_Create at 1. cbn [negb andb].
    destruct (m_shadowMaps (ShadowMap_Create w true l0)); [| reflexivity].
    cbn in Hm. destruct (m_lightType l0); discriminate. }
  split; apply G.
Qed.

(** ** Serialization *)

(** X6: With a numbering that tells the light types apart, what [Serialize]
    writes is what [Deserialize] reads: it takes exactly the seven values,
    leaves the rest of the stream, and the light it returns has the type,
    the shadow flag, the color, the range, the intensity, the angle and the
    bias of the light that was written, with the shadow maps of that
    type. *)
Theorem Deserialize_Serialize (code : LightType -> Z) (w : World)
  (written target : t) (rest : FileStream) :
  (forall a b, code a = code b -> a = b) ->
  exists read : t,
    Deserialize w code (Serialize code [] written ++ rest) target
    = Some (read, rest)
    /\ serialized_members read = serialized_members written
    /\ length (m_shadowMaps read) = cascade_count (m_lightType written).
Proof.
  intros Hinj.
  assert (D : LightType_of_int code (code (m_lightType written))
              = Some (m_lightType written)).
  { assert (N : forall a b, a <> b -> (code a =? code b)%Z = false).
    { intros a b Hab. apply Z.eqb_neq. intros E. apply Hab, Hinj, E. }
    unfold LightType_of_int.
    destruct (m_lightType written);
      rewrite ?N by discriminate; rewrite Z.eqb_refl; reflexivity. }
  unfold Serialize, Deserialize, FileStream_Write. cbn [app FileStream_ReadInt].
  rewrite D.
  cbn [FileStream_ReadBool FileStream_ReadVector4 FileStream_ReadFloat].
  eexists. split; [reflexivity |].
  pose proof (LightSpec.ShadowMap_Create_force w
                (set_m_isDirty true
                   (set_m_lightType (m_lightType written) target))) as H.
  cbv zeta in H. destruct H as (Hm & _ & _ & _ & Ht & _).
  unfold serialized_members, SetLightType. members.
  rewrite Ht, Hm. members. split; reflexivity.
Qed.

(** ** Clamping and snapping twice *)

(** X7: Where the quaternion class reads a pitch strictly between 0 and 180
    degrees back from the two rotations the clamp assigns, clamping a
    clamped rotation changes nothing. *)
Theorem ClampRotation_twice (l : t) :
  let rotation := ToEulerAngles (GetRotation (transform l)) in
  let low :=
    FromEulerAngles 179 (Vector3.y rotation) (Vector3.z rotation) in
  let high :=
    FromEulerAngles 1 (Vector3.y rotation) (Vector3.z rotation) in
  0 < Vector3.x (ToEulerAngles low) < 180 ->
  0 < Vector3.x (ToEulerAngles high) < 180 ->
  ClampRotation (ClampRotation l) = ClampRotation l.
Proof.
  intros rotation low high Hl Hh.
  pose proof (LightSpec.ClampRotation_cases l) as H. cbv zeta in H.
  fold rotation in H. fold low in H. fold high in H.
  destruct H as [[P E] | [[P E] | [P E]]]; rewrite E.
  - pose proof (LightSpec.ClampRotation_cases
                  (set_transform (SetRotation low (transform l)) l)) as G.
    cbv zeta in G.
    destruct G as [[P' _] | [[P' _] | [_ G]]]; [| | exact G];
      exfalso; unfold pitch in P'; cbn in P'; lra.
  - pose proof (LightSpec.ClampRotation_cases
                  (set_transform (SetRotation high (transform l)) l)) as G.
    cbv zeta in G.
    destruct G as [[P' _] | [[P' _] | [_ G]]]; [| | exact G];
      exfalso; unfold pitch in P'; cbn in P'; lra.
  - exact E.
Qed.

End Lifecycle.

(** X8: In single precision a snapped coordinate is not always at rest: at
    a resolution of 1000 the texel of the first cascade is the float nearest
    to 0.02; the coordinate -74.75 is snapped to a float just below a
    multiple of the texel, and snapping that one moves it a texel further
    down. *)
Theorem snap_twice_moves_again :
  let f := fWorldUnitsPerTexel (cascade_extents 0) 1000 in
  let v := Vector3.mk (- (299 # 4)) 0 0 in
  f == 5368709 # 268435456
  /\ Vector3.x (snap f v) == - (9798943 # 131072)
  /\ Vector3.x (snap f (snap f v)) == - (2450391 # 32768)
  /\ Vector3.x (snap f (snap f v)) < Vector3.x (snap f v).
Proof. vm_compute. repeat split. Qed.

(** X30: In single precision the snap does not keep the side of the box.  At
    a resolution of 80 the first cascade is 80 texels of a quarter unit
    wide; around the center x = 6 - 2^-21 the sum [center + extents] rounds
    up to 16 while [center - extents] is exact, and the snapped box is 81
    texels wide. *)
Theorem snapped_box_side_changes :
  let center := Vector3.mk (12582911 # 2097152) 0 0 in
  let f := fWorldUnitsPerTexel (cascade_extents 0) 80 in
  let outer := snapped_box 0 80 center in
  f == 1 # 4
  /\ Vector3.x (fst outer) == - (17 # 4)
  /\ Vector3.x (snd outer) == 16
  /\ Vector3.x (snd outer) - Vector3.x (fst outer) == 81 * f
  /\ 2 * cascade_extents 0 == 80 * f.
Proof. vm_compute. repeat split. Qed.

(** The theorems on the sample light, made directional. *)

Lemma OnTick_projections_witness :
  let l := SetLightType Sample.world LightType_Directional Sample.fresh_light
  in
  exists l' : t,
    OnTick Sample.world l = Some l'
    /\ m_lastPosCamera l' = Vector3.mk 0 1 (-5)
    /\ length (m_shadowMapsProjectionMatrix l') = 3%nat
    /\ forall index,
         ShadowMap_GetProjectionMatrix index l'
         = if (index <? 3)%nat then cascade_projection index l'
           else Matrix_Identity.
Proof.
  cbv zeta. eexists. split; [vm_compute; reflexivity |].
  apply (@OnTick_projections Sample.LabelMatrix Sample.EulerQuaternion
           Sample.UnitFrustum Sample.world
           {| cam_position := Vector3.mk 0 1 (-5); GetFarPlane := 1000 |}
           (SetLightType Sample.world LightType_Directional
              Sample.fresh_light));
    reflexivity.
Defined.

Lemma every_tick_constructs_the_frustums_witness :
  let l := SetLightType Sample.world LightType_Directional Sample.fresh_light
  in
  m_isDirty l = true
  /\ exists l' : t,
       OnTick Sample.world l = Some l'
       /\ forall i,
            nth_error (m_frustums l') i
            = option_map (constructed 1000 l' i) (nth_error (m_frustums l) i).
Proof.
  apply (@every_tick_constructs_the_frustums Sample.LabelMatrix
           Sample.EulerQuaternion Sample.UnitFrustum Sample.tilted
           0%nat 0%nat 0%nat 0%Z Vector3.Zero Vector3.Zero Vector3.Zero
           [(Sample.world, OpSetLightType LightType_Directional)]
           (SetLightType Sample.world LightType_Directional
              Sample.fresh_light)
           Sample.world
           {| cam_position := Vector3.mk 0 1 (-5); GetFarPlane := 1000 |});
    reflexivity.
Defined.

Lemma Deserialize_Serialize_witness :
  let written :=
    SetLightType Sample.world LightType_Spot Sample.fresh_light in
  exists read : t,
    Deserialize Sample.world sample_code
      (Serialize sample_code [] written ++ [Stream_int 7]) Sample.fresh_light
    = Some (read, [Stream_int 7])
    /\ serialized_members read = serialized_members written
    /\ length (m_shadowMaps read) = 1%nat.
Proof.
  apply (@Deserialize_Serialize Sample.LabelMatrix Sample.EulerQuaternion
           Sample.UnitFrustum sample_code Sample.world
           (SetLightType Sample.world LightType_Spot Sample.fresh_light)
           Sample.fresh_light [Stream_int 7]).
  intros a b; destruct a, b; cbn; intros H; (reflexivity || discriminate).
Defined.

(** The light pitched by -10 degrees, with rotations that keep the pitch
    within [-90, 90]. *)
Lemma ClampRotation_twice_witness :
  ClampRotation (ClampRotation Sample.folded_light)
  = ClampRotation Sample.folded_light.
Proof.
  apply (@ClampRotation_twice Sample.LabelMatrix Sample.FoldedQuaternion
           Sample.UnitFrustum Sample.folded_light);
    vm_compute; split; reflexivity.
Defined.

End LightExtra.

(** * Properties of the Renderer *)

Module RendererSpec.
Import Renderer.

Section Frame.
Context {ML : MatrixLib} {FR : FrustrumLib}.

(** ** Resolution *)

(** C9: [SetResolution(0, h)] and [SetResolution(w, 0)] return the renderer
    they were given: the stored resolution, the G-buffer, the full-screen
    quad, both render textures and everything else are as before. *)
Theorem SetResolution_zero_changes_nothing (w h : Z) (r : t) :
  SetResolution 0 h r = r /\ SetResolution w 0 r = r.
Proof.
  unfold SetResolution. split.
  - reflexivity.
  - rewrite Z.eqb_refl, orb_true_r. reflexivity.
Qed.

(** For comparison: with a width and a height other than 0 the four render
    targets are made again, at the new size. *)
Lemma SetResolution_recreates (w h : Z) (r : t) :
  w <> 0%Z -> h <> 0%Z ->
  let r' := SetResolution w h r in
  RESOLUTION r' = (w, h)
  /\ m_GBuffer r' = {| stamp := created r; width := w; height := h |}
  /\ m_renderTexPong r'
     = {| stamp := 3 + created r; width := w; height := h |}
  /\ created r' = (4 + created r)%nat.
Proof.
  intros Hw Hh. unfold SetResolution.
  apply Z.eqb_neq in Hw, Hh. rewrite Hw, Hh. cbn. repeat split.
Qed.

(** ** Culling *)

Lemma Float_abs_Qabs (a : Q) : Float.abs a == Qabs a.
Proof.
  unfold Float.abs, Float.ltb.
  destruct (Qle_bool 0 a) eqn:E; cbn.
  - apply Qle_bool_iff in E. symmetry. apply Qabs_pos. exact E.
  - symmetry. apply Qabs_neg.
    apply Qlt_le_weak, Qnot_le_lt. intros C.
    apply Qle_bool_iff in C. congruence.
Qed.

Lemma Float_max_Qmax (a b : Q) : Float.max a b == Qmax a b.
Proof.
  unfold Float.max, Float.ltb.
  destruct (Qle_bool b a) eqn:E; cbn.
  - apply Qle_bool_iff in E. symmetry. apply Q.max_l. exact E.
  - symmetry. apply Q.max_r.
    apply Qlt_le_weak, Qnot_le_lt. intros C.
    apply Qle_bool_iff in C. congruence.
Qed.

Lemma bounding_radius_is_max (extent : Vector3.t) :
  bounding_radius extent
  == Qmax (Qmax (Qabs (Vector3.x extent)) (Qabs (Vector3.y extent)))
          (Qabs (Vector3.z extent)).
Proof.
  unfold bounding_radius.
  rewrite Float_max_Qmax, Float_max_Qmax, !Float_abs_Qabs. reflexivity.
Qed.

(** C7: [IsInViewFrustrum] tests the sphere around the bounding center whose
    radius is the largest absolute component of the extent, and returns false
    exactly when the frustrum finds that sphere outside.  The planes are
    constructed before the test if the stored projection or view matrix
    differs from the renderer's, from the renderer's matrices and far plane;
    otherwise nothing is constructed and the renderer is unchanged. *)
Theorem IsInViewFrustrum_sphere_test (center extent : Vector3.t) (r : t) :
  let result := fst (IsInViewFrustrum center extent r) in
  let r' := snd (IsInViewFrustrum center extent r) in
  bounding_radius extent
  == Qmax (Qmax (Qabs (Vector3.x extent)) (Qabs (Vector3.y extent)))
          (Qabs (Vector3.z extent))
  /\ (result = false <->
      Frustrum_CheckSphere center (bounding_radius extent) (m_frustrum r')
      = Outside)
  /\ if frustrum_is_stale r
     then log r' = log r ++ [Frustrum_ConstructFrustum_call (m_farPlane r)]
          /\ Frustrum_GetProjectionMatrix (m_frustrum r') = mProjection r
          /\ Frustrum_GetViewMatrix (m_frustrum r') = mView r
          /\ Frustrum_planes (m_frustrum r')
             = construct_planes (mView r) (mProjection r) (m_farPlane r)
     else r' = r.
Proof.
  cbv zeta. split; [apply bounding_radius_is_max |].
  unfold IsInViewFrustrum.
  destruct (frustrum_is_stale r); cbv zeta;
    match goal with
    | |- context [match ?c with Outside => _ | _ => _ end] =>
        destruct c eqn:E
    end; cbn [fst snd]; rewrite ?E;
    (split; [split; (discriminate || reflexivity) |]);
    cbn; repeat split.
Qed.

(** ** The order of the passes *)

Lemma steps_app (a b : list Event) : steps (a ++ b) = steps a ++ steps b.
Proof. unfold steps. apply flat_map_app. Qed.

Lemma logged_refl (r : t) : logged [] r r.
Proof.
  repeat split. exists []. rewrite app_nil_r. split; reflexivity.
Qed.

Lemma logged_trans (a b : list Step) (r1 r2 r3 : t) :
  logged a r1 r2 -> logged b r2 r3 -> logged (a ++ b) r1 r3.
Proof.
  intros (C1 & R1 & e1 & L1 & S1) (C2 & R2 & e2 & L2 & S2).
  split; [congruence |]. split; [congruence |].
  exists (e1 ++ e2). rewrite L2, L1, steps_app, S1, S2, app_assoc.
  split; reflexivity.
Qed.

Lemma quiet_trans (r1 r2 r3 : t) :
  logged [] r1 r2 -> logged [] r2 r3 -> logged [] r1 r3.
Proof. apply (@logged_trans [] []). Qed.

Lemma logged_emit (ev : Event) (r : t) : logged (step_of ev) r (emit ev r).
Proof.
  split; [reflexivity |]. split; [reflexivity |].
  exists [ev]. split; [reflexivity |]. cbn. apply app_nil_r.
Qed.

Lemma ready_logged (ss : list Step) (r r' : t) :
  logged ss r r' -> ready r -> ready r'.
Proof. intros (_ & R & _) H. unfold ready. rewrite R. exact H. Qed.

(** A loop whose rounds are quiet and do not fault is quiet and does not
    fault. *)
Lemma for_each_quiet {A : Type} (body : A -> t -> option t)
  (items : list A) :
  (forall a s, In a items -> ready s ->
     exists s', body a s = Some s' /\ logged [] s s') ->
  forall s, ready s ->
    exists s', for_each body items s = Some s' /\ logged [] s s'.
Proof.
  induction items as [|a rest IH]; intros Hbody s Hs; cbn [for_each].
  - exists s. split; [reflexivity | apply logged_refl].
  - destruct (Hbody a s (or_introl eq_refl) Hs) as (s1 & E1 & Q1).
    rewrite E1. cbn [bind].
    destruct (IH (fun a s H => Hbody a s (or_intror H)) s1
                 (ready_logged Q1 Hs)) as (s2 & E2 & Q2).
    exists s2. split; [exact E2 | eapply quiet_trans; eassumption].
Qed.

Lemma IsInViewFrustrum_quiet (center extent : Vector3.t) (r : t) :
  logged [] r (snd (IsInViewFrustrum center extent r)).
Proof.
  unfold IsInViewFrustrum.
  destruct (frustrum_is_stale r); cbv zeta;
    match goal with
    | |- context [match ?c with Outside => _ | _ => _ end] => destruct c
    end; cbn [snd];
    try apply logged_refl;
    (split; [reflexivity |]; split; [reflexivity |];
     eexists; split; [reflexivity | reflexivity]).
Qed.

Lemma depth_object_quiet (light : Light) (cascadeIndex : nat)
  (gameObject : GameObject) (r : t) :
  has_render_components gameObject = true ->
  exists r', depth_object light cascadeIndex gameObject r = Some r'
             /\ logged [] r r'.
Proof.
  unfold has_render_components, depth_object. intros H.
  destruct (GameObject_MeshFilter gameObject) as [meshFilter|];
    [| discriminate].
  destruct (GameObject_MeshRenderer gameObject) as [meshRenderer|];
    [| discriminate].
  cbn [bind].
  destruct (MeshFilter_GetMesh meshFilter) as [mesh|];
    [| eexists; split; [reflexivity | apply logged_refl]].
  destruct (GameObject_Skybox gameObject);
    [eexists; split; [reflexivity | apply logged_refl] |].
  cbn [bind].
  destruct (MeshRenderer_GetCastShadows meshRenderer); cbn [negb];
    [| eexists; split; [reflexivity | apply logged_refl]].
  destruct (MeshFilter_SetBuffers meshFilter);
    (eexists; split; [reflexivity |]).
  - eapply quiet_trans; [apply (logged_emit MeshFilter_SetBuffers_call) |].
    apply (logged_emit (DepthShader_Render _ _ _ _)).
  - apply (logged_emit MeshFilter_SetBuffers_call).
Qed.

Lemma DirectionalLightDepthPass_logged (light : Light) (r : t) :
  m_directionalLight r = Some light -> ready r ->
  exists r', DirectionalLightDepthPass r = Some r'
             /\ logged [StepShadowDepthPass] r r'.
Proof.
  intros Hl Hr. unfold DirectionalLightDepthPass.
  set (r1 := emit (Graphics_SetCullMode CullFront)
                  (emit (Call M_DirectionalLightDepthPass) r)).
  assert (L1 : logged [StepShadowDepthPass] r r1).
  { apply (@logged_trans [StepShadowDepthPass] [] r
             (emit (Call M_DirectionalLightDepthPass) r) r1).
    - apply (logged_emit (Call M_DirectionalLightDepthPass)).
    - apply (logged_emit (Graphics_SetCullMode CullFront)). }
  assert (E : m_directionalLight r1 = Some light) by exact Hl.
  cbv zeta. fold r1. rewrite E. cbn [bind].
  destruct (@for_each_quiet nat (depth_cascade light)
              (seq 0 (Light_GetCascadeCount light))) with (s := r1)
    as (r2 & E2 & Q2).
  - intros i s _ Hs. unfold depth_cascade.
    set (s1 := emit (Light_SetShadowMapAsRenderTarget i) s).
    assert (Q1 : logged [] s s1)
      by apply (logged_emit (Light_SetShadowMapAsRenderTarget i)).
    destruct (@for_each_quiet GameObject (depth_object light i)
                (m_renderables s1)) with (s := s1) as (s2 & F2 & G2).
    + intros go s' Hin Hs'. apply depth_object_quiet.
      pose proof (ready_logged Q1 Hs) as R1. unfold ready in R1.
      rewrite Forall_forall in R1. apply R1, Hin.
    + apply (ready_logged Q1 Hs).
    + exists s2. split; [exact F2 | eapply quiet_trans; eassumption].
  - apply (ready_logged L1 Hr).
  - exists r2. split; [exact E2 |].
    apply (@logged_trans [StepShadowDepthPass] [] r r1 r2); assumption.
Qed.

Lemma set_m_textures_quiet (v : list (option ShaderResourceView)) (r : t) :
  logged [] r (set_m_textures v r).
Proof.
  repeat split. exists []. rewrite app_nil_r. split; reflexivity.
Qed.

Lemma set_m_meshesRendered_quiet (v : Z) (r : t) :
  logged [] r (set_m_meshesRendered v r).
Proof.
  repeat split. exists []. rewrite app_nil_r. split; reflexivity.
Qed.

(** Peels the log entries and member assignments off the end of a quiet
    run. *)
Ltac peel :=
  cbv zeta;
  repeat match goal with
  | |- logged [] ?r ?r => apply logged_refl
  | |- logged [] ?r (emit ?ev ?r') =>
      apply (@quiet_trans r r' (emit ev r'));
      [| apply (logged_emit ev r')]
  | |- logged [] ?r (set_m_meshesRendered ?v ?r') =>
      apply (@quiet_trans r r' (set_m_meshesRendered v r'));
      [| apply set_m_meshesRendered_quiet]
  | |- logged [] ?r (set_m_textures ?v ?r') =>
      apply (@quiet_trans r r' (set_m_textures v r'));
      [| apply set_m_textures_quiet]
  end.

Lemma gbuffer_object_quiet (currentShader : ShaderVariation)
  (currentMaterial : Material) (gameObject : GameObject) (r : t) :
  has_render_components gameObject = true ->
  exists r', gbuffer_object currentShader currentMaterial gameObject r
             = Some r'
             /\ logged [] r r'.
Proof.
  unfold has_render_components, gbuffer_object. intros H.
  destruct (GameObject_MeshFilter gameObject) as [meshFilter|];
    [| discriminate].
  destruct (GameObject_MeshRenderer gameObject) as [meshRenderer|];
    [| discriminate].
  cbn [bind].
  destruct (MeshFilter_GetMesh meshFilter) as [mesh|];
    [| eexists; split; [reflexivity | apply logged_refl]].
  destruct (MeshRenderer_GetMaterial meshRenderer) as [material|];
    [| eexists; split; [reflexivity | apply logged_refl]].
  destruct (negb _);
    [eexists; split; [reflexivity | apply logged_refl] |].
  destruct (Float.ltb _ _);
    [eexists; split; [reflexivity | apply logged_refl] |].
  pose proof (IsInViewFrustrum_quiet (MeshFilter_GetCenter meshFilter)
                (MeshFilter_GetBoundingBox meshFilter) r) as Q.
  destruct (IsInViewFrustrum _ _ r) as [visible r1]. cbn [snd] in Q.
  destruct visible; cbn [negb];
    [| eexists; split; [reflexivity | exact Q]].
  destruct (MeshFilter_SetBuffers meshFilter);
    (eexists; split; [reflexivity |]); peel; exact Q.
Qed.

Lemma gbuffer_material_quiet (currentShader : ShaderVariation)
  (currentMaterial : Material) (r : t) :
  ready r ->
  exists r', gbuffer_material currentShader currentMaterial r = Some r'
             /\ logged [] r r'.
Proof.
  intros Hr. unfold gbuffer_material.
  destruct (negb _);
    [eexists; split; [reflexivity | apply logged_refl] |].
  cbv zeta.
  set (r1 := set_m_textures _ r).
  set (r2 := emit _ r1).
  assert (Q1 : logged [] r r1) by apply set_m_textures_quiet.
  assert (Q2 : logged [] r1 r2)
    by apply (logged_emit (ShaderVariation_SetResources _ _)).
  assert (R2 : ready r2) by (eapply ready_logged, ready_logged; eassumption).
  destruct (@for_each_quiet GameObject
              (gbuffer_object currentShader currentMaterial)
              (m_renderables r2)) with (s := r2) as (r3 & E3 & Q3).
  - intros go s Hin Hs. apply gbuffer_object_quiet.
    unfold ready in R2. rewrite Forall_forall in R2. apply R2, Hin.
  - exact R2.
  - rewrite E3. cbn [bind]. eexists. split; [reflexivity |].
    eapply quiet_trans; [exact Q1 |].
    eapply quiet_trans; [exact Q2 |].
    eapply quiet_trans; [exact Q3 |].
    apply set_m_textures_quiet.
Qed.

Lemma GBufferPass_logged (e : Engine) (r : t) :
  ready r ->
  exists r', GBufferPass e r = Some r' /\ logged [StepGeometryPass] r r'.
Proof.
  intros Hr. unfold GBufferPass.
  set (r1 := emit (Call M_GBufferPass) r).
  assert (L1 : logged [StepGeometryPass] r r1)
    by apply (logged_emit (Call M_GBufferPass)).
  destruct (@for_each_quiet ShaderVariation (gbuffer_shader e)
              (ShaderPool_GetAllShaders e)) with (s := r1)
    as (r2 & E2 & Q2).
  - intros sh s _ Hs. unfold gbuffer_shader.
    set (s1 := emit _ s).
    assert (Q1 : logged [] s s1)
      by apply (logged_emit (ShaderVariation_Set _)).
    destruct (@for_each_quiet Material (gbuffer_material sh)
                (MaterialPool_GetAllMaterials e)) with (s := s1)
      as (s2 & F2 & G2).
    + intros m s' _ Hs'. apply gbuffer_material_quiet, Hs'.
    + apply (ready_logged Q1 Hs).
    + exists s2. split; [exact F2 | eapply quiet_trans; eassumption].
  - apply (ready_logged L1 Hr).
  - exists r2. split; [exact E2 |].
    apply (@logged_trans [StepGeometryPass] [] r r1 r2); assumption.
Qed.

Lemma same_log_quiet (r r' : t) :
  m_camera r' = m_camera r -> m_renderables r' = m_renderables r ->
  log r' = log r -> logged [] r r'.
Proof.
  intros C R L. split; [exact C |]. split; [exact R |].
  exists []. rewrite app_nil_r. split; [exact L | reflexivity].
Qed.

Lemma Ping_quiet (r : t) : logged [] r (Ping r).
Proof. unfold Ping. peel. Qed.

Lemma Pong_quiet (r : t) : logged [] r (Pong r).
Proof. unfold Pong. peel. Qed.

Lemma DeferredPass_logged (e : Engine) (r : t) :
  logged [StepDeferredLightingPass] r (DeferredPass e r).
Proof.
  unfold DeferredPass.
  set (r1 := emit (Call M_DeferredPass) r).
  assert (L1 : logged [StepDeferredLightingPass] r r1)
    by apply (logged_emit (Call M_DeferredPass)).
  destruct (negb _); [exact L1 |].
  apply (@logged_trans [StepDeferredLightingPass] [] r r1); [exact L1 |].
  peel.
  eapply quiet_trans; [apply Ping_quiet |].
  apply same_log_quiet; destruct (m_skybox _); reflexivity.
Qed.

Lemma PostProcessing_logged (camera : Camera) (r : t) :
  m_camera r = Some camera ->
  exists r', PostProcessing r = Some r'
             /\ logged [StepPostProcessPass] r r'.
Proof.
  intros Hc. unfold PostProcessing. cbv zeta.
  set (r1 := emit (Call M_PostProcessing) r).
  set (r2 := Pong r1).
  set (r3 := emit (PostProcessShader_Render FXAA _) r2).
  set (r4 := emit Graphics_ResetRenderTarget r3).
  set (r5 := emit Graphics_ResetViewport r4).
  assert (L5 : logged [StepPostProcessPass] r r5).
  { apply (@logged_trans [StepPostProcessPass] [] r r1);
      [apply (logged_emit (Call M_PostProcessing)) |].
    unfold r5, r4, r3, r2. peel. apply Pong_quiet. }
  assert (E : m_camera r5 = Some camera).
  { destruct L5 as (C & _). rewrite C. exact Hc. }
  rewrite E. cbn [bind]. eexists. split; [reflexivity |].
  apply (@logged_trans [StepPostProcessPass] [] r r5); [exact L5 |].
  peel.
Qed.

Lemma Gizmos_logged (e : Engine) (camera : Camera) (r : t) :
  m_camera r = Some camera ->
  exists r', Gizmos e r = Some r' /\ logged [StepDebugPass] r r'.
Proof.
  intros Hc. unfold Gizmos. cbv zeta.
  set (r1 := emit (Call M_Gizmos) r).
  assert (L1 : logged [StepDebugPass] r r1)
    by apply (logged_emit (Call M_Gizmos)).
  destruct (m_lineRenderer r1) as [lineRenderer|];
    [| exists r1; split; [reflexivity | exact L1]].
  destruct (negb _); [exists r1; split; [reflexivity | exact L1] |].
  set (r2 := emit (LineRenderer_AddLineList _) r1).
  set (r3 := emit LineRenderer_SetBuffer r2).
  assert (L3 : logged [StepDebugPass] r r3).
  { apply (@logged_trans [StepDebugPass] [] r r1); [exact L1 |].
    unfold r3, r2. peel. }
  assert (E : m_camera r3 = Some camera).
  { destruct L3 as (C & _). rewrite C. exact Hc. }
  rewrite E. cbn [bind]. eexists. split; [reflexivity |].
  apply (@logged_trans [StepDebugPass] [] r r3); [exact L3 |].
  peel.
Qed.

(** What [AcquirePrerequisites] leaves behind when it does not fault. *)
Lemma AcquirePrerequisites_spec (e : Engine) (r : t) :
  main_camera_has_component e = true ->
  exists r',
    AcquirePrerequisites e r = Some r'
    /\ log r' = log r ++ [Call M_AcquirePrerequisites]
    /\ m_renderables r' = m_renderables r
    /\ m_renderedMeshesCount r' = m_renderedMeshesCount r
    /\ m_meshesRendered r' = m_meshesRendered r
    /\ match Scene_GetMainCamera e with
       | Some cameraObject =>
           m_camera r' = GameObject_Camera cameraObject
           /\ m_directionalLight r' = acquired_light r
       | None => m_camera r' = None /\ m_directionalLight r' = None
       end.
Proof.
  unfold main_camera_has_component, AcquirePrerequisites, acquired_light.
  intros H.
  destruct (Scene_GetMainCamera e) as [cameraObject|].
  - destruct (GameObject_Camera cameraObject) as [camera|] eqn:Ec;
      [| discriminate].
    destruct (Scene_GetSkybox e) as [skybox|];
      destruct (m_lightsDirectional r) as [|first rest] eqn:El;
      cbn; rewrite ?El, ?Ec; cbn;
      (eexists; split; [reflexivity |]); cbn; rewrite ?El; repeat split.
  - eexists. split; [reflexivity |]. cbn. repeat split.
Qed.

(** C1: a frame runs its steps in one order.  Provided the frame does not
    dereference a missing component (the main camera object, if any, has its
    Camera component; every renderable has a mesh filter and a mesh
    renderer), [Render] returns and the log grows as follows.  Without a
    main camera: the prerequisites, a clear to black, the present.  With a
    camera and no renderable: the prerequisites, a clear to the camera's
    clear color, the present.  Otherwise the steps are: prerequisites; the
    shadow-depth pass, only if a directional light was acquired and its
    shadow type is not [No_Shadows]; the geometry pass; the
    deferred-lighting pass; the post-process pass; the debug pass, only if
    the engine mode is [Editor_Idle]; the present. *)
Theorem Render_runs_the_passes_in_order (e : Engine) (r : t) :
  main_camera_has_component e = true ->
  ready r ->
  exists (r' : t) (evs : list Event),
    Render e r = Some r'
    /\ log r' = log r ++ evs
    /\ match Scene_GetMainCamera e with
       | None =>
           evs = [EMIT_SIGNAL SIGNAL_RENDER_START;
                  Call M_AcquirePrerequisites;
                  Graphics_Clear black;
                  Graphics_Present]
       | Some cameraObject =>
           match GameObject_Camera cameraObject, m_renderables r with
           | None, _ => False
           | Some camera, [] =>
               evs = [EMIT_SIGNAL SIGNAL_RENDER_START;
                      Call M_AcquirePrerequisites;
                      Graphics_Clear (Camera_GetClearColor camera);
                      Graphics_Present]
           | Some camera, _ :: _ =>
               steps evs
               = [StepAcquirePrerequisites]
                 ++ match acquired_light r with
                    | Some light =>
                        if ShadowType_eqb (Light_GetShadowType light)
                                          No_Shadows
                        then []
                        else [StepShadowDepthPass]
                    | None => []
                    end
                 ++ [StepGeometryPass; StepDeferredLightingPass;
                     StepPostProcessPass]
                 ++ (if EngineMode_eqb (GET_ENGINE_MODE e) Editor_Idle
                     then [StepDebugPass]
                     else [])
                 ++ [StepPresent]
           end
       end.
Proof.
  intros Hcam Hready. unfold Render. cbv zeta.
  set (r0 := StartCalculatingStats (emit (EMIT_SIGNAL SIGNAL_RENDER_START) r)).
  destruct (@AcquirePrerequisites_spec e r0 Hcam)
    as (r1 & E1 & L1 & R1 & _ & _ & A1).
  rewrite E1. cbn [bind].
  assert (L0 : log r1 = log r ++ [EMIT_SIGNAL SIGNAL_RENDER_START;
                                  Call M_AcquirePrerequisites]).
  { rewrite L1. unfold r0. cbn. rewrite <- app_assoc. reflexivity. }
  assert (R0 : m_renderables r1 = m_renderables r) by (rewrite R1; reflexivity).
  unfold main_camera_has_component in Hcam.
  destruct (Scene_GetMainCamera e) as [cameraObject|].
  2:{ destruct A1 as (C1 & _). rewrite C1.
      eexists. eexists. split; [reflexivity |]. split; [| reflexivity].
      cbn. rewrite L0, <- !app_assoc. reflexivity. }
  destruct (GameObject_Camera cameraObject) as [camera|]; [| discriminate].
  destruct A1 as (C1 & D1). rewrite C1, R0.
  destruct (m_renderables r) as [|go rest] eqn:Er.
  { eexists. eexists. split; [reflexivity |]. split; [| reflexivity].
    cbn. rewrite L0, <- !app_assoc. reflexivity. }
  (* the full frame *)
  set (r2 := emit (Graphics_EnableZBuffer true) r1).
  assert (Hr2 : ready r2).
  { unfold ready. change (m_renderables r2) with (m_renderables r1).
    rewrite R0, <- Er. exact Hready. }
  assert (Hc2 : m_camera r2 = Some camera) by exact C1.
  assert (Q2 : logged [] r1 r2) by apply (logged_emit (Graphics_EnableZBuffer true)).
  (* the shadow-depth pass *)
  assert (S3 : exists r3,
             match m_directionalLight r2 with
             | Some light =>
                 if negb (ShadowType_eqb (Light_GetShadowType light) No_Shadows)
                 then DirectionalLightDepthPass r2
                 else Some r2
             | None => Some r2
             end = Some r3
             /\ logged match acquired_light r with
                       | Some light =>
                           if ShadowType_eqb (Light_GetShadowType light)
                                             No_Shadows
                           then []
                           else [StepShadowDepthPass]
                       | None => []
                       end r2 r3).
  { change (m_directionalLight r2) with (m_directionalLight r1).
    rewrite D1. change (acquired_light r0) with (acquired_light r).
    destruct (acquired_light r) as [light|] eqn:El.
    - destruct (ShadowType_eqb _ _); cbn [negb].
      + exists r2. split; [reflexivity | apply logged_refl].
      + apply (@DirectionalLightDepthPass_logged light r2); [| exact Hr2].
        change (m_directionalLight r2) with (m_directionalLight r1).
        rewrite D1. exact El.
    - exists r2. split; [reflexivity | apply logged_refl]. }
  destruct S3 as (r3 & E3 & L3). rewrite E3. cbn [bind].
  set (r4 := emit (GBuffer_Clear _ _) (emit (GBuffer_SetRenderTargets _) r3)).
  assert (Q4 : logged [] r3 r4) by (unfold r4; peel).
  destruct (@GBufferPass_logged e r4) as (r5 & E5 & L5).
  { eapply ready_logged; [exact Q4 |].
    eapply ready_logged; [exact L3 | exact Hr2]. }
  rewrite E5. cbn [bind].
  set (r6 := emit (FullScreenQuad_SetBuffers _)
                  (emit (Graphics_EnableZBuffer false) r5)).
  assert (Q6 : logged [] r5 r6) by (unfold r6; peel).
  pose proof (DeferredPass_logged e r6) as L7.
  set (r7 := DeferredPass e r6) in *.
  assert (T7 : logged ((match acquired_light r with
                        | Some light =>
                            if ShadowType_eqb (Light_GetShadowType light)
                                              No_Shadows
                            then []
                            else [StepShadowDepthPass]
                        | None => []
                        end ++ [])
                       ++ ([StepGeometryPass] ++ [])
                       ++ [StepDeferredLightingPass]) r2 r7).
  { eapply logged_trans; [eapply logged_trans; [exact L3 | exact Q4] |].
    eapply logged_trans; [eapply logged_trans; [exact L5 | exact Q6] |].
    exact L7. }
  assert (Hc7 : m_camera r7 = Some camera).
  { destruct T7 as (C & _). rewrite C. exact Hc2. }
  destruct (@PostProcessing_logged camera r7 Hc7) as (r8 & E8 & L8).
  rewrite E8. cbn [bind].
  assert (Hc8 : m_camera r8 = Some camera).
  { destruct L8 as (C & _). rewrite C. exact Hc7. }
  assert (S9 : exists r9,
             (if EngineMode_eqb (GET_ENGINE_MODE e) Editor_Idle
              then Gizmos e r8 else Some r8) = Some r9
             /\ logged (if EngineMode_eqb (GET_ENGINE_MODE e) Editor_Idle
                        then [StepDebugPass] else []) r8 r9).
  { destruct (EngineMode_eqb _ _).
    - apply (@Gizmos_logged e camera r8 Hc8).
    - exists r8. split; [reflexivity | apply logged_refl]. }
  destruct S9 as (r9 & E9 & L9). rewrite E9. cbn [bind].
  eassert (T9 : logged _ r1 r9).
  { eapply logged_trans; [exact Q2 |].
    eapply logged_trans; [exact T7 |].
    eapply logged_trans; [exact L8 | exact L9]. }
  destruct T9 as (_ & _ & evs & Le & Se).
  eexists.
  exists ([EMIT_SIGNAL SIGNAL_RENDER_START; Call M_AcquirePrerequisites]
          ++ evs ++ [Graphics_Present; EMIT_SIGNAL SIGNAL_RENDER_END]).
  split; [reflexivity |]. split.
  - cbn. rewrite Le, L0, <- !app_assoc. reflexivity.
  - rewrite !steps_app, Se. cbn.
    rewrite !app_nil_r, <- !app_assoc. reflexivity.
Qed.

(** ** Objects without a mesh or a material *)

Lemma for_each_skip {A S : Type} (body : A -> S -> option S)
  (pre post : list A) (a : A) :
  (forall s, body a s = Some s) ->
  forall s, for_each body (pre ++ a :: post) s = for_each body (pre ++ post) s.
Proof.
  intros Ha. induction pre as [|b pre IH]; intros s; cbn [for_each app].
  - rewrite Ha. reflexivity.
  - destruct (body b s) as [s'|]; cbn [bind]; [apply IH | reflexivity].
Qed.

(** Two runs of a loop stay related by [f] when every round does. *)
Lemma for_each_related {A S : Type} (bodyL bodyR : A -> S -> option S)
  (f : S -> S) (inv : S -> Prop) :
  (forall a s, inv s -> bodyL a (f s) = option_map f (bodyR a s)) ->
  (forall a s s', inv s -> bodyR a s = Some s' -> inv s') ->
  forall items s, inv s ->
    for_each bodyL items (f s) = option_map f (for_each bodyR items s).
Proof.
  intros Hrel Hinv. induction items as [|a rest IH]; intros s Hs;
    cbn [for_each].
  - reflexivity.
  - rewrite (Hrel a s Hs).
    destruct (bodyR a s) as [s'|] eqn:E; cbn [bind option_map];
      [| reflexivity].
    apply IH. eapply Hinv; eassumption.
Qed.

Lemma for_each_keeps {A S X : Type} (body : A -> S -> option S)
  (g : S -> X) :
  (forall a s s', body a s = Some s' -> g s' = g s) ->
  forall items s s', for_each body items s = Some s' -> g s' = g s.
Proof.
  intros Hb. induction items as [|a rest IH]; intros s s' H;
    cbn [for_each] in H.
  - injection H as <-. reflexivity.
  - destruct (body a s) as [s1|] eqn:E; cbn [bind] in H; [| discriminate].
    rewrite (IH _ _ H). eapply Hb, E.
Qed.

Lemma IsInViewFrustrum_renderables (l : list GameObject)
  (center extent : Vector3.t) (r : t) :
  IsInViewFrustrum center extent (set_m_renderables l r)
  = (fst (IsInViewFrustrum center extent r),
     set_m_renderables l (snd (IsInViewFrustrum center extent r))).
Proof.
  unfold IsInViewFrustrum.
  change (frustrum_is_stale (set_m_renderables l r))
    with (frustrum_is_stale r).
  destruct (frustrum_is_stale r); cbv zeta; cbn;
    match goal with
    | |- context [match ?c with Outside => _ | _ => _ end] => destruct c
    end; reflexivity.
Qed.

Lemma depth_object_renderables (l : list GameObject) (light : Light)
  (i : nat) (a : GameObject) (s : t) :
  depth_object light i a (set_m_renderables l s)
  = option_map (set_m_renderables l) (depth_object light i a s).
Proof.
  unfold depth_object.
  destruct (GameObject_MeshFilter a) as [meshFilter|]; [| reflexivity].
  cbn [bind].
  destruct (MeshFilter_GetMesh meshFilter); [| reflexivity].
  destruct (GameObject_Skybox a); [reflexivity |].
  destruct (GameObject_MeshRenderer a) as [meshRenderer|]; [| reflexivity].
  cbn [bind].
  destruct (MeshRenderer_GetCastShadows meshRenderer); [| reflexivity].
  cbn [negb]. destruct (MeshFilter_SetBuffers meshFilter); reflexivity.
Qed.

Lemma depth_object_keeps (light : Light) (i : nat) (a : GameObject)
  (s s' : t) :
  depth_object light i a s = Some s' -> m_renderables s' = m_renderables s.
Proof.
  unfold depth_object.
  destruct (GameObject_MeshFilter a) as [meshFilter|]; [| discriminate].
  cbn [bind].
  destruct (MeshFilter_GetMesh meshFilter);
    [| intros H; injection H as <-; reflexivity].
  destruct (GameObject_Skybox a);
    [intros H; injection H as <-; reflexivity |].
  destruct (GameObject_MeshRenderer a) as [meshRenderer|]; [| discriminate].
  cbn [bind].
  destruct (MeshRenderer_GetCastShadows meshRenderer); cbn [negb];
    [| intros H; injection H as <-; reflexivity].
  destruct (MeshFilter_SetBuffers meshFilter);
    intros H; injection H as <-; reflexivity.
Qed.

Lemma gbuffer_object_renderables (l : list GameObject)
  (sh : ShaderVariation) (mat : Material) (a : GameObject) (s : t) :
  gbuffer_object sh mat a (set_m_renderables l s)
  = option_map (set_m_renderables l) (gbuffer_object sh mat a s).
Proof.
  unfold gbuffer_object.
  destruct (GameObject_MeshFilter a) as [meshFilter|]; [| reflexivity].
  destruct (GameObject_MeshRenderer a) as [meshRenderer|]; [| reflexivity].
  cbn [bind].
  destruct (MeshFilter_GetMesh meshFilter); [| reflexivity].
  destruct (MeshRenderer_GetMaterial meshRenderer); [| reflexivity].
  destruct (negb _); [reflexivity |].
  destruct (Float.ltb _ _); [reflexivity |].
  rewrite IsInViewFrustrum_renderables.
  destruct (IsInViewFrustrum _ _ s) as [visible s1]. cbn [fst snd].
  destruct visible; cbn [negb]; [| reflexivity].
  destruct (MeshFilter_SetBuffers meshFilter); reflexivity.
Qed.

Lemma gbuffer_object_keeps (sh : ShaderVariation) (mat : Material)
  (a : GameObject) (s s' : t) :
  gbuffer_object sh mat a s = Some s' -> m_renderables s' = m_renderables s.
Proof.
  unfold gbuffer_object.
  destruct (GameObject_MeshFilter a) as [meshFilter|]; [| discriminate].
  destruct (GameObject_MeshRenderer a) as [meshRenderer|]; [| discriminate].
  cbn [bind].
  destruct (MeshFilter_GetMesh meshFilter);
    [| intros H; injection H as <-; reflexivity].
  destruct (MeshRenderer_GetMaterial meshRenderer);
    [| intros H; injection H as <-; reflexivity].
  destruct (negb _); [intros H; injection H as <-; reflexivity |].
  destruct (Float.ltb _ _); [intros H; injection H as <-; reflexivity |].
  pose proof (IsInViewFrustrum_quiet (MeshFilter_GetCenter meshFilter)
                (MeshFilter_GetBoundingBox meshFilter) s) as (_ & R & _).
  destruct (IsInViewFrustrum _ _ s) as [visible s1]. cbn [snd] in R.
  destruct visible; cbn [negb];
    [| intros H; injection H as <-; exact R].
  destruct (MeshFilter_SetBuffers meshFilter);
    intros H; injection H as <-; exact R.
Qed.

Lemma set_m_renderables_same (l : list GameObject) (s : t) :
  m_renderables s = l -> set_m_renderables l s = s.
Proof. intros <-. destruct s. reflexivity. Qed.

(** The shadow-depth pass over a list with an object every round skips is
    the pass over the list without it. *)
Lemma DirectionalLightDepthPass_skip (pre post : list GameObject)
  (a : GameObject) (r : t) :
  (forall light i s, depth_object light i a s = Some s) ->
  DirectionalLightDepthPass (set_m_renderables (pre ++ a :: post) r)
  = option_map (set_m_renderables (pre ++ a :: post))
      (DirectionalLightDepthPass (set_m_renderables (pre ++ post) r)).
Proof.
  intros Hskip. unfold DirectionalLightDepthPass. cbv zeta.
  change (m_directionalLight (emit _ (emit _ (set_m_renderables _ r))))
    with (m_directionalLight r).
  destruct (m_directionalLight r) as [light|]; [| reflexivity].
  cbn [bind].
  set (s0 := emit (Graphics_SetCullMode CullFront)
               (emit (Call M_DirectionalLightDepthPass)
                  (set_m_renderables (pre ++ post) r))).
  change (emit (Graphics_SetCullMode CullFront)
            (emit (Call M_DirectionalLightDepthPass)
               (set_m_renderables (pre ++ a :: post) r)))
    with (set_m_renderables (pre ++ a :: post) s0).
  apply for_each_related with (inv := fun s => m_renderables s = pre ++ post).
  - intros i s Hs. unfold depth_cascade. cbv zeta.
    change (m_renderables (emit _ (set_m_renderables (pre ++ a :: post) s)))
      with (pre ++ a :: post).
    change (m_renderables (emit (Light_SetShadowMapAsRenderTarget i) s))
      with (m_renderables s).
    rewrite Hs, for_each_skip by apply Hskip.
    change (emit (Light_SetShadowMapAsRenderTarget i)
              (set_m_renderables (pre ++ a :: post) s))
      with (set_m_renderables (pre ++ a :: post)
              (emit (Light_SetShadowMapAsRenderTarget i) s)).
    apply for_each_related with (inv := fun _ => True); auto.
    intros b s1 _. apply depth_object_renderables.
  - intros i s s' Hs H. unfold depth_cascade in H.
    apply (for_each_keeps _ m_renderables
             (fun b x x' => @depth_object_keeps light i b x x')) in H.
    rewrite H. exact Hs.
  - reflexivity.
Qed.

(** The same for the geometry pass. *)
Lemma GBufferPass_skip (e : Engine) (pre post : list GameObject)
  (a : GameObject) (r : t) :
  (forall sh mat s, gbuffer_object sh mat a s = Some s) ->
  GBufferPass e (set_m_renderables (pre ++ a :: post) r)
  = option_map (set_m_renderables (pre ++ a :: post))
      (GBufferPass e (set_m_renderables (pre ++ post) r)).
Proof.
  intros Hskip. unfold GBufferPass.
  change (emit (Call M_GBufferPass) (set_m_renderables (pre ++ a :: post) r))
    with (set_m_renderables (pre ++ a :: post)
            (emit (Call M_GBufferPass) (set_m_renderables (pre ++ post) r))).
  assert (Hmat : forall sh mat s, m_renderables s = pre ++ post ->
            gbuffer_material sh mat (set_m_renderables (pre ++ a :: post) s)
            = option_map (set_m_renderables (pre ++ a :: post))
                (gbuffer_material sh mat s)).
  { intros sh mat s Hs. unfold gbuffer_material.
    destruct (negb _); [reflexivity |]. cbv zeta.
    match goal with
    | |- context [for_each _ (m_renderables ?x) ?x] =>
        change (m_renderables x) with (pre ++ a :: post)
    end.
    match goal with
    | |- context [for_each _ (m_renderables ?x) ?x] =>
        change (m_renderables x) with (m_renderables s); set (s1 := x)
    end.
    rewrite Hs, for_each_skip by apply Hskip.
    match goal with
    | |- context [for_each _ _ ?x] =>
        change x with (set_m_renderables (pre ++ a :: post) s1)
    end.
    rewrite (@for_each_related GameObject t (gbuffer_object sh mat)
               (gbuffer_object sh mat) (set_m_renderables (pre ++ a :: post))
               (fun _ => True)); auto.
    - destruct (for_each _ _ s1); reflexivity.
    - intros b s2 _. apply gbuffer_object_renderables. }
  assert (Hkeep : forall sh mat s s',
            gbuffer_material sh mat s = Some s' ->
            m_renderables s' = m_renderables s).
  { intros sh mat s s'. unfold gbuffer_material.
    destruct (negb _); [intros H; injection H as <-; reflexivity |].
    cbv zeta.
    destruct (for_each _ _ _) as [s1|] eqn:E; cbn [bind]; [| discriminate].
    intros H. injection H as <-.
    apply (for_each_keeps _ m_renderables
             (fun b x x' => @gbuffer_object_keeps sh mat b x x')) in E.
    cbn. rewrite E. reflexivity. }
  apply for_each_related with (inv := fun s => m_renderables s = pre ++ post).
  - intros sh s Hs. unfold gbuffer_shader. cbv zeta.
    match goal with
    | |- context [emit ?ev (set_m_renderables ?l s)] =>
        change (emit ev (set_m_renderables l s))
          with (set_m_renderables l (emit ev s))
    end.
    apply for_each_related
      with (inv := fun s => m_renderables s = pre ++ post).
    + intros mat s1 Hs1. apply Hmat, Hs1.
    + intros mat s1 s2 Hs1 H. rewrite (Hkeep _ _ _ _ H). exact Hs1.
    + exact Hs.
  - intros sh s s' Hs H. unfold gbuffer_shader in H.
    apply (for_each_keeps _ m_renderables (Hkeep sh)) in H.
    rewrite H. exact Hs.
  - reflexivity.
Qed.

(** C4, as the code has it.  Take an object of the renderable list that has
    a mesh filter and a mesh renderer.  If it has no mesh or no material,
    the geometry pass leaves the renderer as it is when it reaches the
    object, and the whole pass does what it does on the list without the
    object.  If it has no mesh, the same holds for the shadow-depth pass.
    (The shadow-depth pass never looks at the material.) *)
Theorem objects_without_mesh_or_material_are_skipped
  (e : Engine) (r : t) (pre post : list GameObject) (gameObject : GameObject)
  (meshFilter : MeshFilter) (meshRenderer : MeshRenderer) :
  GameObject_MeshFilter gameObject = Some meshFilter ->
  GameObject_MeshRenderer gameObject = Some meshRenderer ->
  MeshFilter_GetMesh meshFilter = None
  \/ MeshRenderer_GetMaterial meshRenderer = None ->
  (forall sh mat s, gbuffer_object sh mat gameObject s = Some s)
  /\ GBufferPass e (set_m_renderables (pre ++ gameObject :: post) r)
     = option_map (set_m_renderables (pre ++ gameObject :: post))
         (GBufferPass e (set_m_renderables (pre ++ post) r))
  /\ match MeshFilter_GetMesh meshFilter with
     | Some _ => True
     | None =>
         (forall light i s, depth_object light i gameObject s = Some s)
         /\ DirectionalLightDepthPass
              (set_m_renderables (pre ++ gameObject :: post) r)
            = option_map (set_m_renderables (pre ++ gameObject :: post))
                (DirectionalLightDepthPass
                   (set_m_renderables (pre ++ post) r))
     end.
Proof.
  intros Hf Hr Hlack.
  assert (G : forall sh mat s, gbuffer_object sh mat gameObject s = Some s).
  { intros sh mat s. unfold gbuffer_object. rewrite Hf, Hr. cbn [bind].
    destruct Hlack as [-> | ->]; [reflexivity |].
    destruct (MeshFilter_GetMesh meshFilter); reflexivity. }
  split; [exact G |]. split; [apply GBufferPass_skip, G |].
  destruct (MeshFilter_GetMesh meshFilter) eqn:Em; [exact I |].
  assert (D : forall light i s, depth_object light i gameObject s = Some s).
  { intros light i s. unfold depth_object. rewrite Hf. cbn [bind].
    rewrite Em. reflexivity. }
  split; [exact D | apply DirectionalLightDepthPass_skip, D].
Qed.

(** ** The count of rendered meshes *)

(** On the two early returns of [Render] the published count is the one the
    previous frame left. *)
Lemma early_return_keeps_count (e : Engine) (r r' : t) :
  Scene_GetMainCamera e = None \/ m_renderables r = [] ->
  Render e r = Some r' ->
  GetRenderedMeshesCount r' = GetRenderedMeshesCount r.
Proof.
  intros Hsoft. unfold Render. cbv zeta.
  set (r0 := StartCalculatingStats (emit (EMIT_SIGNAL SIGNAL_RENDER_START) r)).
  destruct (AcquirePrerequisites e r0) as [r1|] eqn:E1; cbn [bind];
    [| discriminate].
  assert (K : m_renderedMeshesCount r1 = m_renderedMeshesCount r
              /\ m_renderables r1 = m_renderables r
              /\ (Scene_GetMainCamera e = None -> m_camera r1 = None)).
  { unfold AcquirePrerequisites in E1.
    destruct (Scene_GetMainCamera e) as [cameraObject|].
    - cbv zeta in E1.
      match type of E1 with
      | bind ?c _ = _ => destruct c as [camera|]; [| discriminate]
      end.
      cbn [bind] in E1. injection E1 as <-.
      destruct (Scene_GetSkybox e); cbn;
        destruct (m_lightsDirectional r); cbn;
        repeat split; discriminate.
    - injection E1 as <-. cbn. repeat split. }
  destruct K as (K1 & K2 & K3).
  destruct (m_camera r1) as [camera|] eqn:Ec.
  - destruct Hsoft as [Hn | Hn]; [specialize (K3 Hn); discriminate |].
    rewrite K2, Hn. intros H. injection H as <-. exact K1.
  - intros H. injection H as <-. exact K1.
Qed.

End Frame.

Import Sample.

(** The frame-order theorem on a frame with the cube, the sun and the
    camera, in editor mode. *)
Lemma Render_runs_the_passes_in_order_witness :
  exists (r' : t) (evs : list Event),
    Render engine (Update [cube] [sunObject] [] renderer) = Some r'
    /\ log r' = evs
    /\ steps evs
       = [StepAcquirePrerequisites; StepShadowDepthPass; StepGeometryPass;
          StepDeferredLightingPass; StepPostProcessPass; StepDebugPass;
          StepPresent].
Proof.
  destruct (@Render_runs_the_passes_in_order LabelMatrix FarPlaneFrustrum
              engine (Update [cube] [sunObject] [] renderer))
    as (r' & evs & H1 & H2 & H3).
  - reflexivity.
  - repeat constructor.
  - exists r', evs. split; [exact H1 |]. split; [exact H2 | exact H3].
Defined.

(** The skipping theorem on the list cube, cube without mesh, cube without
    material: the cube without mesh is skipped by both passes. *)
Lemma objects_without_mesh_or_material_are_skipped_witness :
  let r := set_m_directionalLight (Some sun) renderer in
  GBufferPass engine
    (set_m_renderables [cube; cube_without_mesh; cube_without_material] r)
  = option_map
      (set_m_renderables [cube; cube_without_mesh; cube_without_material])
      (GBufferPass engine
         (set_m_renderables [cube; cube_without_material] r))
  /\ DirectionalLightDepthPass
       (set_m_renderables [cube; cube_without_mesh; cube_without_material] r)
     = option_map
         (set_m_renderables [cube; cube_without_mesh; cube_without_material])
         (DirectionalLightDepthPass
            (set_m_renderables [cube; cube_without_material] r)).
Proof.
  destruct (@objects_without_mesh_or_material_are_skipped
              LabelMatrix FarPlaneFrustrum engine
              (set_m_directionalLight (Some sun) renderer)
              [cube] [cube_without_material] cube_without_mesh
              (cubeFilter None) (cubeRenderer (Some material))
              eq_refl eq_refl (or_introl eq_refl))
    as (_ & G & _ & D).
  split; [exact G | exact D].
Defined.

(** C4 as stated fails for the material: the shadow-depth pass draws the
    cube that has no material, so the pass differs from the pass over the
    list without that cube. *)
Lemma shadow_pass_draws_object_without_material :
  let r :=
    set_m_directionalLight (Some sun)
      (set_m_renderables [cube_without_material] renderer) in
  option_map (fun r' => draws (log r')) (DirectionalLightDepthPass r)
  = Some [DepthShader_Render 36 1%Z 20%Z 21%Z]
  /\ DirectionalLightDepthPass r
     <> option_map (set_m_renderables [cube_without_material])
          (DirectionalLightDepthPass (set_m_renderables [] r)).
Proof.
  cbv zeta. split; [reflexivity |].
  intros H.
  apply (f_equal (option_map (fun r' => length (log r')))) in H.
  vm_compute in H. discriminate.
Qed.

(** An object without a mesh filter is not skipped either: both passes
    dereference the missing mesh filter before any test. *)
Lemma object_without_mesh_filter_faults :
  let r :=
    set_m_directionalLight (Some sun)
      (set_m_renderables [cube_without_mesh_filter] renderer) in
  GBufferPass engine r = None /\ DirectionalLightDepthPass r = None.
Proof. split; reflexivity. Qed.

(** C6 on two frames: the first draws the cube and publishes a count of 1.
    The second finds no main camera, or no renderable, and returns early:
    the count it publishes is still 1. *)
Theorem count_is_stale_after_early_return :
  exists r1 r2 r3 : t,
    Render engine (Update [cube] [] [] renderer) = Some r1
    /\ GetRenderedMeshesCount r1 = 1%Z
    /\ Render engine_without_camera r1 = Some r2
    /\ GetRenderedMeshesCount r2 = 1%Z
    /\ Render engine (Update [] [] [] r1) = Some r3
    /\ GetRenderedMeshesCount r3 = 1%Z.
Proof.
  do 3 eexists.
  split; [vm_compute; reflexivity |].
  split; [reflexivity |].
  split; [vm_compute; reflexivity |].
  split; [reflexivity |].
  split; [vm_compute; reflexivity | reflexivity].
Qed.

End RendererSpec.

(** * More properties of the Renderer *)

Module RendererExtra.
Import Renderer.

#[local] Unset Implicit Arguments.

Section Passes.
Context {ML : MatrixLib} {FR : FrustrumLib}.

(** ** Plumbing *)

Lemma count_events_app (p : Event -> bool) (a b : list Event) :
  count_events p (a ++ b) = (count_events p a + count_events p b)%nat.
Proof. unfold count_events. rewrite filter_app, length_app. reflexivity. Qed.

Lemma resources_app (a b : list Event) :
  resources (a ++ b) = resources a ++ resources b.
Proof. unfold resources. apply flat_map_app. Qed.

(** A sequence that returns: its first part returned, and the rest
    returned from there. *)
Lemma bind_returns {A B : Type} (c : option A) (k : A -> option B) (b : B) :
  bind c k = Some b -> exists a, c = Some a /\ k a = Some b.
Proof.
  destruct c as [a|]; [| discriminate].
  intros H. exists a. split; [reflexivity | exact H].
Qed.

Lemma kept_refl (r : t) : kept r r.
Proof. repeat split. Qed.

Lemma kept_trans (r1 r2 r3 : t) : kept r1 r2 -> kept r2 r3 -> kept r1 r3.
Proof.
  unfold kept. intros H1 H2.
  repeat match goal with H : _ /\ _ |- _ => destruct H end.
  repeat split; congruence.
Qed.

(** A loop whose rounds keep an invariant and are related by a reflexive
    and transitive relation. *)
Lemma for_each_rel {A : Type} (body : A -> t -> option t)
  (R : t -> t -> Prop) (Inv : t -> Prop) :
  (forall s, R s s) ->
  (forall s1 s2 s3, R s1 s2 -> R s2 s3 -> R s1 s3) ->
  forall items : list A,
  (forall a s s', In a items -> Inv s -> body a s = Some s' ->
     R s s' /\ Inv s') ->
  forall s s', Inv s -> for_each body items s = Some s' -> R s s' /\ Inv s'.
Proof.
  intros Hrefl Htrans. induction items as [|a rest IH];
    intros Hbody s s' Hs H; cbn [for_each] in H.
  - injection H as <-. split; [apply Hrefl | exact Hs].
  - destruct (body a s) as [s1|] eqn:E; cbn [bind] in H; [| discriminate].
    destruct (Hbody a s s1 (or_introl eq_refl) Hs E) as (R1 & I1).
    destruct (IH (fun a s s' Hin => Hbody a s s' (or_intror Hin)) s1 s' I1 H)
      as (R2 & I2).
    split; [eapply Htrans; eassumption | exact I2].
Qed.

(** The lemmas on passes hold for any condition [P] on the texture lists of
    the [SetResources] calls that kept members do not affect, given a
    condition [Inv] on the renderer under which a material's call meets
    [P]. *)
Section Counted.
Variable P : t -> list (option ShaderResourceView) -> Prop.
Variable Inv : t -> Prop.
Hypothesis P_stable : forall r r' l, kept r r' -> P r' l -> P r l.
Hypothesis Inv_stable : forall s s',
  m_textures s' = m_textures s -> Inv s -> Inv s'.
Hypothesis Inv_empty : forall s, m_textures s = [] -> Inv s.
Hypothesis P_material : forall mat s,
  Inv s -> P s (m_textures s ++ material_textures mat s).

Lemma counted_refl (r : t) : counted P r r.
Proof.
  split; [apply kept_refl |]. exists [].
  rewrite app_nil_r. cbn. split; [reflexivity |].
  split; [rewrite Z.add_0_r; reflexivity | constructor].
Qed.

Lemma counted_trans (r1 r2 r3 : t) :
  counted P r1 r2 -> counted P r2 r3 -> counted P r1 r3.
Proof.
  intros (K1 & e1 & L1 & T1 & F1) (K2 & e2 & L2 & T2 & F2).
  split; [eapply kept_trans; eassumption |].
  exists (e1 ++ e2). rewrite L2, L1, T2, T1, count_events_app, resources_app.
  split; [rewrite app_assoc; reflexivity |]. split; [lia |].
  apply Forall_app. split; [exact F1 |].
  eapply Forall_impl; [| exact F2]. intros l. apply P_stable, K1.
Qed.

(** An event that is neither a mesh draw nor a [SetResources]. *)
Lemma counted_emit (ev : Event) (r : t) :
  is_mesh_draw ev = false -> resources_of ev = [] ->
  counted P r (emit ev r).
Proof.
  intros Hd Hr. split; [repeat split |]. exists [ev].
  split; [reflexivity |]. unfold count_events, resources.
  cbn [filter flat_map]. rewrite Hd, Hr. cbn.
  split; [rewrite Z.add_0_r; reflexivity | constructor].
Qed.

(** A change of members that [kept] does not list, without a log entry. *)
Lemma counted_silent (r r' : t) :
  kept r r' -> log r' = log r -> m_meshesRendered r' = m_meshesRendered r ->
  counted P r r'.
Proof.
  intros K L M. split; [exact K |]. exists [].
  rewrite app_nil_r, L, M. cbn.
  split; [reflexivity |]. split; [rewrite Z.add_0_r; reflexivity | constructor].
Qed.

(** Peels quiet log entries off the end of a run. *)
Ltac peel_counted :=
  cbv zeta;
  repeat match goal with
  | |- counted P ?r ?r => apply counted_refl
  | |- counted P ?r (emit ?ev ?r') =>
      apply (@counted_trans r r' (emit ev r'));
      [| apply (counted_emit ev r'); reflexivity]
  end.

Lemma IsInViewFrustrum_counted (center extent : Vector3.t) (r : t) :
  counted P r (snd (IsInViewFrustrum center extent r))
  /\ m_textures (snd (IsInViewFrustrum center extent r)) = m_textures r.
Proof.
  unfold IsInViewFrustrum.
  destruct (frustrum_is_stale r); cbv zeta;
    match goal with
    | |- context [match ?c with Outside => _ | _ => _ end] => destruct c
    end; cbn [snd]; (split; [| reflexivity]);
    try apply counted_refl;
    (eapply counted_trans;
     [| apply (counted_emit (Frustrum_ConstructFrustum_call _) _);
        reflexivity];
     apply counted_silent; repeat split).
Qed.

(** ** The passes, one by one *)

Lemma counted_draw (n : nat) (v : Z) (r : t) :
  v = (m_meshesRendered r + 1)%Z ->
  counted P r (set_m_meshesRendered v (emit (MeshRenderer_Render n) r)).
Proof.
  intros ->. split; [repeat split |]. exists [MeshRenderer_Render n].
  split; [reflexivity |]. split; [reflexivity | constructor].
Qed.

Lemma gbuffer_object_counted (sh : ShaderVariation) (mat : Material)
  (a : GameObject) (s s' : t) :
  gbuffer_object sh mat a s = Some s' ->
  counted P s s' /\ m_textures s' = m_textures s.
Proof.
  unfold gbuffer_object.
  destruct (GameObject_MeshFilter a) as [meshFilter|]; [| discriminate].
  destruct (GameObject_MeshRenderer a) as [meshRenderer|]; [| discriminate].
  cbn [bind].
  destruct (MeshFilter_GetMesh meshFilter) as [mesh|];
    [| intros H; injection H as <-; split; [apply counted_refl | reflexivity]].
  destruct (MeshRenderer_GetMaterial meshRenderer) as [material|];
    [| intros H; injection H as <-; split; [apply counted_refl | reflexivity]].
  destruct (negb _);
    [intros H; injection H as <-; split; [apply counted_refl | reflexivity] |].
  destruct (Float.ltb _ _);
    [intros H; injection H as <-; split; [apply counted_refl | reflexivity] |].
  pose proof (IsInViewFrustrum_counted (MeshFilter_GetCenter meshFilter)
                (MeshFilter_GetBoundingBox meshFilter) s) as (Q & T).
  destruct (IsInViewFrustrum _ _ s) as [visible s1]. cbn [snd] in Q, T.
  destruct visible; cbn [negb];
    [| intros H; injection H as <-; split; [exact Q | exact T]].
  destruct (MeshFilter_SetBuffers meshFilter);
    intros H; injection H as <-; (split; [| exact T]);
    (eapply counted_trans; [exact Q |]).
  - cbv zeta. eapply counted_trans; [| apply counted_draw; reflexivity].
    peel_counted.
  - peel_counted.
Qed.

Lemma gbuffer_material_counted (sh : ShaderVariation) (mat : Material)
  (s s' : t) :
  Inv s -> gbuffer_material sh mat s = Some s' -> counted P s s' /\ Inv s'.
Proof.
  intros Hi. unfold gbuffer_material.
  destruct (negb _);
    [intros H; injection H as <-; split; [apply counted_refl | exact Hi] |].
  cbv zeta.
  set (s1 := set_m_textures (m_textures s ++ material_textures mat s) s).
  set (s2 := emit _ s1).
  assert (Q1 : counted P s s1) by (apply counted_silent; repeat split).
  assert (Q2 : counted P s1 s2).
  { split; [repeat split |]. eexists. split; [reflexivity |].
    split; [cbn; rewrite Z.add_0_r; reflexivity |].
    cbn. constructor; [| constructor].
    eapply P_stable; [| apply P_material, Hi]. repeat split. }
  destruct (for_each _ _ s2) as [s3|] eqn:E; cbn [bind]; [| discriminate].
  intros H. injection H as <-.
  destruct (@for_each_rel GameObject (gbuffer_object sh mat) (counted P)
              (fun _ => True) counted_refl counted_trans
              (m_renderables s2)
              (fun a x x' _ _ Hx =>
                 conj (proj1 (@gbuffer_object_counted sh mat a x x' Hx)) I)
              s2 s3 I E) as (Q3 & _).
  split; [| apply Inv_empty; reflexivity].
  eapply counted_trans; [exact Q1 |].
  eapply counted_trans; [exact Q2 |].
  eapply counted_trans; [exact Q3 |].
  apply counted_silent; repeat split.
Qed.

Lemma GBufferPass_counted (e : Engine) (r r' : t) :
  Inv r -> GBufferPass e r = Some r' -> counted P r r' /\ Inv r'.
Proof.
  intros Hi H. unfold GBufferPass in H.
  set (r1 := emit (Call M_GBufferPass) r) in H.
  assert (Q1 : counted P r r1) by (apply counted_emit; reflexivity).
  destruct (@for_each_rel ShaderVariation (gbuffer_shader e) (counted P)
              Inv counted_refl counted_trans
              (ShaderPool_GetAllShaders e)) with (s := r1) (s' := r')
    as (Q2 & T2);
    [| eapply Inv_stable; [| exact Hi]; reflexivity | exact H |].
  - intros sh s s' _ Hs Hb. unfold gbuffer_shader in Hb.
    set (s1 := emit _ s) in Hb.
    assert (P1 : counted P s s1) by (apply counted_emit; reflexivity).
    destruct (@for_each_rel Material (gbuffer_material sh) (counted P)
                Inv counted_refl counted_trans
                (MaterialPool_GetAllMaterials e)
                (fun m x x' _ Hx Hb =>
                   @gbuffer_material_counted sh m x x' Hx Hb)
                s1 s') as (P2 & T2);
      [eapply Inv_stable; [| exact Hs]; reflexivity | exact Hb |].
    split; [eapply counted_trans; eassumption | exact T2].
  - split; [eapply counted_trans; eassumption | exact T2].
Qed.

Lemma depth_object_counted (light : Light) (i : nat) (a : GameObject)
  (s s' : t) :
  depth_object light i a s = Some s' -> counted P s s'.
Proof.
  unfold depth_object.
  destruct (GameObject_MeshFilter a) as [meshFilter|]; [| discriminate].
  cbn [bind].
  destruct (MeshFilter_GetMesh meshFilter);
    [| intros H; injection H as <-; apply counted_refl].
  destruct (GameObject_Skybox a);
    [intros H; injection H as <-; apply counted_refl |].
  destruct (GameObject_MeshRenderer a) as [meshRenderer|]; [| discriminate].
  cbn [bind].
  destruct (MeshRenderer_GetCastShadows meshRenderer); cbn [negb];
    [| intros H; injection H as <-; apply counted_refl].
  destruct (MeshFilter_SetBuffers meshFilter);
    intros H; injection H as <-; peel_counted.
Qed.

Lemma DirectionalLightDepthPass_counted (r r' : t) :
  DirectionalLightDepthPass r = Some r' -> counted P r r'.
Proof.
  unfold DirectionalLightDepthPass. cbv zeta.
  set (r1 := emit (Graphics_SetCullMode CullFront) _).
  assert (Q1 : counted P r r1) by (unfold r1; peel_counted).
  destruct (m_directionalLight r1) as [light|]; [| discriminate].
  cbn [bind]. intros H.
  destruct (@for_each_rel nat (depth_cascade light) (counted P)
              (fun _ => True) counted_refl counted_trans
              (seq 0 (Light_GetCascadeCount light))) with (s := r1) (s' := r')
    as (Q2 & _); [| exact I | exact H |].
  - intros i s s' _ _ Hb. unfold depth_cascade in Hb.
    set (s1 := emit _ s) in Hb.
    assert (P1 : counted P s s1) by (apply counted_emit; reflexivity).
    destruct (@for_each_rel GameObject (depth_object light i) (counted P)
                (fun _ => True) counted_refl counted_trans
                (m_renderables s1)
                (fun a x x' _ _ Hx =>
                   conj (@depth_object_counted light i a x x' Hx) I)
                s1 s' I Hb) as (P2 & _).
    split; [eapply counted_trans; eassumption | exact I].
  - eapply counted_trans; eassumption.
Qed.

Lemma Ping_counted (r : t) : counted P r (Ping r).
Proof. unfold Ping. peel_counted. Qed.

Lemma Pong_counted (r : t) : counted P r (Pong r).
Proof. unfold Pong. peel_counted. Qed.

Lemma DeferredPass_counted (e : Engine) (r : t) :
  counted P r (DeferredPass e r).
Proof.
  unfold DeferredPass. cbv zeta.
  destruct (negb _); [peel_counted |].
  peel_counted.
  eapply counted_trans;
    [apply (counted_emit (Call M_DeferredPass)); reflexivity |].
  eapply counted_trans; [apply Ping_counted |].
  apply counted_silent; destruct (m_skybox _); repeat split.
Qed.

Lemma PostProcessing_counted (r r' : t) :
  PostProcessing r = Some r' -> counted P r r'.
Proof.
  unfold PostProcessing. cbv zeta.
  set (r5 := emit Graphics_ResetViewport _).
  assert (Q5 : counted P r r5).
  { unfold r5. peel_counted.
    eapply counted_trans;
      [apply (counted_emit (Call M_PostProcessing)); reflexivity |].
    apply Pong_counted. }
  destruct (m_camera r5); cbn [bind]; [| discriminate].
  intros H. injection H as <-.
  eapply counted_trans; [exact Q5 |]. peel_counted.
Qed.

Lemma Gizmos_counted (e : Engine) (r r' : t) :
  Gizmos e r = Some r' -> counted P r r'.
Proof.
  unfold Gizmos. cbv zeta.
  set (r1 := emit (Call M_Gizmos) r).
  assert (Q1 : counted P r r1) by (apply counted_emit; reflexivity).
  destruct (m_lineRenderer r1);
    [| intros H; injection H as <-; exact Q1].
  destruct (negb _); [intros H; injection H as <-; exact Q1 |].
  set (r3 := emit LineRenderer_SetBuffer _).
  assert (Q3 : counted P r1 r3) by (unfold r3; peel_counted).
  destruct (m_camera r3); cbn [bind]; [| discriminate].
  intros H. injection H as <-.
  eapply counted_trans; [exact Q1 |].
  eapply counted_trans; [exact Q3 |]. peel_counted.
Qed.

End Counted.

(** The two uses of the lemmas: no condition on the texture lists, and the
    lists filling the slots of the frame when the texture list of the
    renderer is empty between materials. *)
Lemma any_stable (r r' : t) (l : list (option ShaderResourceView)) :
  kept r r' -> any_textures r' l -> any_textures r l.
Proof. intros _ _. exact I. Qed.

Lemma fills_slots_stable (r r' : t) (l : list (option ShaderResourceView)) :
  kept r r' -> fills_slots r' l -> fills_slots r l.
Proof.
  unfold fills_slots, texture_slots.
  intros (_ & _ & _ & _ & _ & _ & _ & _ & _ & _ & D & _) H.
  rewrite <- D. exact H.
Qed.

Lemma material_textures_length (mat : Material) (r : t) :
  length (material_textures mat r) = texture_slots r.
Proof.
  unfold material_textures, texture_slots.
  rewrite length_app. cbn [map length].
  destruct (m_directionalLight r);
    [rewrite length_map, length_seq |]; reflexivity.
Qed.

(** ** The geometry pass *)

(** X9: Entered with an empty texture list, the geometry pass leaves it empty,
    and every [SetResources] call of the pass carries the same number of
    textures: the seven of the material and one for each cascade of the
    directional light, or one null slot without such a light. *)
Theorem GBufferPass_fills_the_texture_slots (e : Engine) (r r' : t) :
  m_textures r = [] ->
  GBufferPass e r = Some r' ->
  m_textures r' = []
  /\ exists evs,
       log r' = log r ++ evs
       /\ Forall (fun textures => length textures = texture_slots r)
                 (resources evs).
Proof.
  intros Ht H.
  assert (Hstable : forall s s' : t,
             m_textures s' = m_textures s ->
             m_textures s = [] -> m_textures s' = []).
  { intros s s' E Hs. rewrite E. exact Hs. }
  assert (Hmat : forall (mat : Material) (s : t),
             m_textures s = [] ->
             fills_slots s (m_textures s ++ material_textures mat s)).
  { intros mat s Hs. unfold fills_slots. rewrite Hs. cbn [app].
    apply material_textures_length. }
  destruct (GBufferPass_counted fills_slots (fun s => m_textures s = [])
              fills_slots_stable Hstable (fun s Hs => Hs) Hmat e r r' Ht H)
    as ((_ & evs & L & _ & F) & T).
  split; [exact T |]. exists evs. split; [exact L | exact F].
Qed.

(** ** A frame *)

(** What [AcquirePrerequisites] leaves alone. *)
Lemma AcquirePrerequisites_kept (e : Engine) (r r1 : t) :
  AcquirePrerequisites e r = Some r1 ->
  m_GBuffer r1 = m_GBuffer r
  /\ m_fullScreenQuad r1 = m_fullScreenQuad r
  /\ m_renderTexPing r1 = m_renderTexPing r
  /\ m_renderTexPong r1 = m_renderTexPong r
  /\ RESOLUTION r1 = RESOLUTION r
  /\ created r1 = created r
  /\ m_renderables r1 = m_renderables r
  /\ m_lightsDirectional r1 = m_lightsDirectional r
  /\ m_lightsPoint r1 = m_lightsPoint r
  /\ m_renderedMeshesCount r1 = m_renderedMeshesCount r
  /\ m_meshesRendered r1 = m_meshesRendered r
  /\ log r1 = log r ++ [Call M_AcquirePrerequisites]
  /\ (Scene_GetMainCamera e <> None -> m_camera r1 <> None).
Proof.
  unfold AcquirePrerequisites.
  destruct (Scene_GetMainCamera e) as [cameraObject|].
  - cbv zeta.
    match goal with
    | |- bind ?c _ = _ -> _ => destruct c as [camera|] eqn:Ec;
                               [| discriminate]
    end.
    cbn [bind]. intros H. injection H as <-.
    destruct (Scene_GetSkybox e); cbn in Ec |- *;
      destruct (m_lightsDirectional r) eqn:El; cbn in Ec |- *;
      repeat split; try exact El; rewrite Ec; discriminate.
  - intros H. injection H as <-. cbn. repeat split. congruence.
Qed.

(** The three ways through [Render]. *)
Lemma Render_shape (e : Engine) (r r' : t) :
  Render e r = Some r' ->
  exists r1,
    AcquirePrerequisites e
      (StartCalculatingStats (emit (EMIT_SIGNAL SIGNAL_RENDER_START) r))
    = Some r1
    /\ ((m_camera r1 = None
         /\ r' = emit Graphics_Present (emit (Graphics_Clear black) r1))
        \/ (exists camera,
              m_camera r1 = Some camera /\ m_renderables r1 = []
              /\ r' = emit Graphics_Present
                        (emit (Graphics_Clear (Camera_GetClearColor camera))
                              r1))
        \/ (exists r9,
              m_camera r1 <> None /\ m_renderables r1 <> []
              /\ counted any_textures r1 r9
              /\ r' = emit (EMIT_SIGNAL SIGNAL_RENDER_END)
                        (StopCalculatingStats (emit Graphics_Present r9)))).
Proof.
  unfold Render. cbv zeta. intros H.
  apply bind_returns in H. destruct H as (r1 & E1 & H). cbv beta in H.
  exists r1. split; [exact E1 |]. clear E1.
  destruct (m_camera r1) as [camera|] eqn:Ec.
  2:{ left. injection H as <-. split; reflexivity. }
  destruct (m_renderables r1) as [|go rest] eqn:Er.
  { right. left. exists camera. injection H as <-. repeat split. }
  right. right.
  pose proof (counted_trans any_textures any_stable) as Tr.
  apply bind_returns in H. destruct H as (r3 & E3 & H). cbv beta in H.
  assert (Q3 : counted any_textures r1 r3).
  { apply Tr with (r2 := emit (Graphics_EnableZBuffer true) r1);
      [apply counted_emit; reflexivity |].
    destruct (m_directionalLight _) as [light|].
    - destruct (negb _).
      + apply (DirectionalLightDepthPass_counted any_textures any_stable
                 _ _ E3).
      + injection E3 as <-. apply counted_refl.
    - injection E3 as <-. apply counted_refl. }
  clear E3.
  apply bind_returns in H. destruct H as (r5 & E5 & H). cbv beta in H.
  assert (Q5 : counted any_textures r3 r5).
  { eapply Tr;
      [| exact (proj1 (GBufferPass_counted any_textures any_renderer
                         any_stable
                         (fun _ _ _ _ => I) (fun _ _ => I) (fun _ _ _ => I)
                         e _ r5 I E5))].
    eapply Tr; apply counted_emit; reflexivity. }
  clear E5.
  apply bind_returns in H. destruct H as (r8 & E8 & H). cbv beta in H.
  assert (Q8 : counted any_textures r5 r8).
  { eapply Tr;
      [| exact (PostProcessing_counted any_textures any_stable _ _ E8)].
    eapply Tr; [| apply (DeferredPass_counted any_textures any_stable)].
    eapply Tr; apply counted_emit; reflexivity. }
  clear E8.
  apply bind_returns in H. destruct H as (r9 & E9 & H). cbv beta in H.
  assert (Q9 : counted any_textures r8 r9).
  { destruct (EngineMode_eqb _ _).
    - apply (Gizmos_counted any_textures any_stable _ _ _ E9).
    - injection E9 as <-. apply counted_refl. }
  clear E9.
  exists r9. injection H as <-.
  split; [discriminate |]. split; [discriminate |]. split; [| reflexivity].
  repeat (eapply Tr; [eassumption |]). apply counted_refl.
Qed.

(** X10: On the full path of a frame, the count [GetRenderedMeshesCount] returns
    afterwards is the number of mesh draws the frame has logged. *)
Theorem Render_publishes_the_draws (e : Engine) (r r' : t) :
  Render e r = Some r' ->
  Scene_GetMainCamera e <> None ->
  m_renderables r <> [] ->
  exists evs,
    log r' = log r ++ evs
    /\ GetRenderedMeshesCount r' = Z.of_nat (count_events is_mesh_draw evs).
Proof.
  intros H Hcam Hren.
  destruct (Render_shape _ _ _ H) as (r1 & E1 & Hcases).
  destruct (AcquirePrerequisites_kept _ _ _ E1)
    as (_ & _ & _ & _ & _ & _ & R1 & _ & _ & _ & M1 & L1 & C1).
  destruct Hcases as [(Ec & _) | [(camera & _ & Er & _) | Hfull]].
  - exfalso. apply (C1 Hcam Ec).
  - exfalso. apply Hren. rewrite <- Er, R1. reflexivity.
  - destruct Hfull as (r9 & _ & _ & (_ & evs & L9 & T9 & _) & ->).
    exists ([EMIT_SIGNAL SIGNAL_RENDER_START; Call M_AcquirePrerequisites]
            ++ evs
            ++ [Graphics_Present; EMIT_SIGNAL SIGNAL_RENDER_END]).
    split.
    + cbn. rewrite L9, L1. cbn. rewrite <- !app_assoc. reflexivity.
    + unfold GetRenderedMeshesCount. cbn. rewrite T9, M1. cbn.
      unfold count_events. rewrite filter_app, length_app. cbn.
      rewrite Nat.add_0_r. reflexivity.
Qed.

(** A frame changes neither the render targets, nor the resolution, nor the
    lists [Update] handed over. *)
Lemma Render_keeps_the_targets (e : Engine) (r r' : t) :
  Render e r = Some r' ->
  m_GBuffer r' = m_GBuffer r
  /\ m_fullScreenQuad r' = m_fullScreenQuad r
  /\ m_renderTexPing r' = m_renderTexPing r
  /\ m_renderTexPong r' = m_renderTexPong r
  /\ RESOLUTION r' = RESOLUTION r
  /\ created r' = created r
  /\ m_renderables r' = m_renderables r
  /\ m_lightsDirectional r' = m_lightsDirectional r
  /\ m_lightsPoint r' = m_lightsPoint r.
Proof.
  intros H.
  destruct (Render_shape _ _ _ H) as (r1 & E1 & Hcases).
  destruct (AcquirePrerequisites_kept _ _ _ E1)
    as (A1 & A2 & A3 & A4 & A5 & A6 & A7 & A8 & A9 & _).
  destruct Hcases as [(_ & ->) | [(camera & _ & _ & ->) | Hfull]].
  - cbn. repeat split; assumption.
  - cbn. repeat split; assumption.
  - destruct Hfull as (r9 & _ & _ & (K & _) & ->).
    destruct K as (K1 & K2 & K3 & K4 & K5 & K6 & K7 & K8 & K9 & _).
    cbn in A1, A2, A3, A4, A5, A6, A7, A8, A9 |- *.
    repeat split; congruence.
Qed.

(** [SetResolution] keeps the targets fitting: it makes all four again at
    the new size, or returns at once. *)
Lemma SetResolution_fits (w h : Z) (r : t) :
  targets_fit r -> targets_fit (SetResolution w h r).
Proof.
  intros Hfit. unfold SetResolution.
  destruct (Z.eqb_spec w 0) as [Ew|Ew]; [exact Hfit |].
  destruct (Z.eqb_spec h 0) as [Eh|Eh]; [exact Hfit |].
  vm_compute. repeat split; assumption.
Qed.

(** X11: Whatever the host calls, in whatever order, the four render targets have
    the size of the resolution setting and that size has no zero in it,
    once this is so: [SetResolution] remakes all four at the new size or,
    for a zero, none, and a frame does not touch them. *)
Theorem targets_always_fit (cs : list HostCall) (r r' : t) :
  targets_fit r -> host_calls cs r = Some r' -> targets_fit r'.
Proof.
  unfold host_calls. revert r.
  induction cs as [|c cs IH]; intros r Hfit H; cbn [for_each] in H.
  - injection H as <-. exact Hfit.
  - destruct (host_call c r) as [r1|] eqn:E; cbn [bind] in H;
      [| discriminate].
    apply (IH r1); [| exact H]. clear IH H.
    destruct c as [w h | rs ld lp | e]; cbn [host_call] in E.
    + injection E as <-. apply SetResolution_fits, Hfit.
    + injection E as <-. exact Hfit.
    + destruct (Render_keeps_the_targets _ _ _ E)
        as (K1 & K2 & K3 & K4 & K5 & _).
      unfold targets_fit, sized, RESOLUTION_WIDTH, RESOLUTION_HEIGHT in *.
      rewrite K1, K2, K3, K4, K5. exact Hfit.
Qed.

(** X12: With a main camera in the scene and no skybox object, a frame leaves
    the renderer's skybox and line renderer pointers as the frame before set
    them: only a scene without camera resets them. *)
Theorem Render_keeps_a_skybox_the_scene_lost (e : Engine) (r r' : t) :
  Render e r = Some r' ->
  Scene_GetMainCamera e <> None ->
  Scene_GetSkybox e = None ->
  m_skybox r' = m_skybox r /\ m_lineRenderer r' = m_lineRenderer r.
Proof.
  intros H Hcam Hsky.
  destruct (Render_shape _ _ _ H) as (r1 & E1 & Hcases).
  assert (A : m_skybox r1 = m_skybox r /\ m_lineRenderer r1 = m_lineRenderer r).
  { unfold AcquirePrerequisites in E1. rewrite Hsky in E1.
    destruct (Scene_GetMainCamera e) as [cameraObject|]; [| contradiction].
    cbv zeta in E1.
    match type of E1 with
    | bind ?c _ = _ => destruct c as [camera|]; [| discriminate]
    end.
    cbn [bind] in E1. injection E1 as <-.
    destruct (m_lightsDirectional _); split; reflexivity. }
  destruct A as (A1 & A2).
  destruct Hcases as [(_ & ->) | [(camera & _ & _ & ->) | Hfull]].
  - cbn. split; assumption.
  - cbn. split; assumption.
  - destruct Hfull as (r9 & _ & _ & (K & _) & ->).
    destruct K as (_ & _ & _ & _ & _ & _ & _ & _ & _ & _ & _ & _ & S & Ln).
    cbn in A1, A2 |- *. split; congruence.
Qed.

(** ** The shadow-depth pass *)

Lemma depth_object_draws (light : Light) (i : nat) (a : GameObject)
  (s s' : t) :
  depth_object light i a s = Some s' ->
  m_renderables s' = m_renderables s
  /\ exists evs,
       log s' = log s ++ evs
       /\ count_events is_depth_draw evs
          = if casts_shadow a then 1%nat else 0%nat.
Proof.
  unfold depth_object, casts_shadow.
  destruct (GameObject_MeshFilter a) as [meshFilter|]; [| discriminate].
  cbn [bind].
  destruct (MeshFilter_GetMesh meshFilter).
  2:{ intros H; injection H as <-. split; [reflexivity |].
      exists []. rewrite app_nil_r. split; reflexivity. }
  destruct (GameObject_Skybox a).
  { intros H; injection H as <-. split; [reflexivity |].
    exists []. rewrite app_nil_r. split; reflexivity. }
  destruct (GameObject_MeshRenderer a) as [meshRenderer|]; [| discriminate].
  cbn [bind].
  destruct (MeshRenderer_GetCastShadows meshRenderer); cbn [negb andb].
  2:{ intros H; injection H as <-. split; [reflexivity |].
      exists []. rewrite app_nil_r. split; reflexivity. }
  destruct (MeshFilter_SetBuffers meshFilter);
    intros H; injection H as <-; (split; [reflexivity |]);
    eexists; (split; [cbn; rewrite <- app_assoc; reflexivity | reflexivity])
    || (eexists; split; reflexivity).
Qed.

Lemma depth_objects_draws (light : Light) (i : nat) :
  forall (objects : list GameObject) (s s' : t),
  for_each (depth_object light i) objects s = Some s' ->
  m_renderables s' = m_renderables s
  /\ exists evs,
       log s' = log s ++ evs
       /\ count_events is_depth_draw evs
          = length (filter casts_shadow objects).
Proof.
  induction objects as [|a rest IH]; intros s s' H; cbn [for_each] in H.
  - injection H as <-. split; [reflexivity |].
    exists []. rewrite app_nil_r. split; reflexivity.
  - destruct (depth_object light i a s) as [s1|] eqn:E; cbn [bind] in H;
      [| discriminate].
    destruct (depth_object_draws _ _ _ _ _ E) as (R1 & e1 & L1 & C1).
    destruct (IH s1 s' H) as (R2 & e2 & L2 & C2).
    split; [congruence |]. exists (e1 ++ e2).
    rewrite L2, L1, count_events_app, C1, C2, app_assoc.
    split; [reflexivity |]. cbn [filter].
    destruct (casts_shadow a); reflexivity.
Qed.

Lemma depth_cascades_draws (light : Light) :
  forall (cascades : list nat) (s s' : t),
  for_each (depth_cascade light) cascades s = Some s' ->
  m_renderables s' = m_renderables s
  /\ exists evs,
       log s' = log s ++ evs
       /\ count_events is_depth_draw evs
          = (length cascades
             * length (filter casts_shadow (m_renderables s)))%nat.
Proof.
  induction cascades as [|i rest IH]; intros s s' H; cbn [for_each] in H.
  - injection H as <-. split; [reflexivity |].
    exists []. rewrite app_nil_r. split; reflexivity.
  - destruct (depth_cascade light i s) as [s1|] eqn:E; cbn [bind] in H;
      [| discriminate].
    unfold depth_cascade in E.
    destruct (depth_objects_draws _ _ _ _ _ E) as (R1 & e1 & L1 & C1).
    destruct (IH s1 s' H) as (R2 & e2 & L2 & C2).
    cbn in R1, L1, C1.
    split; [congruence |].
    exists ([Light_SetShadowMapAsRenderTarget i] ++ e1 ++ e2).
    rewrite L2, L1, !count_events_app, C1, C2, R1, <- !app_assoc.
    split; [reflexivity |]. cbn. lia.
Qed.

(** X13: A shadow-depth pass that returns has logged one depth draw for each
    cascade of the light and each renderable that has a mesh, casts shadows,
    is no skybox, and whose mesh filter set its buffers. *)
Theorem DirectionalLightDepthPass_draws (light : Light) (r r' : t) :
  m_directionalLight r = Some light ->
  DirectionalLightDepthPass r = Some r' ->
  exists evs,
    log r' = log r ++ evs
    /\ count_events is_depth_draw evs
       = (Light_GetCascadeCount light
          * length (filter casts_shadow (m_renderables r)))%nat.
Proof.
  intros Hl H. unfold DirectionalLightDepthPass in H. cbv zeta in H.
  change (m_directionalLight (emit _ (emit _ r)))
    with (m_directionalLight r) in H.
  rewrite Hl in H. cbn [bind] in H.
  destruct (depth_cascades_draws _ _ _ _ H) as (_ & evs & L & C).
  exists ([Call M_DirectionalLightDepthPass; Graphics_SetCullMode CullFront]
          ++ evs).
  rewrite L, count_events_app, C, length_seq. cbn.
  rewrite <- !app_assoc. split; reflexivity.
Qed.

(** ** Culling twice *)

(** X14: Where a matrix does not differ from itself, a query leaves planes that
    are not stale: the next query constructs nothing and leaves the renderer
    as it is. *)
Theorem IsInViewFrustrum_constructs_once
  (center extent center' extent' : Vector3.t) (r : t) :
  (forall m : Matrix, Matrix_neqb m m = false) ->
  let r1 := snd (IsInViewFrustrum center extent r) in
  frustrum_is_stale r1 = false
  /\ snd (IsInViewFrustrum center' extent' r1) = r1.
Proof.
  intros Hirr. cbv zeta.
  assert (S : frustrum_is_stale (snd (IsInViewFrustrum center extent r))
              = false).
  { unfold IsInViewFrustrum.
    destruct (frustrum_is_stale r) eqn:E; cbv zeta;
      match goal with
      | |- context [match ?c with Outside => _ | _ => _ end] => destruct c
      end; cbn [snd]; try exact E;
      unfold frustrum_is_stale; cbn; rewrite !Hirr; reflexivity. }
  split; [exact S |].
  unfold IsInViewFrustrum at 1. rewrite S.
  match goal with
  | |- context [match ?c with Outside => _ | _ => _ end] => destruct c
  end; reflexivity.
Qed.

End Passes.

Import Sample.

(** The theorems on the sample scene. *)

Lemma GBufferPass_fills_the_texture_slots_witness :
  let r :=
    set_m_directionalLight (Some sun)
      (set_m_renderables [cube; cube_without_mesh] renderer) in
  exists r' : t,
    GBufferPass engine r = Some r'
    /\ m_textures r' = []
    /\ exists evs,
         log r' = log r ++ evs
         /\ Forall (fun textures => length textures = 8%nat) (resources evs).
Proof.
  cbv zeta. eexists. split; [vm_compute; reflexivity |].
  apply (@GBufferPass_fills_the_texture_slots LabelMatrix FarPlaneFrustrum
           engine
           (set_m_directionalLight (Some sun)
              (set_m_renderables [cube; cube_without_mesh] renderer)));
    [reflexivity | vm_compute; reflexivity].
Defined.

Lemma Render_publishes_the_draws_witness :
  exists (r' : t) (evs : list Event),
    Render engine (Update [cube; cube] [sunObject] [] renderer) = Some r'
    /\ log r' = evs
    /\ GetRenderedMeshesCount r' = Z.of_nat (count_events is_mesh_draw evs)
    /\ GetRenderedMeshesCount r' = 2%Z.
Proof.
  destruct (Render engine (Update [cube; cube] [sunObject] [] renderer))
    as [r'|] eqn:E; [| vm_compute in E; discriminate].
  destruct (@Render_publishes_the_draws LabelMatrix FarPlaneFrustrum engine
              (Update [cube; cube] [sunObject] [] renderer) r' E)
    as (evs & L & C); [discriminate | discriminate |].
  exists r', evs. split; [reflexivity |]. split; [exact L |].
  split; [exact C |].
  vm_compute in E. injection E as <-. reflexivity.
Defined.

Lemma targets_always_fit_witness :
  exists r' : t,
    host_calls [CallSetResolution 800 600; CallSetResolution 0 600;
                CallUpdate [cube] [] []; CallRender engine] renderer
    = Some r'
    /\ targets_fit r'.
Proof.
  eexists. split; [vm_compute; reflexivity |].
  apply (@targets_always_fit LabelMatrix FarPlaneFrustrum
           [CallSetResolution 800 600; CallSetResolution 0 600;
            CallUpdate [cube] [] []; CallRender engine] renderer).
  - unfold targets_fit, sized. cbn. repeat split; discriminate.
  - vm_compute. reflexivity.
Defined.

Lemma Render_keeps_a_skybox_the_scene_lost_witness :
  let skybox := {| Skybox_GetEnvironmentTexture := Some SRV_Environment |} in
  let r := set_m_skybox (Some skybox) (Update [cube] [] [] renderer) in
  exists r' : t,
    Render engine r = Some r'
    /\ m_skybox r' = Some skybox /\ m_lineRenderer r' = None.
Proof.
  cbv zeta. eexists. split; [vm_compute; reflexivity |].
  apply (@Render_keeps_a_skybox_the_scene_lost LabelMatrix FarPlaneFrustrum
           engine
           (set_m_skybox
              (Some {| Skybox_GetEnvironmentTexture := Some SRV_Environment |})
              (Update [cube] [] [] renderer)));
    [vm_compute; reflexivity | discriminate | reflexivity].
Defined.

Lemma DirectionalLightDepthPass_draws_witness :
  let r :=
    set_m_directionalLight (Some sun)
      (set_m_renderables [cube; cube_without_mesh; cube_without_material]
         renderer) in
  exists (r' : t) (evs : list Event),
    DirectionalLightDepthPass r = Some r'
    /\ log r' = log r ++ evs
    /\ count_events is_depth_draw evs = 2%nat.
Proof.
  cbv zeta.
  destruct (DirectionalLightDepthPass
              (set_m_directionalLight (Some sun)
                 (set_m_renderables
                    [cube; cube_without_mesh; cube_without_material]
                    renderer))) as [r'|] eqn:E;
    [| vm_compute in E; discriminate].
  destruct (@DirectionalLightDepthPass_draws LabelMatrix FarPlaneFrustrum
              sun
              (set_m_directionalLight (Some sun)
                 (set_m_renderables
                    [cube; cube_without_mesh; cube_without_material]
                    renderer))
              r' eq_refl E) as (evs & L & C).
  exists r', evs. split; [reflexivity |]. split; [exact L | exact C].
Defined.

Lemma IsInViewFrustrum_constructs_once_witness :
  let r := set_mView 12%Z (set_mProjection 10%Z renderer) in
  let r1 := snd (IsInViewFrustrum (Vector3.mk 0 0 50) (Vector3.mk 1 1 1) r) in
  frustrum_is_stale r = true
  /\ frustrum_is_stale r1 = false
  /\ snd (IsInViewFrustrum (Vector3.mk 0 0 500) (Vector3.mk 1 1 1) r1) = r1.
Proof.
  cbv zeta. split; [reflexivity |].
  assert (Hirr : forall m : @Matrix LabelMatrix, Matrix_neqb m m = false).
  { intros m. cbn. rewrite Z.eqb_refl. reflexivity. }
  exact (@IsInViewFrustrum_constructs_once LabelMatrix FarPlaneFrustrum
           _ _ _ _ _ Hirr).
Defined.

End RendererExtra.

(** * Properties of the pipeline state cache *)

Module PipelineStateSpec.
Import RHI_PipelineState.

Lemma update_same {A : Type} (f : Category -> A) (c : Category) (a : A) :
  update f c a c = a.
Proof. unfold update. destruct (Category_eq_dec c c); congruence. Qed.

Lemma update_other {A : Type} (f : Category -> A) (c c' : Category) (a : A) :
  c <> c' -> update f c a c' = f c'.
Proof. unfold update. destruct (Category_eq_dec c c'); congruence. Qed.

(** After a call of a setter, the same call again changes nothing. *)
Lemma Set_twice (c : Category) (v : Value) (s : t) :
  snd (Set_ c v (snd (Set_ c v s))) = snd (Set_ c v s).
Proof.
  unfold Set_ at 2 3.
  destruct (validates c && match v with [] => true | _ => false end) eqn:E.
  - cbn [snd]. unfold Set_. rewrite E. reflexivity.
  - destruct (Value_eq_dec (cached s c) v) as [Heq | Hne]; cbn [snd].
    + unfold Set_. rewrite E.
      destruct (Value_eq_dec (cached s c) v); [reflexivity | contradiction].
    + unfold Set_. rewrite E. cbn [cached]. rewrite update_same.
      destruct (Value_eq_dec v v); [reflexivity | contradiction].
Qed.

Lemma set_repeatedly_once (n : nat) (c : Category) (v : Value) (s : t) :
  set_repeatedly (S n) c v s = snd (Set_ c v s).
Proof.
  induction n as [|n IH].
  - reflexivity.
  - change (set_repeatedly (S (S n)) c v s)
      with (set_repeatedly (S n) c v (snd (Set_ c v s))).
    revert IH. generalize (S n). intros m IH.
    clear IH. revert s. induction m as [|m IHm]; intros s.
    + reflexivity.
    + cbn [set_repeatedly]. rewrite Set_twice. apply IHm.
Qed.

(** What [Bind] does to the state, category by category. *)
Lemma Bind_fold (device : Category -> Value -> bool) :
  forall (l : list Category) (ok : bool) (s : t),
  NoDup l ->
  let s' := snd (fold_left (bind_category device) l (ok, s)) in
  cached s' = cached s
  /\ committed s'
     = committed s ++ map (fun c => (c, cached s c)) (filter (dirty s) l)
  /\ (forall c, ~ In c l -> dirty s' c = dirty s c)
  /\ (forall c, In c l -> dirty s' c
                = dirty s c && negb (device c (cached s c))).
Proof.
  induction l as [|c l IH]; intros ok s Hnd; cbn [fold_left filter].
  - cbn. rewrite app_nil_r. repeat split; intros c []; reflexivity.
  - inversion Hnd as [|? ? Hnotin Hnd']; subst.
    assert (Hacc : bind_category device (ok, s) c
                   = if dirty s c
                     then (ok && device c (cached s c),
                           mk (cached s)
                              (if device c (cached s c)
                               then update (dirty s) c false else dirty s)
                              (committed s ++ [(c, cached s c)]))
                     else (ok, s)) by reflexivity.
    rewrite Hacc. clear Hacc.
    destruct (dirty s c) eqn:Ed.
    + match goal with
      | |- context [fold_left _ l (?b, ?x)] =>
          specialize (IH b x Hnd'); set (s1 := x) in *
      end.
      cbv zeta in IH. destruct IH as (Hc & Hm & Hout & Hin).
      assert (Hf : filter (dirty s1) l = filter (dirty s) l).
      { apply filter_ext_in. intros a Ha. unfold s1. cbn [dirty].
        destruct (device c (cached s c)); [| reflexivity].
        apply update_other. intros ->. contradiction. }
      cbv zeta. rewrite Hc, Hm, Hf. unfold s1 at 1 2 3.
      cbn [cached committed map].
      split; [reflexivity |]. split; [rewrite <- app_assoc; reflexivity |].
      split.
      * intros c' Hc'. rewrite Hout by (intros H; apply Hc'; right; exact H).
        unfold s1. cbn [dirty].
        destruct (device c (cached s c)); [| reflexivity].
        apply update_other. intros ->. apply Hc'. left. reflexivity.
      * intros c' [<- | Hc'].
        -- rewrite Hout by exact Hnotin. unfold s1. cbn [dirty].
           rewrite Ed.
           destruct (device c (cached s c)); cbn;
             [apply update_same | exact Ed].
        -- rewrite Hin by exact Hc'. unfold s1. cbn [dirty cached].
           destruct (device c (cached s c)); [| reflexivity].
           rewrite update_other; [reflexivity |].
           intros ->. contradiction.
    + specialize (IH ok s Hnd'). cbv zeta in IH.
      destruct IH as (Hc & Hm & Hout & Hin).
      cbv zeta. repeat split; try assumption.
      * intros c' Hc'. apply Hout. intros H. apply Hc'. right. exact H.
      * intros c' [<- | Hc'].
        -- rewrite Hout by exact Hnotin. rewrite Ed. reflexivity.
        -- apply Hin, Hc'.
Qed.

Lemma bind_order_NoDup : NoDup bind_order.
Proof.
  unfold bind_order.
  repeat (constructor; [cbn; intuition discriminate |]). constructor.
Qed.

Lemma bind_order_complete (c : Category) : In c bind_order.
Proof. destruct c; cbn; tauto. Qed.

Lemma commits_of_filter (d : Category -> bool) (f : Category -> Value)
  (c : Category) : forall l : list Category,
  NoDup l -> In c l ->
  commits_of c (map (fun c => (c, f c)) (filter d l))
  = if d c then 1%nat else 0%nat.
Proof.
  assert (Hout : forall l, ~ In c l ->
            commits_of c (map (fun c => (c, f c)) (filter d l)) = 0%nat).
  { induction l as [|a l IH]; intros Hn; [reflexivity |].
    cbn [filter]. assert (c <> a) by (intros ->; apply Hn; left; reflexivity).
    assert (~ In c l) by (intros H'; apply Hn; right; exact H').
    destruct (d a); [| apply IH; assumption].
    unfold commits_of. cbn [map filter fst].
    destruct (Category_eq_dec c a); [contradiction |].
    apply IH. assumption. }
  induction l as [|a l IH]; intros Hnd Hin; [destruct Hin |].
  inversion Hnd as [|? ? Hnotin Hnd']; subst.
  cbn [filter]. destruct Hin as [-> | Hin].
  - destruct (d c).
    + unfold commits_of. cbn [map filter fst].
      destruct (Category_eq_dec c c); [| contradiction].
      cbn [length]. f_equal. apply (Hout l Hnotin).
    + apply (Hout l Hnotin).
  - assert (c <> a) by (intros ->; contradiction).
    destruct (d a) eqn:Ea.
    + unfold commits_of. cbn [map filter fst].
      destruct (Category_eq_dec c a); [contradiction |].
      apply IH; assumption.
    + apply IH; assumption.
Qed.

(** C2: for every category [c] and value [v], a second call in a row of the
    setter with [v] leaves the state as the first call left it, so the
    category is dirtied at most once, however often the call is repeated;
    the same call after a [Bind] changes nothing either.  [Bind] sends the
    device one commit for each dirty category and none for a clean one, so
    it sends the same commits after many identical calls as after one. *)
Theorem redundant_sets_cost_one_commit
  (device : Category -> Value -> bool) (c : Category) (v : Value) (s : t) :
  let s1 := snd (Set_ c v s) in
  snd (Set_ c v s1) = s1
  /\ (forall n, set_repeatedly (S n) c v s = s1)
  /\ snd (Set_ c v (snd (Bind device s1))) = snd (Bind device s1)
  /\ (forall c', commits_of c' (sent device s)
                 = if dirty s c' then 1%nat else 0%nat)
  /\ (forall n, sent device (set_repeatedly (S n) c v s) = sent device s1).
Proof.
  cbv zeta.
  split; [apply Set_twice |].
  split; [intros n; apply set_repeatedly_once |].
  split.
  { pose proof (Bind_fold device true (snd (Set_ c v s)) bind_order_NoDup)
      as (Hc & _).
    fold (Bind device (snd (Set_ c v s))) in Hc.
    set (s2 := snd (Bind device (snd (Set_ c v s)))) in *.
    unfold Set_ at 1.
    destruct (validates c && match v with [] => true | _ => false end) eqn:E;
      [reflexivity |].
    rewrite Hc.
    assert (Hv : cached (snd (Set_ c v s)) c = v).
    { unfold Set_. rewrite E.
      destruct (Value_eq_dec (cached s c) v) as [Heq | Hne]; cbn [snd];
        [exact Heq | apply update_same]. }
    rewrite Hv. destruct (Value_eq_dec v v); [reflexivity | contradiction]. }
  split.
  { intros c'. unfold sent.
    pose proof (Bind_fold device true s bind_order_NoDup) as (_ & Hm & _).
    fold (Bind device s) in Hm. rewrite Hm, skipn_app, Nat.sub_diag.
    rewrite skipn_all. cbn [app skipn].
    apply commits_of_filter;
      [apply bind_order_NoDup | apply bind_order_complete]. }
  intros n. rewrite set_repeatedly_once. reflexivity.
Qed.

End PipelineStateSpec.

(** * Properties of the World *)

Module WorldExtra.
Import World.

#[local] Unset Implicit Arguments.

(** ** Scene resolution *)

Lemma last_such_cons (p : Actor -> bool) (a : Actor) (rest : list Actor)
  (fallback : option Actor) :
  last_such p (a :: rest) fallback
  = last_such p rest (if p a then Some a else fallback).
Proof.
  unfold last_such. cbn [filter]. destruct (p a); [| reflexivity].
  cbn [rev]. destruct (rev (filter p rest)); reflexivity.
Qed.

Lemma last_such_none (p : Actor -> bool) (actors : list Actor)
  (fallback : option Actor) :
  Forall (fun b => p b = false) actors ->
  last_such p actors fallback = fallback.
Proof.
  induction 1 as [|b rest Hb _ IH]; [reflexivity |].
  rewrite last_such_cons, Hb. exact IH.
Qed.

Lemma last_such_last (p : Actor -> bool) (pre post : list Actor) (a : Actor)
  (fallback : option Actor) :
  p a = true -> Forall (fun b => p b = false) post ->
  last_such p (pre ++ a :: post) fallback = Some a.
Proof.
  intros Ha Hpost. revert fallback.
  induction pre as [|b pre IH]; intros fallback; cbn [app];
    rewrite last_such_cons.
  - rewrite Ha. apply last_such_none, Hpost.
  - apply IH.
Qed.

(** What the loop of [Resolve] does to the members. *)
Lemma resolve_loop_spec : forall (actors : list Actor) (w : t),
  m_renderables (resolve_loop actors w)
  = m_renderables w ++ filter rendering_related actors
  /\ m_mainCamera (resolve_loop actors w)
     = last_such Actor_Camera actors (m_mainCamera w)
  /\ m_skybox (resolve_loop actors w)
     = last_such Actor_Skybox actors (m_skybox w)
  /\ m_actors (resolve_loop actors w) = m_actors w
  /\ m_ambientLight (resolve_loop actors w) = m_ambientLight w
  /\ m_state (resolve_loop actors w) = m_state w
  /\ m_isDirty (resolve_loop actors w) = m_isDirty w
  /\ m_wasInEditorMode (resolve_loop actors w) = m_wasInEditorMode w
  /\ log (resolve_loop actors w) = log w.
Proof.
  induction actors as [|a rest IH]; intros w; cbn [resolve_loop filter].
  - rewrite app_nil_r. repeat split.
  - destruct (IH (resolve_actor a w))
      as (R & C & S & A & L & T & D & E & G).
    rewrite R, C, S, A, L, T, D, E, G, !last_such_cons.
    unfold resolve_actor, rendering_related. cbv zeta.
    destruct (Actor_Camera a), (Actor_Skybox a), (Actor_Renderable a),
      (Actor_Light a); cbn; rewrite <- ?app_assoc; repeat split.
Qed.

Lemma Resolve_spec (w : t) :
  m_renderables (Resolve w) = filter rendering_related (m_actors w)
  /\ m_mainCamera (Resolve w)
     = last_such Actor_Camera (m_actors w) (m_mainCamera w)
  /\ m_skybox (Resolve w) = last_such Actor_Skybox (m_actors w) (m_skybox w)
  /\ m_actors (Resolve w) = m_actors w
  /\ m_ambientLight (Resolve w) = m_ambientLight w
  /\ m_state (Resolve w) = m_state w
  /\ m_isDirty (Resolve w) = m_isDirty w
  /\ m_wasInEditorMode (Resolve w) = m_wasInEditorMode w
  /\ log (Resolve w)
     = log w
       ++ [EVENT_SCENE_RESOLVE_END (filter rendering_related (m_actors w))].
Proof.
  unfold Resolve. cbv zeta.
  destruct (resolve_loop_spec (m_actors (set_m_renderables [] w))
              (set_m_renderables [] w))
    as (R & C & S & A & L & T & D & E & G).
  cbn [emit set_log m_renderables m_mainCamera m_skybox m_actors
       m_ambientLight m_state m_isDirty m_wasInEditorMode log].
  rewrite R, C, S, A, L, T, D, E, G. cbn. repeat split.
Qed.

(** X15: [Resolve] rebuilds the renderable list from the actors alone: it holds
    the actors that have a camera, a skybox, a renderable or a light, in the
    order of the scene, whatever it held before; the event it fires carries
    that list; the actors are as before. *)
Theorem Resolve_renderables (w : t) :
  m_renderables (Resolve w) = filter rendering_related (m_actors w)
  /\ log (Resolve w)
     = log w
       ++ [EVENT_SCENE_RESOLVE_END (filter rendering_related (m_actors w))]
  /\ m_actors (Resolve w) = m_actors w.
Proof.
  destruct (Resolve_spec w) as (R & _ & _ & A & _ & _ & _ & _ & G).
  repeat split; assumption.
Qed.

(** X16: With several cameras in the scene the main camera is the last one: the
    loop overwrites [m_mainCamera] at every actor that has a camera. *)
Theorem Resolve_main_camera_is_the_last
  (pre post : list Actor) (a : Actor) (w : t) :
  m_actors w = pre ++ a :: post ->
  Actor_Camera a = true ->
  Forall (fun b => Actor_Camera b = false) post ->
  m_mainCamera (Resolve w) = Some a.
Proof.
  intros Hw Ha Hpost.
  destruct (Resolve_spec w) as (_ & C & _).
  rewrite C, Hw. apply last_such_last; assumption.
Qed.

(** X17: [Unload] empties the actors and the renderables, and the main camera
    and the skybox pointers expire with the actors they referred to; a
    [Resolve] of the unloaded scene finds no actor to assign them from, so
    both stay expired and it publishes an empty list. *)
Theorem Resolve_after_Unload (w : t) :
  m_actors (Resolve (Unload w)) = []
  /\ m_renderables (Resolve (Unload w)) = []
  /\ m_mainCamera (Resolve (Unload w)) = None
  /\ m_skybox (Resolve (Unload w)) = None
  /\ log (Resolve (Unload w))
     = log w ++ [EVENT_SCENE_UNLOAD; EVENT_SCENE_RESOLVE_END []].
Proof.
  destruct (Resolve_spec (Unload w)) as (R & C & S & A & _ & _ & _ & _ & G).
  rewrite R, C, S, A, G. cbn. rewrite <- app_assoc. repeat split.
Qed.

(** ** The tick *)

Lemma call_each_spec (call : Actor -> Event) :
  forall (actors : list Actor) (w : t),
  call_each call actors w = set_log (log w ++ map call actors) w.
Proof.
  induction actors as [|a rest IH]; intros w; cbn [call_each map].
  - rewrite app_nil_r. destruct w. reflexivity.
  - rewrite IH. cbn. rewrite <- app_assoc. reflexivity.
Qed.

(** A tick of an idle world. *)
Lemma Tick_idle (game : bool) (w : t) :
  m_state w = Scene_Idle ->
  m_actors (Tick game w) = m_actors w
  /\ m_state (Tick game w) = Scene_Idle
  /\ m_isDirty (Tick game w) = false
  /\ m_wasInEditorMode (Tick game w) = negb game
  /\ log (Tick game w)
     = log w
       ++ (if m_isDirty w
           then [EVENT_SCENE_RESOLVE_END
                   (filter rendering_related (m_actors w))]
           else [])
       ++ round (m_actors w) (negb (m_wasInEditorMode w)) game.
Proof.
  intros Hs. unfold Tick, round. rewrite Hs. cbv zeta.
  rewrite !call_each_spec.
  destruct (Resolve_spec (set_m_state Scene_Ticking w))
    as (_ & _ & _ & A & _ & _ & _ & E & G).
  change (m_actors (set_m_state Scene_Ticking w)) with (m_actors w) in A, G.
  change (m_wasInEditorMode (set_m_state Scene_Ticking w))
    with (m_wasInEditorMode w) in E.
  change (log (set_m_state Scene_Ticking w)) with (log w) in G.
  change (m_isDirty (set_m_state Scene_Ticking w)) with (m_isDirty w).
  generalize dependent (Resolve (set_m_state Scene_Ticking w)).
  intros R A E G.
  destruct (m_isDirty w) eqn:Ed, game, (m_wasInEditorMode w) eqn:Ew;
    repeat (cbn; rewrite ?E, ?Ew, ?call_each_spec);
    rewrite ?A, ?G, ?app_nil_r, <- ?app_assoc; cbn; repeat split;
    exact Ed.
Qed.

(** X18: [Tick] does nothing at all while the world is saving, loading or
    already ticking.  On an idle world it resolves the scene first if it is
    dirty, starts the actors if the engine is in game mode and was not at
    the tick before, stops them in the opposite case, never both, and then
    ticks every actor once, in the order of the scene; it leaves the world
    idle and clean. *)
Theorem Tick_calls (game : bool) (w : t) :
  match m_state w with
  | Scene_Idle =>
      log (Tick game w)
      = log w
        ++ (if m_isDirty w
            then [EVENT_SCENE_RESOLVE_END
                    (filter rendering_related (m_actors w))]
            else [])
        ++ (if game && m_wasInEditorMode w
            then map Actor_Start (m_actors w) else [])
        ++ (if negb game && negb (m_wasInEditorMode w)
            then map Actor_Stop (m_actors w) else [])
        ++ map Actor_Tick (m_actors w)
      /\ m_state (Tick game w) = Scene_Idle
      /\ m_isDirty (Tick game w) = false
  | _ => Tick game w = w
  end.
Proof.
  destruct (m_state w) eqn:Hs; try (unfold Tick; rewrite Hs; reflexivity).
  destruct (Tick_idle game w Hs) as (_ & S & D & _ & G).
  rewrite G. unfold round. rewrite negb_involutive.
  repeat split; assumption.
Qed.

Lemma Ticks_idle : forall (modes : list bool) (w : t),
  m_state w = Scene_Idle ->
  m_isDirty w = false ->
  log (Ticks modes w)
  = log w ++ rounds (m_actors w) (negb (m_wasInEditorMode w)) modes.
Proof.
  unfold Ticks.
  induction modes as [|game rest IH]; intros w Hs Hd; cbn [fold_left rounds].
  - rewrite app_nil_r. reflexivity.
  - destruct (Tick_idle game w Hs) as (A & S & D & E & G).
    rewrite (IH (Tick game w) S D), A, E, G, Hd, negb_involutive.
    cbn [app]. rewrite <- app_assoc. reflexivity.
Qed.

(** X19: Any run of ticks of an idle world: the scene is resolved by the first
    tick only, and only if it was dirty; the actors are started by exactly
    the ticks at which the engine has entered game mode since the tick
    before, stopped by exactly those at which it has left it, and ticked by
    every tick. *)
Theorem Ticks_rounds (game : bool) (modes : list bool) (w : t) :
  m_state w = Scene_Idle ->
  log (Ticks (game :: modes) w)
  = log w
    ++ (if m_isDirty w
        then [EVENT_SCENE_RESOLVE_END (filter rendering_related (m_actors w))]
        else [])
    ++ rounds (m_actors w) (negb (m_wasInEditorMode w)) (game :: modes).
Proof.
  intros Hs. change (Ticks (game :: modes) w) with (Ticks modes (Tick game w)).
  destruct (Tick_idle game w Hs) as (A & S & D & E & G).
  rewrite (Ticks_idle modes (Tick game w) S D), A, E, G, negb_involutive.
  cbn [rounds]. rewrite <- !app_assoc. reflexivity.
Qed.

(** ** Actors *)

Lemma find_by_ID_app (ID : N) (a b : list Actor) :
  find_by_ID ID (a ++ b)
  = match find_by_ID ID a with
    | Some actor => Some actor
    | None => find_by_ID ID b
    end.
Proof.
  induction a as [|x a IH]; cbn [app find_by_ID]; [reflexivity |].
  destruct (Actor_GetID x =? ID)%N; [reflexivity | exact IH].
Qed.

(** X20: [GetActorByID] returns the first actor of the scene that has the ID. *)
Theorem GetActorByID_finds_the_first (ID : N) (actor : Actor) (w : t) :
  GetActorByID ID w = Some actor ->
  exists pre post,
    m_actors w = pre ++ actor :: post
    /\ Actor_GetID actor = ID
    /\ Forall (fun b => Actor_GetID b <> ID) pre.
Proof.
  unfold GetActorByID. induction (m_actors w) as [|x rest IH];
    cbn [find_by_ID]; [discriminate |].
  destruct (N.eqb_spec (Actor_GetID x) ID) as [E|E].
  - intros H. injection H as <-. exists [], rest.
    repeat split; [exact E | constructor].
  - intros H. destruct (IH H) as (pre & post & -> & Hid & Hpre).
    exists (x :: pre), post. repeat split; [exact Hid |].
    constructor; assumption.
Qed.

(** X21: An actor exists as soon as some actor of the scene has its ID, whether
    or not it is that actor; in particular an added actor exists, but
    looking up its ID returns an earlier actor with the same ID if there is
    one.  Adding a null pointer changes nothing. *)
Theorem Actor_Exists_is_by_ID (actor : Actor) (w : t) :
  (Actor_Exists (Some actor) w = true
   <-> exists b, In b (m_actors w) /\ Actor_GetID b = Actor_GetID actor)
  /\ Actor_Exists (Some actor) (Actor_Add (Some actor) w) = true
  /\ GetActorByID (Actor_GetID actor) (Actor_Add (Some actor) w)
     = match GetActorByID (Actor_GetID actor) w with
       | Some earlier => Some earlier
       | None => Some actor
       end
  /\ Actor_Add None w = w.
Proof.
  assert (F : forall ID l,
             (exists b, find_by_ID ID l = Some b)
             <-> exists b, In b l /\ Actor_GetID b = ID).
  { intros ID l. induction l as [|x l IH]; cbn [find_by_ID In].
    - split; [intros (b & H); discriminate | intros (b & [] & _)].
    - destruct (N.eqb_spec (Actor_GetID x) ID) as [E|E].
      + split; [intros _; exists x; split; [left; reflexivity | exact E]
               | intros _; exists x; reflexivity].
      + rewrite IH. split; intros (b & Hb & Hid).
        * exists b. split; [right; exact Hb | exact Hid].
        * destruct Hb as [<- | Hb]; [contradiction |].
          exists b. split; assumption. }
  assert (G : GetActorByID (Actor_GetID actor) (Actor_Add (Some actor) w)
              = match GetActorByID (Actor_GetID actor) w with
                | Some earlier => Some earlier
                | None => Some actor
                end).
  { unfold GetActorByID, Actor_Add. cbn [m_actors set_m_actors].
    rewrite find_by_ID_app. cbn [find_by_ID]. rewrite N.eqb_refl.
    reflexivity. }
  split; [| split; [| split; [exact G | reflexivity]]].
  - rewrite <- F. unfold Actor_Exists, GetActorByID.
    destruct (find_by_ID _ _) as [b|].
    + split; [intros _; exists b; reflexivity | reflexivity].
    + split; [discriminate | intros (b & H); discriminate].
  - unfold Actor_Exists. rewrite G.
    destruct (GetActorByID _ w); reflexivity.
Qed.

(** X22: [GetRootActors] returns the actors whose transform is a root, in the
    order of the scene. *)
Theorem GetRootActors_roots (w : t) :
  GetRootActors w = filter Actor_IsRoot (m_actors w).
Proof.
  unfold GetRootActors.
  assert (H : forall actors acc,
             GetRootActors_loop actors acc
             = acc ++ filter Actor_IsRoot actors).
  { induction actors as [|a rest IH]; intros acc;
      cbn [GetRootActors_loop filter].
    - rewrite app_nil_r. reflexivity.
    - rewrite IH. destruct (Actor_IsRoot a);
        [rewrite <- app_assoc |]; reflexivity. }
  apply H.
Qed.

(** The theorems on a sample scene: a cube, two cameras, a light, and an
    actor without components. *)

Lemma Resolve_main_camera_is_the_last_witness :
  let camera1 := sample_actor 2 true false false false in
  let camera2 := sample_actor 3 true true false false in
  let w :=
    sample_world [sample_actor 1 false false true false; camera1; camera2;
                  sample_actor 4 false false false true;
                  sample_actor 5 false false false false] in
  m_mainCamera (Resolve w) = Some camera2
  /\ length (m_renderables (Resolve w)) = 4%nat.
Proof.
  cbv zeta. split; [| reflexivity].
  apply (Resolve_main_camera_is_the_last
           [sample_actor 1 false false true false;
            sample_actor 2 true false false false]
           [sample_actor 4 false false false true;
            sample_actor 5 false false false false]);
    [reflexivity | reflexivity | repeat constructor].
Defined.

Lemma Ticks_rounds_witness :
  let a := sample_actor 1 false false true false in
  log (Ticks [true; true; false; false; true] (sample_world [a]))
  = [EVENT_SCENE_RESOLVE_END [a];
     Actor_Start a; Actor_Tick a;
     Actor_Tick a;
     Actor_Stop a; Actor_Tick a;
     Actor_Tick a;
     Actor_Start a; Actor_Tick a].
Proof.
  cbv zeta.
  rewrite (Ticks_rounds true [true; false; false; true]
             (sample_world [sample_actor 1 false false true false])
             eq_refl).
  reflexivity.
Defined.

Lemma GetActorByID_finds_the_first_witness :
  let first := sample_actor 7 false false true false in
  let second := sample_actor 7 true false false false in
  let w := sample_world [sample_actor 1 false false false false;
                         first; second] in
  GetActorByID 7 w = Some first
  /\ exists pre post,
       m_actors w = pre ++ first :: post
       /\ Actor_GetID first = 7%N
       /\ Forall (fun b => Actor_GetID b <> 7%N) pre.
Proof.
  cbv zeta. split; [reflexivity |].
  apply (GetActorByID_finds_the_first 7
           (sample_actor 7 false false true false)
           (sample_world [sample_actor 1 false false false false;
                          sample_actor 7 false false true false;
                          sample_actor 7 true false false false])).
  reflexivity.
Defined.

End WorldExtra.

(** * Properties of the image importer *)

Module ImageImporterExtra.
Import ImageImporter.

#[local] Unset Implicit Arguments.

Local Open Scope nat_scope.

(** ** Mip levels *)

Lemma log2_half (w : nat) : 2 <= w -> Nat.log2 w = S (Nat.log2 (w / 2)).
Proof.
  intros Hw.
  assert (H2 : 0 < w / 2).
  { apply Nat.div_str_pos. lia. }
  destruct (Nat.log2_spec (w / 2) H2) as (Hlo & Hhi).
  apply Nat.log2_unique; [lia |].
  rewrite !Nat.pow_succ_r' in *.
  pose proof (Nat.div_mod_eq w 2) as E.
  pose proof (Nat.mod_upper_bound w 2) as M.
  lia.
Qed.

Lemma add_jobs_spec : forall (fuel w h : nat) (acc : list RescaleJob),
  w <= fuel ->
  add_jobs fuel w h acc
  = Some (acc ++ map (mip_level w h)
                     (seq 1 (Nat.min (Nat.log2 w) (Nat.log2 h)))).
Proof.
  induction fuel as [|fuel IH]; intros w h acc Hf.
  - assert (w = 0) as -> by lia. cbn. rewrite app_nil_r. reflexivity.
  - cbn [add_jobs].
    destruct (Nat.ltb_spec 1 w) as [Hw|Hw];
      [destruct (Nat.ltb_spec 1 h) as [Hh|Hh] |]; cbn [andb].
    + assert (D : forall a, 2 <= a -> 1 <= a / 2).
      { intros a Ha. apply Nat.div_le_lower_bound; lia. }
      rewrite !Nat.max_l by (apply D; lia).
      rewrite IH.
      2:{ pose proof (Nat.div_mod_eq w 2). lia. }
      rewrite (log2_half w), (log2_half h) by lia.
      rewrite <- Nat.succ_min_distr. cbn [seq map].
      rewrite <- app_assoc. cbn [app].
      change (mip_level w h 1)
        with {| width := w / 2; height := h / 2; complete := false;
                data := [] |}.
      do 3 f_equal.
      rewrite <- (seq_shift _ 1), map_map. symmetry. apply map_ext.
      intros k.
      unfold mip_level. rewrite Nat.pow_succ_r', !Nat.Div0.div_div.
      reflexivity.
    + assert (E : Nat.log2 h = 0) by (apply Nat.log2_null; lia).
      rewrite E, Nat.min_0_r. cbn. rewrite app_nil_r. reflexivity.
    + assert (E : Nat.log2 w = 0) by (apply Nat.log2_null; lia).
      rewrite E. cbn. rewrite app_nil_r. reflexivity.
Qed.

(** X23: The loop that adds the mip jobs ends, and the jobs are the halvings of
    the size, rounded down, while both sides are above 1: level [k] is
    [width / 2^k] by [height / 2^k] and there are
    [min (log2 width) (log2 height)] levels.  So the chain stops as soon as
    one side is 1, and the [max (.., 1)] of the loop never applies. *)
Theorem add_jobs_levels (w h : nat) :
  add_jobs w w h []
  = Some (map (mip_level w h) (seq 1 (Nat.min (Nat.log2 w) (Nat.log2 h)))).
Proof. apply (add_jobs_spec w w h []). lia. Qed.

(** ** Reading the bits *)

Section Bits.
Context {FI : FreeImageLib}.

Lemma GetBits_pixels (bytes : list byte) (width : nat) :
  channels_in_pixel ->
  length bytes = 4 * width ->
  forall (n x0 : nat) (data : list byte),
  x0 + n <= width ->
  Renderer.for_each (GetBits_pixel bytes 4) (seq x0 n) (4 * x0, data)
  = Some (4 * (x0 + n),
          data ++ flat_map (fun x => rgba_at bytes (x * 4)) (seq x0 n)).
Proof.
  intros (Hr & Hg & Hb & Ha) Hlen.
  induction n as [|n IH]; intros x0 data Hx; cbn [seq Renderer.for_each].
  - rewrite Nat.add_0_r, app_nil_r. reflexivity.
  - unfold GetBits_pixel at 1.
    rewrite !(nth_error_nth' bytes 0%Z) by lia.
    cbn [Renderer.bind].
    replace (4 * x0 + 4) with (4 * S x0) by lia.
    rewrite IH by lia. cbn [flat_map]. unfold rgba_at at 2.
    replace (x0 * 4) with (4 * x0) by lia.
    rewrite <- !app_assoc. cbn [app].
    replace (S x0 + n) with (x0 + S n) by lia. reflexivity.
Qed.

Lemma GetBits_lines (bitmap : FIBITMAP_data) (width : nat) :
  channels_in_pixel ->
  forall (rows : list (list byte)) (y0 : nat) (data : list byte),
  skipn y0 (scanlines bitmap) = rows ->
  Forall (fun bytes => length bytes = 4 * width) rows ->
  Renderer.for_each (GetBits_line bitmap width 4) (seq y0 (length rows)) data
  = Some (data ++ flat_map (rgba_line 4 width) rows).
Proof.
  intros Hc.
  induction rows as [|bytes rows IH]; intros y0 data Hs Hrows;
    cbn [length seq Renderer.for_each flat_map].
  - rewrite app_nil_r. reflexivity.
  - unfold GetBits_line at 1.
    assert (E : nth_error (scanlines bitmap) y0 = Some bytes).
    { rewrite <- (Nat.add_0_r y0), <- nth_error_skipn, Hs. reflexivity. }
    rewrite E. cbn [Renderer.bind].
    inversion Hrows as [|? ? Hb Hrest]; subst.
    pose proof (GetBits_pixels bytes width Hc Hb width 0 data) as P.
    rewrite Nat.mul_0_r in P. rewrite P by lia.
    cbn [Renderer.bind snd].
    rewrite (IH (S y0)); [| | exact Hrest].
    + rewrite <- app_assoc. reflexivity.
    + replace (S y0) with (1 + y0) by lia.
      rewrite <- skipn_skipn, Hs. reflexivity.
Qed.

Lemma rgba_lines_length (width : nat) (rows : list (list byte)) :
  length (flat_map (rgba_line 4 width) rows) = 4 * width * length rows.
Proof.
  induction rows as [|bytes rows IH]; cbn [flat_map length]; [lia |].
  rewrite length_app, IH. unfold rgba_line.
  assert (L : forall l : list nat,
             length (flat_map (fun x => rgba_at bytes (x * 4)) l)
             = 4 * length l).
  { induction l as [|x l IHl]; cbn [flat_map length]; [lia |].
    rewrite length_app, IHl. cbn. lia. }
  rewrite L, length_seq. lia.
Qed.

(** X24: Of a bitmap of 32 bits a pixel, [GetBitsFromFIBITMAP] never reads past
    a scan line; it appends to the vector, which it does not clear, the
    red, green, blue and alpha byte of every pixel, line by line: four bytes
    for each pixel.  It answers false, and appends nothing, exactly when the
    bitmap has no width or no height. *)
Theorem GetBitsFromFIBITMAP_appends (data : list byte)
  (bitmap : FIBITMAP_data) :
  channels_in_pixel ->
  well_formed_32 bitmap ->
  let bits := flat_map (rgba_line 4 (FreeImage_GetWidth bitmap))
                       (scanlines bitmap) in
  GetBitsFromFIBITMAP data bitmap
  = Some (negb ((FreeImage_GetWidth bitmap =? 0)
                || (FreeImage_GetHeight bitmap =? 0)),
          data ++ bits)
  /\ length bits
     = 4 * FreeImage_GetWidth bitmap * FreeImage_GetHeight bitmap.
Proof.
  intros Hc (Hline & Hrows & Hall). cbv zeta.
  split; [| rewrite rgba_lines_length, Hrows; reflexivity].
  unfold GetBitsFromFIBITMAP. cbv zeta.
  destruct (Nat.eqb_spec (FreeImage_GetWidth bitmap) 0) as [Ew|Ew];
    cbn [orb negb].
  - assert (Z : flat_map (rgba_line 4 (FreeImage_GetWidth bitmap))
                         (scanlines bitmap) = []).
    { rewrite Ew. clear.
      induction (scanlines bitmap) as [|b l IHl]; [reflexivity | exact IHl]. }
    rewrite Z, app_nil_r. reflexivity.
  - destruct (Nat.eqb_spec (FreeImage_GetHeight bitmap) 0) as [Eh|Eh];
      cbn [negb].
    + rewrite Eh in Hrows. apply length_zero_iff_nil in Hrows.
      rewrite Hrows. cbn. rewrite app_nil_r. reflexivity.
    + rewrite Hline.
      replace (4 * FreeImage_GetWidth bitmap / FreeImage_GetWidth bitmap)
        with 4 by (symmetry; apply Nat.div_mul; exact Ew).
      rewrite <- Hrows.
      rewrite (GetBits_lines bitmap (FreeImage_GetWidth bitmap) Hc
                 (scanlines bitmap) 0 data eq_refl).
      * reflexivity.
      * rewrite <- Hline. exact Hall.
Qed.

End Bits.

(** ** Grayscale *)

Section Gray.

Lemma int_ok (z : Z) : (INT_MIN <= z <= INT_MAX)%Z -> int z = Some z.
Proof.
  intros (Hlo & Hhi). unfold int.
  apply Z.leb_le in Hlo, Hhi. rewrite Hlo, Hhi. reflexivity.
Qed.

Lemma GrayscaleCheck_not_empty (d : list byte) (width height : Z) :
  d <> [] ->
  GrayscaleCheck d width height
  = Renderer.bind (int (width * height)) (fun totalPixels =>
      Renderer.bind
        (Renderer.for_each (GrayscaleCheck_line d width 4)
           (seq 0 (Z.to_nat height)) 0%Z)
        (fun grayPixels => Some (grayPixels =? totalPixels)%Z)).
Proof.
  intros Hne. destruct d as [|b0 rest]; [contradiction | reflexivity].
Qed.

Variable data : list byte.
Variables w h : nat.
Hypothesis Hint : (4 * Z.of_nat w * Z.of_nat h <= INT_MAX)%Z.
Hypothesis Hlen : 4 * w * h <= length data.

Lemma channel_ok (i j : nat) (c : Z) :
  i < h -> j < w -> (0 <= c < 4)%Z ->
  channel data (Z.of_nat i) (Z.of_nat w) (Z.of_nat j) 4 c
  = Some (nth (4 * (i * w + j) + Z.to_nat c) data 0%Z).
Proof.
  intros Hi Hj Hc. unfold channel, INT_MAX in *.
  assert (B : (Z.of_nat i * Z.of_nat w + Z.of_nat j + 1
               <= Z.of_nat w * Z.of_nat h)%Z) by nia.
  rewrite int_ok by (unfold INT_MIN, INT_MAX; nia). cbn [Renderer.bind].
  rewrite int_ok by (unfold INT_MIN, INT_MAX; nia). cbn [Renderer.bind].
  rewrite int_ok by (unfold INT_MIN, INT_MAX; nia). cbn [Renderer.bind].
  rewrite int_ok by (unfold INT_MIN, INT_MAX; nia). cbn [Renderer.bind].
  replace (Z.to_nat ((Z.of_nat i * Z.of_nat w + Z.of_nat j) * 4 + c))
    with (4 * (i * w + j) + Z.to_nat c) by nia.
  apply nth_error_nth'. nia.
Qed.

Lemma GrayscaleCheck_pixel_ok (i j : nat) (g : Z) :
  i < h -> j < w -> (0 <= g <= Z.of_nat (i * w + j))%Z ->
  GrayscaleCheck_pixel data (Z.of_nat w) 4 (Z.of_nat i) j g
  = Some (g + gray_pixels data (i * w + j) 1)%Z.
Proof.
  intros Hi Hj Hg. unfold GrayscaleCheck_pixel. cbv zeta.
  rewrite !channel_ok by (assumption || lia). cbn [Renderer.bind].
  change (Z.to_nat 0) with 0. change (Z.to_nat 1) with 1.
  change (Z.to_nat 2) with 2. rewrite Nat.add_0_r.
  unfold gray_pixels. cbn [seq filter]. unfold grayb.
  destruct (_ && _); cbn [length].
  - apply int_ok. unfold INT_MIN, INT_MAX in *. nia.
  - rewrite Z.add_0_r. reflexivity.
Qed.

Lemma count_app (a n m : nat) :
  gray_pixels data a (n + m) = (gray_pixels data a n + gray_pixels data (a + n) m)%Z.
Proof.
  unfold gray_pixels. rewrite seq_app, filter_app, length_app. lia.
Qed.

Lemma count_le (a n : nat) : (0 <= gray_pixels data a n <= Z.of_nat n)%Z.
Proof.
  unfold gray_pixels. pose proof (filter_length_le (grayb data) (seq a n)) as L.
  rewrite length_seq in L. lia.
Qed.

Lemma GrayscaleCheck_pixels (i : nat) :
  i < h ->
  forall (n j0 : nat) (g : Z),
  j0 + n <= w -> (0 <= g <= Z.of_nat (i * w + j0))%Z ->
  Renderer.for_each (GrayscaleCheck_pixel data (Z.of_nat w) 4 (Z.of_nat i))
    (seq j0 n) g
  = Some (g + gray_pixels data (i * w + j0) n)%Z.
Proof.
  intros Hi. induction n as [|n IH]; intros j0 g Hj Hg;
    cbn [seq Renderer.for_each].
  - unfold gray_pixels. cbn. rewrite Z.add_0_r. reflexivity.
  - rewrite GrayscaleCheck_pixel_ok by (assumption || lia).
    cbn [Renderer.bind].
    pose proof (count_le (i * w + j0) 1) as C.
    rewrite IH by lia.
    change (S n) with (1 + n). rewrite count_app.
    replace (i * w + S j0) with (i * w + j0 + 1) by lia.
    rewrite Z.add_assoc. reflexivity.
Qed.

Lemma GrayscaleCheck_lines :
  forall (m i0 : nat) (g : Z),
  i0 + m <= h -> (0 <= g <= Z.of_nat (i0 * w))%Z ->
  Renderer.for_each (GrayscaleCheck_line data (Z.of_nat w) 4) (seq i0 m) g
  = Some (g + gray_pixels data (i0 * w) (m * w))%Z.
Proof.
  induction m as [|m IH]; intros i0 g Hi Hg; cbn [seq Renderer.for_each].
  - unfold gray_pixels. cbn. rewrite Z.add_0_r. reflexivity.
  - unfold GrayscaleCheck_line at 1. rewrite Nat2Z.id.
    rewrite (GrayscaleCheck_pixels i0) by lia.
    cbn [Renderer.bind]. rewrite Nat.add_0_r.
    pose proof (count_le (i0 * w) w) as C.
    rewrite IH by lia.
    change (S m * w) with (w + m * w). rewrite count_app.
    replace (S i0 * w) with (i0 * w + w) by lia.
    rewrite Z.add_assoc. reflexivity.
Qed.

Lemma count_all (n : nat) :
  gray_pixels data 0 n = Z.of_nat n
  <-> forall p, p < n -> grayb data p = true.
Proof.
  unfold gray_pixels.
  assert (F : forall l : list nat,
             length (filter (grayb data) l) = length l
             <-> Forall (fun p => grayb data p = true) l).
  { induction l as [|x l IHl]; cbn [filter length].
    - split; [constructor | reflexivity].
    - pose proof (filter_length_le (grayb data) l) as L.
      destruct (grayb data x) eqn:E; cbn [length].
      + split.
        * intros H. constructor; [exact E | apply IHl; lia].
        * intros H. inversion H; subst. f_equal. apply IHl. assumption.
      + split; [lia |]. intros H. inversion H; congruence. }
  rewrite Nat2Z.inj_iff.
  pose proof (F (seq 0 n)) as Fn. rewrite length_seq in Fn.
  rewrite Fn, Forall_forall. split.
  - intros H p Hp. apply H, in_seq. lia.
  - intros H p Hp. apply H. apply in_seq in Hp. lia.
Qed.

(** X25: On a vector that is not empty and holds the [4 * width * height] bytes
    of an image that size, within the range of [int], [GrayscaleCheck]
    reads no byte past the end and overflows nowhere; its answer is true
    exactly when every pixel has equal red, green and blue, whatever its
    alpha and whatever follows the image in the vector.  An image of no
    pixel is gray. *)
Theorem GrayscaleCheck_all_pixels :
  data <> [] ->
  exists b : bool,
    GrayscaleCheck data (Z.of_nat w) (Z.of_nat h) = Some b
    /\ (b = true <-> forall p, p < w * h -> grayb data p = true).
Proof.
  intros Hne. rewrite (GrayscaleCheck_not_empty data _ _ Hne).
  rewrite int_ok by (unfold INT_MIN, INT_MAX in *; nia).
  cbn [Renderer.bind]. rewrite Nat2Z.id.
  rewrite (GrayscaleCheck_lines h 0 0%Z) by lia.
  cbn [Renderer.bind]. rewrite Z.add_0_l, Nat.mul_0_l.
  eexists. split; [reflexivity |].
  rewrite Z.eqb_eq, <- Nat2Z.inj_mul, (Nat.mul_comm w h).
  apply count_all.
Qed.

End Gray.

(** ** The heap *)

Lemma alloc_spec (b : FIBITMAP_data) (h : Heap) (p : nat) (h1 : Heap) :
  alloc b h = (p, h1) ->
  p = next h /\ live h1 = live h ++ [next h] /\ next h1 = S (next h)
  /\ deref p h1 = (if is_live (next h) h then deref p h else Some b).
Proof.
  unfold alloc. intros H. injection H as <- <-.
  unfold live, deref, is_live. cbn [bitmaps next].
  rewrite map_app. repeat split.
  induction (bitmaps h) as [|(q, c) l IH]; cbn [lookup existsb fst app].
  - rewrite Nat.eqb_refl. reflexivity.
  - destruct (q =? next h); [reflexivity | exact IH].
Qed.

Lemma not_live (h : Heap) (p : nat) :
  heap_ok h -> next h <= p -> is_live p h = false.
Proof.
  unfold heap_ok, live, is_live. intros Hok Hp.
  induction (bitmaps h) as [|(q, c) l IH]; [reflexivity |].
  cbn [map fst existsb] in *. inversion Hok; subst.
  destruct (Nat.eqb_spec q p) as [E|E]; [lia | apply IH; assumption].
Qed.

Lemma Unload_spec (p : nat) (h h1 : Heap) :
  FreeImage_Unload p h = Some h1 ->
  live h1 = filter (fun q => negb (q =? p)) (live h) /\ next h1 = next h.
Proof.
  unfold FreeImage_Unload. destruct (is_live p h); [| discriminate].
  intros H. injection H as <-. unfold live. cbn [bitmaps next].
  split; [| reflexivity].
  induction (bitmaps h) as [|(q, c) l IH]; [reflexivity |].
  cbn [filter map fst]. destruct (q =? p); cbn [negb map fst];
    [| f_equal]; exact IH.
Qed.

Lemma update_spec (p : nat) (f : FIBITMAP_data -> FIBITMAP_data)
  (h h1 : Heap) :
  update p f h = Some h1 ->
  live h1 = live h /\ next h1 = next h.
Proof.
  unfold update. destruct (is_live p h); [| discriminate].
  intros H. injection H as <-. unfold live. cbn [bitmaps next].
  split; [| reflexivity]. rewrite map_map. apply map_ext.
  intros (q, c). cbn [fst snd]. destruct (q =? p); reflexivity.
Qed.

Lemma filter_below (n p : nat) (l : list nat) :
  Forall (fun q => q < n) l -> n <= p ->
  filter (fun q => negb (q =? p)) l = l.
Proof.
  intros Hl Hp. induction Hl as [|q l Hq _ IH]; [reflexivity |].
  cbn [filter]. destruct (Nat.eqb_spec q p) as [E|E]; [lia |].
  cbn [negb]. f_equal. exact IH.
Qed.

(** A bitmap that is made and unloaded again leaves the heap with the
    bitmaps it had. *)
Lemma alloc_Unload (l : list nat) (n : nat) :
  Forall (fun q => q < n) l ->
  filter (fun q => negb (q =? n)) (l ++ [n]) = l.
Proof.
  intros Hl. rewrite filter_app, (filter_below n n l Hl (le_n n)).
  cbn [filter]. rewrite Nat.eqb_refl. cbn [negb]. apply app_nil_r.
Qed.

Section Heaps.
Context {FI : FreeImageLib}.

(** What [GetRescaledBitsFromBitmap] does to the heap: nothing a caller
    sees. *)
Lemma GetRescaledBitsFromBitmap_heap (dataOut : list byte) (width height : Z)
  (bitmap : option nat) (h : Heap) (result : bool) (out : list byte)
  (h1 : Heap) :
  heap_ok h ->
  GetRescaledBitsFromBitmap dataOut width height bitmap h
  = Some (result, out, h1) ->
  live h1 = live h /\ next h <= next h1 /\ heap_ok h1.
Proof.
  intros Hok. unfold GetRescaledBitsFromBitmap.
  destruct bitmap as [bitmap|].
  2:{ intros H. injection H as <- <- <-. repeat split; [lia | exact Hok]. }
  destruct (_ || _).
  { intros H. injection H as <- <- <-. repeat split; [lia | exact Hok]. }
  cbv zeta. intros H.
  apply RendererExtra.bind_returns in H. destruct H as (source & _ & H).
  cbv beta in H.
  destruct (alloc (FreeImage_Rescale source width height) h)
    as (bitmapScaled, h2) eqn:Ea.
  destruct (alloc_spec _ _ _ _ Ea) as (-> & L2 & N2 & _). clear Ea.
  apply RendererExtra.bind_returns in H. destruct H as (scaled & _ & H).
  cbv beta in H.
  apply RendererExtra.bind_returns in H. destruct H as ((r, d) & _ & H).
  cbv beta iota in H.
  apply RendererExtra.bind_returns in H. destruct H as (h3 & Eu & H).
  cbv beta in H. injection H as <- <- <-.
  destruct (Unload_spec _ _ _ Eu) as (L3 & N3).
  rewrite L2, (alloc_Unload _ _ Hok) in L3.
  repeat split; [exact L3 | lia |].
  unfold heap_ok. rewrite L3, N3, N2.
  eapply Forall_impl; [| exact Hok]. cbn beta. lia.
Qed.

Lemma rescale_tasks_heap (bitmap : nat) :
  forall (jobs done : list RescaleJob) (h : Heap)
         (done1 : list RescaleJob) (h1 : Heap),
  heap_ok h ->
  Renderer.for_each (rescale_task bitmap) jobs (done, h) = Some (done1, h1) ->
  live h1 = live h /\ next h <= next h1 /\ heap_ok h1.
Proof.
  induction jobs as [|job jobs IH]; intros done h done1 h1 Hok H;
    cbn [Renderer.for_each] in H.
  - injection H as <- <-. repeat split; [lia | exact Hok].
  - apply RendererExtra.bind_returns in H.
    destruct H as ((done2, h2) & E & H). cbv beta in H.
    unfold rescale_task in E.
    apply RendererExtra.bind_returns in E.
    destruct E as (((r, d), h3) & Er & E). cbv beta iota in E.
    injection E as <- <-.
    destruct (GetRescaledBitsFromBitmap_heap _ _ _ _ _ _ _ _ Hok Er)
      as (L3 & N3 & Hok3).
    destruct (IH _ _ _ _ Hok3 H) as (L1 & N1 & Hok1).
    repeat split; [congruence | lia | exact Hok1].
Qed.

(** What [GenerateMipmapsFromFIBITMAP] does: it appends a vector for each
    job to the data of the texture and leaves the heap with the bitmaps it
    had. *)
Lemma GenerateMipmapsFromFIBITMAP_spec (bitmap : nat) (texture : RHI_Texture)
  (h : Heap) (texture1 : option RHI_Texture) (h1 : Heap) :
  GenerateMipmapsFromFIBITMAP bitmap (Some texture) h = Some (texture1, h1) ->
  (exists mips,
     texture1 = Some (SetData (m_data texture ++ mips) texture))
  /\ (heap_ok h -> live h1 = live h /\ next h <= next h1 /\ heap_ok h1).
Proof.
  unfold GenerateMipmapsFromFIBITMAP. cbv zeta. intros H.
  apply RendererExtra.bind_returns in H. destruct H as (jobs & _ & H).
  cbv beta in H.
  apply RendererExtra.bind_returns in H.
  destruct H as ((done, h2) & E & H). cbv beta iota in H.
  destruct (forallb complete done); [| discriminate].
  injection H as <- <-. split.
  - eexists. reflexivity.
  - intros Hok. exact (rescale_tasks_heap _ _ _ _ _ _ Hok E).
Qed.

End Heaps.

(** ** Loading *)

Lemma for_each_extends {A S : Type} (R : S -> S -> Prop)
  (body : A -> S -> option S) :
  (forall s, R s s) ->
  (forall a b c, R a b -> R b c -> R a c) ->
  (forall a s s', body a s = Some s' -> R s s') ->
  forall (items : list A) (s s' : S),
  Renderer.for_each body items s = Some s' -> R s s'.
Proof.
  intros Hrefl Htrans Hbody.
  induction items as [|a items IH]; intros s s' H;
    cbn [Renderer.for_each] in H.
  - injection H as <-. apply Hrefl.
  - apply RendererExtra.bind_returns in H. destruct H as (s1 & E & H).
    exact (Htrans _ _ _ (Hbody _ _ _ E) (IH _ _ H)).
Qed.

Lemma update_deref (p : nat) (f : FIBITMAP_data -> FIBITMAP_data)
  (h h1 : Heap) :
  update p f h = Some h1 ->
  deref p h1 = option_map f (deref p h).
Proof.
  unfold update. destruct (is_live p h); [| discriminate].
  intros H. injection H as <-. unfold deref. cbn [bitmaps].
  induction (bitmaps h) as [|(q, c) l IH]; [reflexivity |].
  cbn [map lookup fst snd].
  destruct (Nat.eqb_spec q p) as [E|E]; cbn [lookup fst].
  - rewrite E, Nat.eqb_refl. reflexivity.
  - apply Nat.eqb_neq in E. rewrite E. exact IH.
Qed.

Section Loading.
Context {FI : FreeImageLib}.

(** [GetBitsFromFIBITMAP] only appends to the vector. *)
Lemma GetBitsFromFIBITMAP_extends (data : list byte) (bitmap : FIBITMAP_data)
  (result : bool) (data1 : list byte) :
  GetBitsFromFIBITMAP data bitmap = Some (result, data1) ->
  exists bits, data1 = data ++ bits.
Proof.
  unfold GetBitsFromFIBITMAP. cbv zeta.
  destruct (_ || _).
  { intros H. injection H as <- <-. exists []. symmetry. apply app_nil_r. }
  intros H. apply RendererExtra.bind_returns in H.
  destruct H as (d & E & H). injection H as <- <-.
  revert E.
  apply (for_each_extends (fun a b : list byte => exists bits, b = a ++ bits)).
  - intros s. exists []. symmetry. apply app_nil_r.
  - intros a b c (x & ->) (y & ->). exists (x ++ y). symmetry.
    apply app_assoc.
  - intros y s s' E. unfold GetBits_line in E.
    apply RendererExtra.bind_returns in E. destruct E as (bytes & _ & E).
    cbv beta in E.
    apply RendererExtra.bind_returns in E. destruct E as ((o, d1) & E & H).
    injection H as <-. cbn [snd].
    change (exists bits, snd (o, d1) = snd (0, s) ++ bits).
    revert E.
    apply (for_each_extends
             (fun a b : nat * list byte => exists bits, snd b = snd a ++ bits)).
    + intros a. exists []. symmetry. apply app_nil_r.
    + intros a b c (x & Hx) (z & Hz). exists (x ++ z).
      rewrite Hz, Hx. symmetry. apply app_assoc.
    + intros x (o1, d2) (o2, d3) E. unfold GetBits_pixel in E.
      apply RendererExtra.bind_returns in E. destruct E as (red & _ & E).
      cbv beta zeta in E.
      apply RendererExtra.bind_returns in E. destruct E as (green & _ & E).
      cbv beta zeta in E.
      apply RendererExtra.bind_returns in E. destruct E as (blue & _ & E).
      cbv beta zeta in E.
      apply RendererExtra.bind_returns in E. destruct E as (alpha & _ & E).
      cbv beta zeta in E. injection E as <- <-. cbn [snd].
      exists [red; green; blue; alpha]. rewrite <- !app_assoc. reflexivity.
Qed.

(** A [Load] that answers true. *)
Lemma Load_true (filePath : Path) (texture : RHI_Texture) (h : Heap)
  (texture1 : option RHI_Texture) (h1 : Heap) :
  Load filePath (Some texture) h = Some (true, texture1, h1) ->
  exists (format : Z) (loaded : FIBITMAP_data) (bits : list byte)
         (mips : list (list byte)) (loaded_texture : RHI_Texture),
    FreeImage_Load format filePath = Some loaded
    /\ texture1 = Some loaded_texture
    /\ m_bpp loaded_texture = 32
    /\ m_data loaded_texture
       = match m_data texture with
         | [] => [bits]
         | old :: rest => (old ++ bits) :: rest ++ [[]]
         end ++ mips
    /\ (m_mipmaps texture = false -> mips = [])
    /\ (heap_ok h ->
        let original := FreeImage_FlipVertical loaded in
        live h1
        = live h
          ++ (if FreeImage_GetBPP original =? 32 then []
              else [if rescales texture original then S (next h)
                    else next h])).
Proof.
  unfold Load.
  destruct (_ || _); [discriminate |].
  destruct (negb (FileSystem_FileExists filePath)); [discriminate |].
  cbv zeta.
  match goal with
  | |- match ?d with Some _ => _ | None => _ end = _ -> _ =>
      destruct d as [format|]; [| discriminate]
  end.
  destruct (_ || _); [discriminate |].
  intros H.
  apply RendererExtra.bind_returns in H. destruct H as (loaded & El & H).
  cbv beta in H.
  exists format, loaded.
  destruct (alloc loaded h) as (p0, hA) eqn:Ea.
  destruct (alloc_spec _ _ _ _ Ea) as (-> & LA & NA & DA). clear Ea.
  apply RendererExtra.bind_returns in H. destruct H as (hB & Eu & H).
  cbv beta in H.
  destruct (update_spec _ _ _ _ Eu) as (LB & NB).
  pose proof (update_deref _ _ _ _ Eu) as DB. clear Eu.
  apply RendererExtra.bind_returns in H. destruct H as (original & Eo & H).
  cbv beta in H.
  change (negb (m_width texture =? 0) && negb (m_height texture =? 0)
          && (negb (FreeImage_GetWidth original =? m_width texture)
              && negb (FreeImage_GetHeight original =? m_height texture)))
    with (rescales texture original) in H.
  (* the scaled bitmap *)
  assert (S6 : exists pS hC,
             (if rescales texture original
              then alloc (FreeImage_Rescale original
                            (int_of_unsigned (m_width texture))
                            (int_of_unsigned (m_height texture))) hB
              else (next h, hB)) = (pS, hC)
             /\ pS = (if rescales texture original then S (next h)
                      else next h)
             /\ live hC = live h ++ [next h]
                          ++ (if rescales texture original then [S (next h)]
                              else [])
             /\ next hC = (if rescales texture original then S (S (next h))
                           else S (next h))).
  { destruct (rescales texture original).
    - destruct (alloc _ hB) as (pS, hC) eqn:E. exists pS, hC.
      destruct (alloc_spec _ _ _ _ E) as (-> & L & N & _).
      rewrite L, N, LB, NB, LA, NA, <- app_assoc. repeat split.
    - exists (next h), hB. rewrite LB, NB, LA, NA, app_nil_r. repeat split. }
  destruct S6 as (pS & hC & E6 & PS & LC & NC). rewrite E6 in H. clear E6.
  cbv beta iota in H.
  apply RendererExtra.bind_returns in H. destruct H as (scaled & _ & H).
  cbv beta in H.
  (* the bitmap of 32 bits *)
  assert (S8 : exists p32 hD,
             (if negb (FreeImage_GetBPP original =? 32)
              then alloc (FreeImage_ConvertTo32Bits scaled) hC
              else (pS, hC)) = (p32, hD)
             /\ p32 = (if FreeImage_GetBPP original =? 32 then pS
                       else next hC)
             /\ live hD = live hC
                          ++ (if FreeImage_GetBPP original =? 32 then []
                              else [next hC])
             /\ next hD = (if FreeImage_GetBPP original =? 32 then next hC
                           else S (next hC))).
  { destruct (FreeImage_GetBPP original =? 32); cbn [negb].
    - exists pS, hC. rewrite app_nil_r. repeat split.
    - destruct (alloc _ hC) as (p32, hD) eqn:E. exists p32, hD.
      destruct (alloc_spec _ _ _ _ E) as (-> & L & N & _).
      repeat split; assumption. }
  destruct S8 as (p32 & hD & E8 & P32 & LD & ND). rewrite E8 in H. clear E8.
  cbv beta iota in H.
  apply RendererExtra.bind_returns in H. destruct H as (converted & _ & H).
  cbv beta in H.
  apply RendererExtra.bind_returns in H. destruct H as (first & Ef & H).
  cbv beta in H.
  apply RendererExtra.bind_returns in H. destruct H as ((res, d1) & Er & H).
  cbv beta in H.
  apply RendererExtra.bind_returns in H. destruct H as (data & Ed & H).
  cbv beta in H.
  apply RendererExtra.bind_returns in H. destruct H as (first0 & _ & H).
  cbv beta in H.
  apply RendererExtra.bind_returns in H. destruct H as (gray & _ & H).
  cbv beta in H.
  apply RendererExtra.bind_returns in H. destruct H as ((t2o, hE) & Em & H).
  cbv beta iota in H.
  apply RendererExtra.bind_returns in H. destruct H as (t2 & -> & H).
  cbv beta in H.
  apply RendererExtra.bind_returns in H. destruct H as (hF & EF & H).
  cbv beta in H.
  apply RendererExtra.bind_returns in H. destruct H as (hG & EG & H).
  cbv beta in H.
  apply RendererExtra.bind_returns in H. destruct H as (hH & EH & H).
  cbv beta in H. injection H as <- <-.
  cbn [m_data m_mipmaps m_bpp SetData SetGrayscale SetChannels SetHeight
       SetWidth SetTransparency SetBPP snd] in Ef, Ed, Em.
  destruct (GetBitsFromFIBITMAP_extends _ _ _ _ Er) as (bits & ->).
  clear Er.
  match type of Em with
  | (if _ then _ else Some (Some ?T0, _)) = _ => set (T := T0) in Em
  end.
  assert (M : exists mips,
             t2 = SetData (data ++ mips) T
             /\ (m_mipmaps texture = false -> mips = [])
             /\ (heap_ok hD -> live hE = live hD /\ next hD <= next hE)).
  { destruct (m_mipmaps texture).
    - destruct (GenerateMipmapsFromFIBITMAP_spec _ _ _ _ _ Em)
        as ((mips & Et) & Hh).
      injection Et as ->. exists mips.
      split; [reflexivity |]. split; [discriminate |].
      intros Hok. destruct (Hh Hok) as (L & N & _). split; assumption.
    - injection Em as <- <-. exists [].
      split; [rewrite app_nil_r; reflexivity |]. split; [reflexivity |].
      intros _. split; [reflexivity | apply le_n]. }
  destruct M as (mips & -> & Hmips & HE).
  exists bits, mips, (SetData (data ++ mips) T).
  split; [exact El |]. split; [reflexivity |]. split; [reflexivity |].
  split.
  { cbn [m_data SetData]. f_equal.
    destruct (m_data texture) as [|old rest]; cbn in Ef, Ed.
    - injection Ef as <-. injection Ed as <-. reflexivity.
    - injection Ef as <-. injection Ed as <-. reflexivity. }
  split; [exact Hmips |].
  intros Hok. cbv zeta.
  change (m_bpp (SetData (data ++ mips) T)) with 32 in EG.
  cbn in EG. injection EG as <-.
  pose proof (not_live h (next h) Hok (le_n _)) as Hfresh.
  rewrite Hfresh in DA. rewrite DA in DB. cbn in DB.
  rewrite DB in Eo. injection Eo as <-.
  assert (HokD : heap_ok hD).
  { unfold heap_ok in *. rewrite LD, LC, ND, NC.
    destruct (rescales _ _), (_ =? 32);
      repeat (apply Forall_app; split); repeat constructor;
      try (eapply Forall_impl; [| exact Hok]; cbn beta; lia); lia. }
  destruct (HE HokD) as (LE & _).
  destruct (Unload_spec _ _ _ EF) as (LF & _).
  rewrite LE, LD, LC in LF. rewrite P32, PS, NC in LF.
  assert (Below : forall k,
             filter (fun q => negb (q =? next h + k)) (live h) = live h).
  { intros k. apply (filter_below (next h)); [exact Hok | lia]. }
  pose proof (Below 0) as B0. pose proof (Below 1) as B1.
  pose proof (Below 2) as B2.
  rewrite Nat.add_0_r in B0.
  replace (next h + 1) with (S (next h)) in B1 by lia.
  replace (next h + 2) with (S (S (next h))) in B2 by lia.
  assert (N1 : (next h =? S (next h)) = false) by (apply Nat.eqb_neq; lia).
  assert (N2 : (next h =? S (S (next h))) = false)
    by (apply Nat.eqb_neq; lia).
  assert (N3 : (S (next h) =? S (S (next h))) = false)
    by (apply Nat.eqb_neq; lia).
  assert (N4 : (S (next h) =? next h) = false) by (apply Nat.eqb_neq; lia).
  destruct (rescales texture (FreeImage_FlipVertical loaded));
    destruct (FreeImage_GetBPP (FreeImage_FlipVertical loaded) =? 32);
    try (destruct (Unload_spec _ _ _ EH) as (LH & _); rewrite LF in LH);
    try (injection EH as <-; rename LF into LH);
    rewrite LH, ?filter_app, ?B0, ?B1, ?B2; cbn [filter app];
    rewrite ?Nat.eqb_refl, ?N1, ?N2, ?N3, ?N4; cbn [negb filter app];
    rewrite ?filter_app, ?B0, ?B1, ?B2; cbn [filter app];
    rewrite ?Nat.eqb_refl, ?N1, ?N2, ?N3, ?N4; cbn [negb filter app];
    rewrite ?app_nil_r; reflexivity.
Qed.

(** X26: A [Load] that answers true leaves exactly one bitmap behind when the
    file is not of 32 bits a pixel, and none otherwise: the test that
    guards the second [FreeImage_Unload] reads the bits per pixel of the
    texture, which [Load] has set to 32 just before, so that unload never
    happens.  What stays is the rescaled bitmap if the file was rescaled,
    and the bitmap of the file itself if not. *)
Theorem Load_leaks_the_unconverted_bitmap (filePath : Path)
  (texture : RHI_Texture) (h : Heap) (texture1 : option RHI_Texture)
  (h1 : Heap) :
  heap_ok h ->
  Load filePath (Some texture) h = Some (true, texture1, h1) ->
  exists (format : Z) (loaded : FIBITMAP_data),
    FreeImage_Load format filePath = Some loaded
    /\ let original := FreeImage_FlipVertical loaded in
       live h1
       = live h
         ++ (if FreeImage_GetBPP original =? 32 then []
             else [if rescales texture original then S (next h)
                   else next h]).
Proof.
  intros Hok H.
  destruct (Load_true _ _ _ _ _ H)
    as (format & loaded & _ & _ & _ & El & _ & _ & _ & _ & Hlive).
  exists format, loaded. split; [exact El | exact (Hlive Hok)].
Qed.

(** X27: [Load] writes the bits into the first vector of the texture's data,
    not into the one it has just added: a texture without data gets the
    bits as its first level, a texture that already has data gets them
    appended to its old first level, plus a stray empty vector.  The mip
    levels follow, if the texture uses any, and the texture is marked as of
    32 bits a pixel. *)
Theorem Load_appends_to_the_first_level (filePath : Path)
  (texture : RHI_Texture) (h : Heap) (texture1 : option RHI_Texture)
  (h1 : Heap) :
  Load filePath (Some texture) h = Some (true, texture1, h1) ->
  exists (bits : list byte) (mips : list (list byte))
         (loaded_texture : RHI_Texture),
    texture1 = Some loaded_texture
    /\ m_bpp loaded_texture = 32
    /\ m_data loaded_texture
       = match m_data texture with
         | [] => [bits]
         | old :: rest => (old ++ bits) :: rest ++ [[]]
         end ++ mips
    /\ (m_mipmaps texture = false -> mips = []).
Proof.
  intros H.
  destruct (Load_true _ _ _ _ _ H)
    as (_ & _ & bits & mips & t1 & _ & E1 & B & D & M & _).
  exists bits, mips, t1. repeat split; assumption.
Qed.

(** X28: [RescaleBits] never unloads the bitmap it makes of the raw bits:
    every call on a vector that is not empty leaves one more bitmap
    behind, whatever it answers. *)
Theorem RescaleBits_leaks_a_bitmap (rgba : list byte)
  (fromWidth fromHeight toWidth toHeight : nat) (h : Heap)
  (result : bool) (out : list byte) (h1 : Heap) :
  heap_ok h ->
  rgba <> [] ->
  RescaleBits rgba fromWidth fromHeight toWidth toHeight h
  = Some (result, out, h1) ->
  live h1 = live h ++ [next h].
Proof.
  intros Hok Hne. unfold RescaleBits.
  destruct rgba as [|b0 rest]; [contradiction |]. cbv zeta.
  destruct (alloc _ h) as (bitmap, h2) eqn:Ea.
  destruct (alloc_spec _ _ _ _ Ea) as (_ & L2 & N2 & _). clear Ea.
  intros H.
  assert (Hok2 : heap_ok h2).
  { unfold heap_ok. rewrite L2, N2. apply Forall_app. split.
    - eapply Forall_impl; [| exact Hok]. cbn beta. lia.
    - repeat constructor. }
  destruct (GetRescaledBitsFromBitmap_heap _ _ _ _ _ _ _ _ Hok2 H)
    as (L1 & _).
  rewrite L1. exact L2.
Qed.

End Loading.

(** The theorems on a sample: a file of two by two pixels of 24 bits. *)

Lemma SampleFreeImage_channels : @channels_in_pixel SampleFreeImage.
Proof. unfold channels_in_pixel. cbn. lia. Qed.

Lemma GetBitsFromFIBITMAP_appends_witness :
  let bitmap := @FreeImage_ConvertTo32Bits SampleFreeImage sample_image in
  @GetBitsFromFIBITMAP SampleFreeImage [9%Z] bitmap
  = Some (true,
          [9; 30; 20; 10; 255; 40; 40; 40; 255;
           7; 7; 7; 255; 3; 2; 1; 255]%Z).
Proof.
  cbv zeta.
  destruct (@GetBitsFromFIBITMAP_appends SampleFreeImage [9%Z]
              (@FreeImage_ConvertTo32Bits SampleFreeImage sample_image)
              SampleFreeImage_channels) as (E & _).
  - unfold well_formed_32. cbn. repeat split. repeat constructor.
  - rewrite E. reflexivity.
Defined.

Lemma GrayscaleCheck_all_pixels_witness :
  GrayscaleCheck [7; 7; 7; 255; 1; 1; 1; 0]%Z 2 1 = Some true
  /\ GrayscaleCheck [7; 7; 7; 255; 1; 2; 1; 0]%Z 2 1 = Some false.
Proof.
  split.
  - destruct (GrayscaleCheck_all_pixels [7; 7; 7; 255; 1; 1; 1; 0]%Z 2 1)
      as (b & E & Hb);
      [unfold INT_MAX; lia | cbn; lia | discriminate |].
    change (Z.of_nat 2) with 2%Z in E. change (Z.of_nat 1) with 1%Z in E.
    rewrite E. f_equal. apply Hb.
    intros [|[|p]] Hp; [reflexivity | reflexivity | cbn in Hp; lia].
  - destruct (GrayscaleCheck_all_pixels [7; 7; 7; 255; 1; 2; 1; 0]%Z 2 1)
      as (b & E & Hb);
      [unfold INT_MAX; lia | cbn; lia | discriminate |].
    change (Z.of_nat 2) with 2%Z in E. change (Z.of_nat 1) with 1%Z in E.
    rewrite E. f_equal. destruct b; [| reflexivity].
    assert (C : grayb [7; 7; 7; 255; 1; 2; 1; 0]%Z 1 = true)
      by (apply Hb; [reflexivity | cbn; lia]).
    discriminate C.
Defined.

Lemma Load_leaks_the_unconverted_bitmap_witness :
  exists (texture1 : option RHI_Texture) (h1 : Heap),
    @Load SampleFreeImage 3 (Some (new_texture 0 0 true)) empty_heap
    = Some (true, texture1, h1)
    /\ live h1 = [0].
Proof.
  destruct (@Load SampleFreeImage 3 (Some (new_texture 0 0 true)) empty_heap)
    as [((result, texture1), h1)|] eqn:E; [| vm_compute in E; discriminate].
  assert (R : result = true) by (vm_compute in E; congruence).
  subst result. exists texture1, h1. split; [reflexivity |].
  destruct (@Load_leaks_the_unconverted_bitmap SampleFreeImage 3
              (new_texture 0 0 true) empty_heap texture1 h1)
    as (format & loaded & El & L); [constructor | exact E |].
  cbn in El. injection El as <-. exact L.
Defined.

Lemma Load_appends_to_the_first_level_witness :
  let used :=
    {| m_width := 0; m_height := 0; m_bpp := 32; m_channels := 4;
       m_transparency := false; m_grayscale := false; m_mipmaps := false;
       m_data := [[1; 2; 3; 4]%Z] |} in
  exists (texture1 : RHI_Texture) (h1 : Heap) (bits : list byte),
    @Load SampleFreeImage 3 (Some used) empty_heap
    = Some (true, Some texture1, h1)
    /\ m_data texture1 = [[1; 2; 3; 4]%Z ++ bits; []].
Proof.
  cbv zeta.
  destruct (@Load SampleFreeImage 3
              (Some {| m_width := 0; m_height := 0; m_bpp := 32;
                       m_channels := 4; m_transparency := false;
                       m_grayscale := false; m_mipmaps := false;
                       m_data := [[1; 2; 3; 4]%Z] |}) empty_heap)
    as [((result, texture1), h1)|] eqn:E; [| vm_compute in E; discriminate].
  assert (R : result = true) by (vm_compute in E; congruence).
  subst result.
  destruct (@Load_appends_to_the_first_level SampleFreeImage 3 _ _ _ _ E)
    as (bits & mips & t1 & -> & _ & D & M).
  rewrite (M eq_refl), app_nil_r in D. cbn [m_data app] in D.
  exists t1, h1, bits. split; [reflexivity | exact D].
Defined.

Lemma RescaleBits_leaks_a_bitmap_witness :
  exists (out : list byte) (h1 : Heap),
    @RescaleBits SampleFreeImage [1; 2; 3; 4]%Z 1 1 2 2 empty_heap
    = Some (true, out, h1)
    /\ live h1 = [0].
Proof.
  destruct (@RescaleBits SampleFreeImage [1; 2; 3; 4]%Z 1 1 2 2 empty_heap)
    as [((result, out), h1)|] eqn:E; [| vm_compute in E; discriminate].
  assert (R : result = true) by (vm_compute in E; congruence).
  subst result. exists out, h1. split; [reflexivity |].
  apply (@RescaleBits_leaks_a_bitmap SampleFreeImage [1; 2; 3; 4]%Z
           1 1 2 2 empty_heap true out h1);
    [constructor | discriminate | exact E].
Defined.

End ImageImporterExtra.

(** * Properties of Vector4 *)

Module Vector4Extra.

(** X29: [operator!=] is the negation of [operator==], although it is written
    on its own, with four tests joined by [|]. *)
Theorem Vector4_neqb_is_not_eqb (a b : Vector4.t) :
  Vector4.neqb a b = negb (Vector4.eqb a b).
Proof.
  unfold Vector4.neqb, Vector4.eqb.
  destruct (Qeq_bool (Vector4.x a) (Vector4.x b)),
    (Qeq_bool (Vector4.y a) (Vector4.y b)),
    (Qeq_bool (Vector4.z a) (Vector4.z b)),
    (Qeq_bool (Vector4.w a) (Vector4.w b)); reflexivity.
Qed.

End Vector4Extra.
